(** * The session client of the form-filling assistant

    A shallow embedding of the browser-side client:
    - [stores/session.ts]: the session store and its mutators;
    - [api.ts]: the transport operations and their error policy;
    - [ChatInterface.svelte]: the streaming event consumer
      ([connectSSE], [reconnectSSE], the message and error handlers, submit,
      new session, mount and destroy);
    - [FileUpload.svelte]: the upload zone's [handleFile] and the handlers
      that call it;
    - [+page.svelte]: which of the two components is mounted.

    The browser is single threaded: every callback runs to completion.  A
    callback is a function from worlds to worlds, or to a world and the
    exception that cut it short, and the event loop is a step function over
    the events the environment can deliver. *)

From Stdlib Require Import ZArith Lia Bool SpecFloat.
From stdpp Require Import base list strings.

Set Warnings "-register-all".

(** ** JavaScript values

    [JSON.parse] and [response.json()] return untyped values: the handlers
    read fields of whatever arrives.  Numbers are IEEE doubles, in the
    Standard Library's specification of them. *)

Inductive jsval : Type :=
| JUndefined
| JNull
| JBool (b : bool)
| JNum (x : spec_float)
| JStr (s : string)
| JArr (items : list jsval)
| JObj (fields : list (string * jsval)).

(** Truthiness, as used by [if (v)], [v && _] and [v || _]. *)
Definition truthy (v : jsval) : bool :=
  match v with
  | JUndefined | JNull => false
  | JBool b => b
  | JNum (S754_zero _) | JNum S754_nan => false
  | JNum _ => true
  | JStr s => negb (String.eqb s EmptyString)
  | JArr _ | JObj _ => true
  end.

(** Own-property lookup in a parsed object: when a key occurs twice,
    [JSON.parse] keeps the last occurrence. *)
Fixpoint lookup_field (k : string) (fs : list (string * jsval)) : option jsval :=
  match fs with
  | [] => None
  | (k', v) :: rest =>
      match lookup_field k rest with
      | Some v' => Some v'
      | None => if String.eqb k k' then Some v else None
      end
  end.

(** [v.k] for a key [k] that no prototype defines ([type], [content],
    [is_complete], [detail], [session_id]).  Reading a property of [null] or
    [undefined] throws a TypeError: that is [None]. *)
Definition get_prop (v : jsval) (k : string) : option jsval :=
  match v with
  | JUndefined | JNull => None
  | JObj fs => Some (default JUndefined (lookup_field k fs))
  | JBool _ | JNum _ | JStr _ | JArr _ => Some JUndefined
  end.

(** [v === "s"] *)
Definition strict_eq_str (v : jsval) (s : string) : bool :=
  match v with
  | JStr s' => String.eqb s' s
  | _ => false
  end.

(** ** The session store ([stores/session.ts]) *)

Inductive Role : Type := user | assistant.

(** [content] is declared a string; the stream handler stores [data.content]
    as it arrives, so the field holds a JavaScript value.  [timestamp] is the
    [Date] in milliseconds. *)
Record Message : Type := mkMessage {
  id : string;
  role : Role;
  content : jsval;
  timestamp : Z
}.

(** [sessionId] is declared [string | null] and [error] likewise; the
    upload zone stores [response.session_id] and the stream handler stores
    [data.content] as they arrive, so both hold JavaScript values. *)
Record SessionState : Type := mkState {
  sessionId : jsval;
  isUploading : bool;
  isComplete : bool;
  messages : list Message;
  isConnected : bool;
  error : jsval
}.

Module session.

(** The value given to [writable], and again to [set] in [reset]. *)
Definition initial : SessionState :=
  {| sessionId := JNull;
     isUploading := false;
     isComplete := false;
     messages := [];
     isConnected := false;
     error := JNull |}.

Definition setSession (sid : jsval) (state : SessionState) : SessionState :=
  {| sessionId := sid;
     isUploading := isUploading state;
     isComplete := isComplete state;
     messages := messages state;
     isConnected := isConnected state;
     error := JNull |}.

Definition setUploading (b : bool) (state : SessionState) : SessionState :=
  {| sessionId := sessionId state;
     isUploading := b;
     isComplete := isComplete state;
     messages := messages state;
     isConnected := isConnected state;
     error := error state |}.

Definition setComplete (b : bool) (state : SessionState) : SessionState :=
  {| sessionId := sessionId state;
     isUploading := isUploading state;
     isComplete := b;
     messages := messages state;
     isConnected := isConnected state;
     error := error state |}.

Definition setConnected (b : bool) (state : SessionState) : SessionState :=
  {| sessionId := sessionId state;
     isUploading := isUploading state;
     isComplete := isComplete state;
     messages := messages state;
     isConnected := b;
     error := error state |}.

Definition setError (e : jsval) (state : SessionState) : SessionState :=
  {| sessionId := sessionId state;
     isUploading := isUploading state;
     isComplete := isComplete state;
     messages := messages state;
     isConnected := isConnected state;
     error := e |}.

(** [uuid] is the value of [crypto.randomUUID()] and [now] that of
    [new Date()] at the call. *)
Definition addMessage (uuid : string) (now : Z) (r : Role) (c : jsval)
    (state : SessionState) : SessionState :=
  {| sessionId := sessionId state;
     isUploading := isUploading state;
     isComplete := isComplete state;
     messages := messages state ++ [mkMessage uuid r c now];
     isConnected := isConnected state;
     error := error state |}.

Definition reset (_ : SessionState) : SessionState := initial.

End session.

(** The store's interface as data: one constructor per method of the object
    [createSessionStore] returns. *)
Inductive Mutation : Type :=
| SetSession (sid : jsval)
| SetUploading (b : bool)
| SetComplete (b : bool)
| SetConnected (b : bool)
| SetError (e : jsval)
| AddMessage (uuid : string) (now : Z) (r : Role) (c : jsval)
| Reset.

Definition mutate (m : Mutation) : SessionState -> SessionState :=
  match m with
  | SetSession sid => session.setSession sid
  | SetUploading b => session.setUploading b
  | SetComplete b => session.setComplete b
  | SetConnected b => session.setConnected b
  | SetError e => session.setError e
  | AddMessage uuid now r c => session.addMessage uuid now r c
  | Reset => session.reset
  end.

(** One [addMessage(role, content)] call, with what [crypto.randomUUID()] and
    [new Date()] gave during it. *)
Record AddMessageCall : Type := mkCall {
  call_uuid : string;
  call_now : Z;
  call_role : Role;
  call_content : jsval
}.

Definition call (c : AddMessageCall) : SessionState -> SessionState :=
  session.addMessage (call_uuid c) (call_now c) (call_role c) (call_content c).

Definition message_of_call (c : AddMessageCall) : Message :=
  mkMessage (call_uuid c) (call_role c) (call_content c) (call_now c).

(** A sequence of [addMessage] calls, first call first. *)
Definition addMessages (calls : list AddMessageCall) (state : SessionState) : SessionState :=
  foldl (fun st c => call c st) state calls.

(** Derived stores: [sessionId !== null] and [isComplete]. *)
Definition hasSession (state : SessionState) : bool :=
  match sessionId state with JNull => false | _ => true end.

Definition canDownload (state : SessionState) : bool := isComplete state.

(** ** Errors and results

    Every value thrown in this program is an [Error] object (a plain [Error],
    or the [SyntaxError] and [TypeError] the runtime raises), so
    [error instanceof Error] holds in every [catch] and [error.message] is a
    string. *)

Inductive ErrorName : Type := PlainError | SyntaxError | TypeError.

Record exn : Type := mkExn { name : ErrorName; message : string }.

(** The outcome of a call, or of an awaited promise. *)
Inductive result (A : Type) : Type :=
| Return (a : A)
| Throw (e : exn).
Arguments Return {A} a.
Arguments Throw {A} e.

#[global] Instance result_ret : MRet result := fun A a => Return a.
#[global] Instance result_bind : MBind result := fun A B k r =>
  match r with
  | Return a => k a
  | Throw e => Throw e
  end.

(** What the JavaScript engine decides: how a number prints, the text of
    the TypeError for reading property [k] of [null], and the text of the
    TypeError for an object that has no primitive value. *)
Record Engine : Type := mkEngine {
  Number_toString : spec_float -> string;
  TypeError_message : string -> string;
  ToPrimitive_message : string
}.

Section Client.

Variable engine : Engine.

(** The conversion to a string applied by [new Error(v)] and by template
    literals, for a value that [JSON.parse] or [response.json()] gave.  An
    array is joined with commas, [null] and [undefined] items giving the
    empty string.  An object is converted by its [toString] method: without
    a member of that name it inherits the one that gives "[object Object]";
    with one, the member is not a function (no parsed value is), [valueOf]
    gives no primitive either, and the conversion throws a TypeError. *)
Fixpoint ToString (v : jsval) : result string :=
  match v with
  | JUndefined => Return "undefined"
  | JNull => Return "null"
  | JBool true => Return "true"
  | JBool false => Return "false"
  | JNum x => Return (Number_toString engine x)
  | JStr s => Return s
  | JArr items =>
      let item (v : jsval) : result string :=
        match v with
        | JUndefined | JNull => Return EmptyString
        | _ => ToString v
        end in
      (fix join (l : list jsval) : result string :=
         match l with
         | [] => Return EmptyString
         | [v] => item v
         | v :: rest =>
             first ← item v; others ← join rest;
             Return (first +:+ "," +:+ others)
         end) items
  | JObj fields =>
      match lookup_field "toString" fields with
      | Some _ => Throw (mkExn TypeError (ToPrimitive_message engine))
      | None => Return "[object Object]"
      end
  end.

(** [new Error(v)], for a [v] that is not [undefined]: the conversion of
    [v] may throw instead. *)
Definition new_Error (v : jsval) : result exn :=
  text ← ToString v; Return (mkExn PlainError text).

(** [v.k] inside an expression: reading from [null] throws. *)
Definition prop (v : jsval) (k : string) : result jsval :=
  match get_prop v k with
  | Some x => Return x
  | None => Throw (mkExn TypeError (TypeError_message engine k))
  end.

(** ** The transport client ([api.ts]) *)

(** A response as the client sees it: the [ok] flag and what
    [response.json()] settles to, a rejection with the parser's SyntaxError
    when the body is not JSON. *)
Record Response : Type := mkResponse {
  ok : bool;
  json : result jsval
}.

Definition API_BASE : string := "http://localhost:8000/api".

(** The URLs with a session id in them.  The template literal converts the
    id, so building the URL throws when the conversion does. *)
Definition chat_url (sid : jsval) : result string :=
  text ← ToString sid; Return (API_BASE +:+ "/chat/" +:+ text).

Definition status_url (sid : jsval) : result string :=
  text ← ToString sid; Return (API_BASE +:+ "/status/" +:+ text).

(** The URL [createEventSource] opens. *)
Definition stream_url (sid : jsval) : result string :=
  text ← ToString sid; Return (API_BASE +:+ "/chat/stream/" +:+ text).

Definition getDownloadUrl (sid : jsval) : result string :=
  text ← ToString sid; Return (API_BASE +:+ "/download/" +:+ text).

(** The three operations, from the point where their [fetch] settles: each
    is given what it settles to, a response, or the rejection of a failed
    network call.  ([sendMessage] and [getStatus] build their URL,
    [chat_url] and [status_url], before they fetch: when that throws there
    is no fetch, and the operation rejects with what was thrown.) *)
Definition uploadDocument (fetched : result Response) : result jsval :=
  response ← fetched;
  if negb (ok response) then
    error ← json response;
    detail ← prop error "detail";
    failure ← new_Error (if truthy detail then detail else JStr "Upload failed");
    Throw failure
  else
    json response.

Definition sendMessage (fetched : result Response) : result unit :=
  response ← fetched;
  if negb (ok response) then
    error ← json response;
    detail ← prop error "detail";
    failure ← new_Error (if truthy detail then detail else JStr "Failed to send message");
    Throw failure
  else
    Return tt.

Definition getStatus (fetched : result Response) : result jsval :=
  response ← fetched;
  if negb (ok response) then
    error ← json response;
    detail ← prop error "detail";
    failure ← new_Error (if truthy detail then detail else JStr "Failed to get status");
    Throw failure
  else
    json response.

(** ** Strings

    A string holds its text in UTF-8, as the literals of the program are
    written: a character is one to four bytes. *)

(** [s.endsWith(suffix)] *)
Definition endsWith (s suffix : string) : bool :=
  let n := String.length s in
  let m := String.length suffix in
  (m <=? n)%nat && String.eqb (String.substring (n - m) m s) suffix.

(** What [trim] removes is the white space and the line terminators of
    ECMAScript: U+0009 to U+000D, U+0020, U+00A0, U+1680, U+2000 to U+200A,
    U+2028, U+2029, U+202F, U+205F, U+3000 and U+FEFF.  In UTF-8 these take
    one, two or three bytes. *)
Definition is_white_space (a : Ascii.ascii) : bool :=
  let n := Ascii.nat_of_ascii a in
  ((9 <=? n)%nat && (n <=? 13)%nat) || (n =? 32)%nat.

Definition is_white_space2 (a b : Ascii.ascii) : bool :=
  let a := Ascii.nat_of_ascii a in
  let b := Ascii.nat_of_ascii b in
  (a =? 194)%nat && (b =? 160)%nat.                          (* U+00A0 *)

Definition is_white_space3 (a b c : Ascii.ascii) : bool :=
  let a := Ascii.nat_of_ascii a in
  let b := Ascii.nat_of_ascii b in
  let c := Ascii.nat_of_ascii c in
  ((a =? 225)%nat && (b =? 154)%nat && (c =? 128)%nat)       (* U+1680 *)
  || ((a =? 226)%nat && (b =? 128)%nat
      && (((128 <=? c)%nat && (c <=? 138)%nat)               (* U+2000-U+200A *)
          || (c =? 168)%nat || (c =? 169)%nat                (* U+2028, U+2029 *)
          || (c =? 175)%nat))                                (* U+202F *)
  || ((a =? 226)%nat && (b =? 129)%nat && (c =? 159)%nat)    (* U+205F *)
  || ((a =? 227)%nat && (b =? 128)%nat && (c =? 128)%nat)    (* U+3000 *)
  || ((a =? 239)%nat && (b =? 187)%nat && (c =? 191)%nat).   (* U+FEFF *)

(** The string without the white space character it starts with, if it
    starts with one. *)
Definition skip_white_space (s : string) : option string :=
  match s with
  | String a s1 =>
      if is_white_space a then Some s1
      else match s1 with
           | String b s2 =>
               if is_white_space2 a b then Some s2
               else match s2 with
                    | String c s3 =>
                        if is_white_space3 a b c then Some s3 else None
                    | EmptyString => None
                    end
           | EmptyString => None
           end
  | EmptyString => None
  end.

(** [s.trimStart()]: white space characters are skipped one after the other
    (the cases are those of [skip_white_space]). *)
Fixpoint trimStart (s : string) : string :=
  match s with
  | String a s1 =>
      if is_white_space a then trimStart s1
      else match s1 with
           | String b s2 =>
               if is_white_space2 a b then trimStart s2
               else match s2 with
                    | String c s3 =>
                        if is_white_space3 a b c then trimStart s3 else s
                    | EmptyString => s
                    end
           | EmptyString => s
           end
  | EmptyString => s
  end.

(** The string is white space from end to end. *)
Fixpoint all_white_space (s : string) : bool :=
  match s with
  | String a s1 =>
      if is_white_space a then all_white_space s1
      else match s1 with
           | String b s2 =>
               if is_white_space2 a b then all_white_space s2
               else match s2 with
                    | String c s3 =>
                        is_white_space3 a b c && all_white_space s3
                    | EmptyString => false
                    end
           | EmptyString => false
           end
  | EmptyString => true
  end.

(** [s.trimEnd()]: the string is cut where what is left is white space from
    there to the end. *)
Fixpoint trimEnd (s : string) : string :=
  match s with
  | String a rest =>
      if all_white_space s then EmptyString else String a (trimEnd rest)
  | EmptyString => EmptyString
  end.

Definition trim (s : string) : string := trimEnd (trimStart s).

(** ** The world the callbacks run in *)

Inductive ReadyState : Type := CONNECTING | OPEN | CLOSED.

(** An [EventSource], with the component instance whose handlers it
    carries ([onmessage] and [onerror] close over that instance's
    variables). *)
Record EventSourceObj : Type := mkEventSource {
  url : string;
  readyState : ReadyState;
  owner : nat
}.

(** [createEventSource(sessionId)], called by instance [i]: a new source
    starts in state CONNECTING.  Nothing is constructed when building the
    URL throws. *)
Definition createEventSource (sid : jsval) (i : nat) : result EventSourceObj :=
  address ← stream_url sid;
  Return {| url := address; readyState := CONNECTING; owner := i |}.

(** The variables of one [ChatInterface] instance that outlive a callback:
    [let eventSource: EventSource | null] and [isSending].  An instance the
    page has destroyed stays in the list: its pending timers and the handlers
    of its sources still run, and [$session] in them reads the store as it is
    when they run. *)
Record ChatInterface : Type := mkChat {
  eventSource : option nat;
  isSending : bool
}.

(** A pending [setTimeout(reconnectSSE, 2000)] of instance [timer_owner]. *)
Record Timer : Type := mkTimer {
  due : Z;
  timer_owner : nat
}.

(** The requests the client issues. *)
Inductive Request : Type :=
| PostUpload (fileName : string)
| PostChat (sid : jsval) (text : string).

Record World : Type := mkWorld {
  store : SessionState;            (* the [session] store *)
  sources : list EventSourceObj;   (* every EventSource constructed so far *)
  chats : list ChatInterface;      (* every ChatInterface instance created so far *)
  page_chat : option nat;          (* the instance the page shows, if any *)
  timers : list Timer;             (* pending timers, oldest first *)
  clock : Z;                       (* milliseconds *)
  uploads : nat;                   (* [handleFile] calls awaiting their upload *)
  requests : list Request          (* the fetches issued so far *)
}.

Definition initial_world : World :=
  {| store := session.initial; sources := []; chats := []; page_chat := None;
     timers := []; clock := 0; uploads := 0; requests := [] |}.

Definition update_store (f : SessionState -> SessionState) (w : World) : World :=
  {| store := f (store w); sources := sources w; chats := chats w;
     page_chat := page_chat w; timers := timers w; clock := clock w;
     uploads := uploads w; requests := requests w |}.

Definition set_sources (l : list EventSourceObj) (w : World) : World :=
  {| store := store w; sources := l; chats := chats w;
     page_chat := page_chat w; timers := timers w; clock := clock w;
     uploads := uploads w; requests := requests w |}.

Definition set_chats (l : list ChatInterface) (w : World) : World :=
  {| store := store w; sources := sources w; chats := l;
     page_chat := page_chat w; timers := timers w; clock := clock w;
     uploads := uploads w; requests := requests w |}.

Definition set_page_chat (c : option nat) (w : World) : World :=
  {| store := store w; sources := sources w; chats := chats w;
     page_chat := c; timers := timers w; clock := clock w;
     uploads := uploads w; requests := requests w |}.

Definition set_timers (l : list Timer) (w : World) : World :=
  {| store := store w; sources := sources w; chats := chats w;
     page_chat := page_chat w; timers := l; clock := clock w;
     uploads := uploads w; requests := requests w |}.

Definition set_clock (t : Z) (w : World) : World :=
  {| store := store w; sources := sources w; chats := chats w;
     page_chat := page_chat w; timers := timers w; clock := t;
     uploads := uploads w; requests := requests w |}.

Definition set_uploads (n : nat) (w : World) : World :=
  {| store := store w; sources := sources w; chats := chats w;
     page_chat := page_chat w; timers := timers w; clock := clock w;
     uploads := n; requests := requests w |}.

Definition fetch (r : Request) (w : World) : World :=
  {| store := store w; sources := sources w; chats := chats w;
     page_chat := page_chat w; timers := timers w; clock := clock w;
     uploads := uploads w; requests := requests w ++ [r] |}.

Definition set_eventSource (h : option nat) (c : ChatInterface) : ChatInterface :=
  {| eventSource := h; isSending := isSending c |}.

Definition set_isSending (b : bool) (c : ChatInterface) : ChatInterface :=
  {| eventSource := eventSource c; isSending := b |}.

Definition set_readyState (r : ReadyState) (es : EventSourceObj) : EventSourceObj :=
  {| url := url es; readyState := r; owner := owner es |}.

(** The variable [eventSource] of instance [i]. *)
Definition eventSource_of (i : nat) (w : World) : option nat :=
  c ← chats w !! i; eventSource c.

Definition isSending_of (i : nat) (w : World) : bool :=
  match chats w !! i with Some c => isSending c | None => false end.

(** [es.close()]: closing twice is harmless. *)
Definition close (h : nat) (w : World) : World :=
  set_sources (alter (set_readyState CLOSED) h (sources w)) w.

(** [if (eventSource) { eventSource.close(); }] *)
Definition close_eventSource (i : nat) (w : World) : World :=
  match eventSource_of i w with
  | Some h => close h w
  | None => w
  end.

(** ** The streaming event consumer ([ChatInterface.svelte]) *)

(** A callback runs to its end or is cut short by an exception; either way
    it leaves a world. *)
Record Outcome : Type := mkOutcome {
  world : World;
  raised : option exn
}.

Definition returns (w : World) : Outcome := mkOutcome w None.

Definition throws (e : exn) (w : World) : Outcome := mkOutcome w (Some e).

(** One callback after the other, unless the first one throws. *)
Definition and_then (o : Outcome) (k : World -> Outcome) : Outcome :=
  match raised o with
  | None => k (world o)
  | Some _ => o
  end.

(** [connectSSE()] of instance [i].  The new [EventSource] starts in state
    CONNECTING; its handlers are those of instance [i].  When
    [createEventSource] throws, nothing has been assigned yet. *)
Definition connectSSE (i : nat) (w : World) : Outcome :=
  let sid := sessionId (store w) in
  if negb (truthy sid) then returns w
  else
    match createEventSource sid i with
    | Throw e => throws e w
    | Return es =>
        let h := length (sources w) in
        let w := set_sources (sources w ++ [es]) w in
        let w := set_chats (alter (set_eventSource (Some h)) i (chats w)) w in
        returns (update_store (session.setConnected true) w)
    end.

(** [reconnectSSE()] of instance [i]. *)
Definition reconnectSSE (i : nat) (w : World) : Outcome :=
  let w := close_eventSource i w in
  if truthy (sessionId (store w)) then connectSSE i w else returns w.

(** The [onmessage] handler installed by instance [i].  [event_data] is
    what [JSON.parse(event.data)] gives, [uuid] what [crypto.randomUUID()]
    would give.  Whatever is thrown inside [try] is dropped: a read of
    [data] that throws leaves the world as it was, and [reconnectSSE]
    leaves the world it had reached.  Once [data.type] has been read [data]
    is not [null], so the later reads of [data.content] and
    [data.is_complete] cannot throw. *)
Definition onmessage (i : nat) (event_data : result jsval) (uuid : string)
    (w : World) : World :=
  let tried : result World :=
    data ← event_data;
    type ← prop data "type";
    content ← prop data "content";
    if strict_eq_str type "message" && truthy content then
      Return (update_store (session.addMessage uuid (clock w) assistant content) w)
    else if strict_eq_str type "done" then
      is_complete ← prop data "is_complete";
      let w := if truthy is_complete
               then update_store (session.setComplete true) w else w in
      Return (world (reconnectSSE i w))
    else if strict_eq_str type "error" then
      Return (update_store (session.setError content) w)
    else
      Return w
  in
  match tried with
  | Return w' => w'
  | Throw _ => w
  end.

(** The delay given to [setTimeout]. *)
Definition reconnect_delay : Z := 2000.

(** The [onerror] handler installed by instance [i]. *)
Definition onerror (i : nat) (w : World) : World :=
  let w := update_store (session.setConnected false) w in
  set_timers (timers w ++ [mkTimer (clock w + reconnect_delay) i]) w.

(** [handleSubmit()] up to the point where it waits for the network:
    [inputValue] is the text in the box.  When [sendMessage] cannot build
    its URL it has thrown before it fetches: the promise it returns is
    already rejected, so [catch] and [finally] run before any other
    event. *)
Definition handleSubmit (i : nat) (inputValue : string) (uuid : string)
    (w : World) : World :=
  let message := trim inputValue in
  let sid := sessionId (store w) in
  if String.eqb message EmptyString || isSending_of i w || negb (truthy sid) then w
  else
    let w := set_chats (alter (set_isSending true) i (chats w)) w in
    let w := update_store
               (session.addMessage uuid (clock w) user (JStr message)) w in
    match chat_url sid with
    | Return _ => fetch (PostChat sid message) w
    | Throw (mkExn _ text) =>
        let w := update_store (session.setError (JStr text)) w in
        set_chats (alter (set_isSending false) i (chats w)) w
    end.

(** [handleSubmit()] from the point where [sendMessage] settles. *)
Definition handleSubmit_settled (i : nat) (fetched : result Response)
    (w : World) : World :=
  let w := match sendMessage fetched with
           | Return _ => w
           | Throw e => update_store (session.setError (JStr (message e))) w
           end in
  set_chats (alter (set_isSending false) i (chats w)) w.

(** [handleNewSession()] *)
Definition handleNewSession (i : nat) (w : World) : World :=
  let w := close_eventSource i w in
  update_store session.reset w.

(** The callback given to [onMount]. *)
Definition onMount (i : nat) (w : World) : Outcome :=
  if truthy (sessionId (store w)) then connectSSE i w else returns w.

(** The callback given to [onDestroy]. *)
Definition onDestroy (i : nat) (w : World) : World :=
  close_eventSource i w.

(** The callback given to [$effect]. *)
Definition effect (i : nat) (w : World) : Outcome :=
  if truthy (sessionId (store w)) && negb (bool_decide (is_Some (eventSource_of i w)))
  then connectSSE i w else returns w.

(** ** The upload zone ([FileUpload.svelte]) *)

(** [handleFile(file)] up to its [await]; [name] is [file.name]. *)
Definition handleFile (name : string) (w : World) : World :=
  if negb (endsWith name ".docx") then
    update_store (session.setError (JStr "Please upload a .docx file")) w
  else
    let w := update_store (session.setUploading true) w in
    let w := update_store (session.setError JNull) w in
    set_uploads (S (uploads w)) (fetch (PostUpload name) w).

(** [handleFile(file)] from the point where [uploadDocument] settles. *)
Definition handleFile_settled (fetched : result Response) (w : World) : World :=
  let tried : result World :=
    response ← uploadDocument fetched;
    session_id ← prop response "session_id";
    Return (update_store (session.setSession session_id) w)
  in
  let w := match tried with
           | Return w' => w'
           | Throw e => update_store (session.setError (JStr (message e))) w
           end in
  update_store (session.setUploading false) w.

(** ** The page ([+page.svelte])

    [{#if $hasSession} <ChatInterface /> {:else} ... <FileUpload />]: after
    a callback has run, the page creates a chat instance when a session
    appeared (its [onMount] callback runs before its [$effect]), destroys
    the instance when the session is gone, and re-runs the [$effect] of the
    instance it shows. *)
Definition render (w : World) : Outcome :=
  match hasSession (store w), page_chat w with
  | true, None =>
      let i := length (chats w) in
      let w := set_chats (chats w ++ [mkChat None false]) w in
      let w := set_page_chat (Some i) w in
      and_then (onMount i w) (effect i)
  | false, Some i => returns (set_page_chat None (onDestroy i w))
  | true, Some i => effect i w
  | false, None => returns w
  end.

(** The page once it has reacted.  When a callback of the component throws
    while the framework runs it, the page is in a state this development
    does not describe: there is no world to go on from. *)
Definition rendered (w : World) : option World :=
  match raised (render w) with
  | None => Some (world (render w))
  | Some _ => None
  end.

(** ** The event loop *)

Inductive Event : Type :=
| FileChosen (name : string)
    (* a file is dropped on, or picked in, the upload zone *)
| UploadSettled (fetched : result Response)
    (* the fetch of a pending [handleFile] settles *)
| StreamOpen (h : nat)
    (* the transport reports source [h] open *)
| StreamMessage (h : nat) (event_data : result jsval) (uuid : string)
    (* source [h] delivers a message event *)
| StreamError (h : nat) (fatal : bool)
    (* source [h] fails; the browser gives up ([fatal]) or retries *)
| Advance (dt : Z)
    (* time passes *)
| TimerFires
    (* the oldest pending timer runs *)
| NewFormClicked
| Submitted (inputValue : string) (uuid : string)
| SendSettled (i : nat) (fetched : result Response)
    (* the fetch of the pending [handleSubmit] of instance [i] settles *)
| ErrorDismissed.

Definition readyState_of (h : nat) (w : World) : option ReadyState :=
  readyState <$> sources w !! h.

Definition owner_of (h : nat) (w : World) : option nat :=
  owner <$> sources w !! h.

(** One turn of the event loop: the callback, then the page's reaction.
    [None] when the environment cannot deliver the event in this world, and
    when the page's reaction throws.  An exception that leaves a timer's
    callback is reported by the browser and that is all: the world is the
    one the callback had reached. *)
Definition step (w : World) (e : Event) : option World :=
  match e with
  | FileChosen name =>
      match page_chat w with
      | None => rendered (handleFile name w)
      | Some _ => None
      end
  | UploadSettled fetched =>
      match uploads w with
      | S n => rendered (handleFile_settled fetched (set_uploads n w))
      | O => None
      end
  | StreamOpen h =>
      match readyState_of h w with
      | Some CONNECTING =>
          Some (set_sources (alter (set_readyState OPEN) h (sources w)) w)
      | _ => None
      end
  | StreamMessage h event_data uuid =>
      match sources w !! h with
      | Some (mkEventSource _ OPEN i) => rendered (onmessage i event_data uuid w)
      | _ => None
      end
  | StreamError h fatal =>
      match sources w !! h with
      | Some (mkEventSource _ CLOSED _) | None => None
      | Some (mkEventSource _ _ i) =>
          let r := if fatal then CLOSED else CONNECTING in
          let w := set_sources (alter (set_readyState r) h (sources w)) w in
          rendered (onerror i w)
      end
  | Advance dt =>
      if bool_decide (0 <= dt)%Z then Some (set_clock (clock w + dt) w) else None
  | TimerFires =>
      match timers w with
      | t :: rest =>
          if bool_decide (due t <= clock w)%Z
          then rendered (world (reconnectSSE (timer_owner t) (set_timers rest w)))
          else None
      | [] => None
      end
  | NewFormClicked =>
      i ← page_chat w; rendered (handleNewSession i w)
  | Submitted inputValue uuid =>
      i ← page_chat w; rendered (handleSubmit i inputValue uuid w)
  | SendSettled i fetched =>
      if isSending_of i w then rendered (handleSubmit_settled i fetched w)
      else None
  | ErrorDismissed =>
      i ← page_chat w;
      if truthy (error (store w))
      then rendered (update_store (session.setError JNull) w) else None
  end.

(** Running a list of events from a world. *)
Fixpoint run (w : World) (es : list Event) : option World :=
  match es with
  | [] => Some w
  | e :: es => w' ← step w e; run w' es
  end.

Definition reachable (w : World) : Prop :=
  exists es, run initial_world es = Some w.

(** The events of a run in which no reconnect timer outlives its session:
    a timer that runs while a session id is set belongs to the instance on
    the page.  (An upload that resolves carries a [session_id] that is not
    [null], as [UploadResponse] declares.) *)
Definition timely (w : World) (e : Event) : Prop :=
  match e with
  | TimerFires =>
      match timers w with
      | t :: _ =>
          page_chat w = Some (timer_owner t)
          \/ truthy (sessionId (store w)) = false
      | [] => True
      end
  | UploadSettled fetched =>
      forall response,
        uploadDocument fetched = Return response ->
        get_prop response "session_id" <> Some JNull
  | _ => True
  end.

Fixpoint all_timely (w : World) (es : list Event) : Prop :=
  match es with
  | [] => True
  | e :: es =>
      timely w e
      /\ match step w e with
         | Some w' => all_timely w' es
         | None => True
         end
  end.

End Client.

(** ** Events and engines used in the statements *)

(** The stream event [{"type":"done","is_complete":b}], parsed. *)
Definition done_event (b : bool) : result jsval :=
  Return (JObj [("type", JStr "done"); ("is_complete", JBool b)]).

(** A payload the consumer has no branch for: one that does not parse, or
    one whose [type] is none of the three the handler knows. *)
Definition unhandled (event_data : result jsval) : Prop :=
  match event_data with
  | Throw _ => True
  | Return data =>
      forall type, get_prop data "type" = Some type ->
        type <> JStr "message" /\ type <> JStr "done" /\ type <> JStr "error"
  end.

(** An engine for the closed examples: the TypeError texts are V8's; no
    example prints a number. *)
Definition v8 : Engine :=
  {| Number_toString := fun _ => "NaN";
     TypeError_message := fun k =>
       "Cannot read properties of null (reading '" +:+ k +:+ "')";
     ToPrimitive_message := "Cannot convert object to primitive value" |}.

(** Following the spec's words, the message a failed operation should carry:
    the error body's [detail] field when present, and the operation's generic
    fallback otherwise. *)
Definition spec_error_message (fallback : string) (response : Response) : string :=
  match json response with
  | Return (JObj fields) =>
      match lookup_field "detail" fields with
      | Some (JStr detail) => detail
      | _ => fallback
      end
  | _ => fallback
  end.

(** A 502 from a proxy in front of the backend: the body is an HTML page, so
    [response.json()] rejects with the parser's SyntaxError. *)
Definition bad_gateway : Response :=
  {| ok := false;
     json := Throw (mkExn SyntaxError
                      "Unexpected token < in JSON at position 0") |}.

(** ** Invariants of the event loop *)

(** The page has reacted to the store: a chat instance is shown exactly when
    there is a session, and the instance shown has a stream whenever the
    session id is truthy. *)
Definition settled (w : World) : Prop :=
  match page_chat w with
  | Some j =>
      hasSession (store w) = true
      /\ (truthy (sessionId (store w)) = true -> is_Some (eventSource_of j w))
  | None => hasSession (store w) = false
  end.

(** The instances, sources and timers refer to each other consistently: a
    source that is not closed is the current handle of the instance owning
    it, so an instance never has two live streams. *)
Record well_formed (w : World) : Prop := mkWellFormed {
  wf_page : forall j, page_chat w = Some j -> j < length (chats w);
  wf_owner : forall h es, sources w !! h = Some es -> owner es < length (chats w);
  wf_current : forall h es,
    sources w !! h = Some es -> readyState es <> CLOSED ->
    eventSource_of (owner es) w = Some h;
  wf_timers : forall t, t ∈ timers w -> timer_owner t < length (chats w)
}.

(** Every live source belongs to the instance the page shows, and
    [isComplete] is only true while there is a session. *)
Definition owned (w : World) : Prop :=
  (forall h es, sources w !! h = Some es -> readyState es <> CLOSED ->
     page_chat w = Some (owner es))
  /\ (isComplete (store w) = true -> hasSession (store w) = true).

(** A turn of the event loop raises [isConnected] only by constructing a
    source. *)
Definition opens_to_connect (w w' : World) : Prop :=
  length (sources w) <= length (sources w')
  /\ (isConnected (store w) = false -> isConnected (store w') = true ->
      length (sources w) < length (sources w')).

(** ** Traces used in the examples *)

(** The upload resolves with [{session_id: sid, message: "ok"}]. *)
Definition upload_resolved (sid : string) : result Response :=
  Return {| ok := true;
            json := Return (JObj [("session_id", JStr sid); ("message", JStr "ok")]) |}.

(** A document is uploaded and the chat opens its stream. *)
Definition first_connection : list Event :=
  [ FileChosen "OrderForm.docx"; UploadSettled (upload_resolved "abc123") ].

(** The same, and the transport then reports the stream open. *)
Definition stream_opened : list Event :=
  first_connection ++ [ StreamOpen 0 ].

(** A stream fails, and within the two seconds before its timer runs the
    user starts over and uploads again.  The timer then runs in the first
    chat instance, which the page has destroyed, and finds a session id: it
    opens a stream of its own.  The user starts over once more, which closes
    the stream of the instance on the page only, and the stray stream
    delivers the end of a turn. *)
Definition stale_timer_trace : list Event :=
  [ FileChosen "OrderForm.docx"; UploadSettled (upload_resolved "s1");
    StreamOpen 0;
    StreamError 0 false;
    NewFormClicked;
    FileChosen "OrderForm.docx"; UploadSettled (upload_resolved "s2");
    Advance 2000; TimerFires;
    StreamOpen 2;
    NewFormClicked;
    StreamMessage 2 (done_event true) "6f1c" ].

(** Two documents are given to the upload zone one after the other, the
    second while the first is still uploading (the zone then ignores the
    pointer but not the keyboard: Enter still opens the file dialog).  Both
    uploads resolve, the first with session s1, which mounts the chat and
    opens its stream, the second with session s2; and the stream opens. *)
Definition two_uploads : list Event :=
  [ FileChosen "OrderForm.docx"; FileChosen "OrderForm2.docx";
    UploadSettled (upload_resolved "s1"); UploadSettled (upload_resolved "s2");
    StreamOpen 0 ].

(** The same, where the second upload resolves with a [session_id] that is
    an object with a member named [toString]: a value with no string to
    it. *)
Definition upload_resolved_with (sid : jsval) : result Response :=
  Return {| ok := true; json := Return (JObj [("session_id", sid)]) |}.

Definition no_string : jsval := JObj [("toString", JStr "s2")].

Definition two_uploads_no_string : list Event :=
  [ FileChosen "OrderForm.docx"; FileChosen "OrderForm2.docx";
    UploadSettled (upload_resolved "s1");
    UploadSettled (upload_resolved_with no_string);
    StreamOpen 0 ].

(** The first part of that: the stream of the first session fails and the
    user clicks New Form.  And what follows within two seconds of the
    failure: a second upload. *)
Definition error_then_reset : list Event :=
  [ FileChosen "OrderForm.docx"; UploadSettled (upload_resolved "s1");
    StreamOpen 0;
    StreamError 0 false;
    NewFormClicked ].

Definition upload_within_delay : list Event :=
  [ FileChosen "OrderForm.docx"; UploadSettled (upload_resolved "s2");
    Advance 2000 ].

(** The world once the first stream is open, and the worlds one event
    later. *)
Definition chatting : World :=
  Eval vm_compute in default initial_world (run v8 initial_world stream_opened).

Definition after_done : World :=
  Eval vm_compute in
    default chatting (step v8 chatting (StreamMessage 0 (done_event true) "6f1c")).

Definition after_error : World :=
  Eval vm_compute in default chatting (step v8 chatting (StreamError 0 false)).

(** Two seconds after the error: with the session still there, and with the
    session reset in between. *)
Definition after_delay : World :=
  Eval vm_compute in default after_error (run v8 after_error [Advance 2000]).

Definition after_reset_and_delay : World :=
  Eval vm_compute in
    default after_error (run v8 after_error [NewFormClicked; Advance 2000]).

(** The upload zone after a file has been chosen. *)
Definition uploading : World :=
  Eval vm_compute in
    default initial_world (step v8 initial_world (FileChosen "OrderForm.docx")).

(** The chat has just been mounted: its stream is still connecting. *)
Definition connecting : World :=
  Eval vm_compute in default initial_world (run v8 initial_world first_connection).

(** A heartbeat: a JSON payload of a type the consumer does not know. *)
Definition heartbeat : result jsval := Return (JObj [("type", JStr "ping")]).

(** A 404 from the backend, with FastAPI's error body. *)
Definition session_not_found : Response :=
  {| ok := false; json := Return (JObj [("detail", JStr "Session not found")]) |}.

(** A transcript of one message, and two calls to add to it. *)
Definition greeted : SessionState :=
  session.addMessage "0a1b" 1000 assistant (JStr "Hello!") session.initial.

Definition two_calls : list AddMessageCall :=
  [ mkCall "2c3d" 2000 user (JStr "Jane Doe"); mkCall "4e5f" 3000 assistant (JStr "Thanks") ].

(** ** The rest of the upload zone ([FileUpload.svelte]) *)

(** The zone's own variable [isDragging], beside the world. *)
Definition DropZone : Type := (bool * World)%type.

(** [handleDrop(event)]: [files] are the names in
    [event.dataTransfer?.files], empty when there is no transfer. *)
Definition handleDrop (files : list string) (z : DropZone) : DropZone :=
  (false, match files with
          | file :: _ => handleFile file (snd z)
          | [] => snd z
          end).

Definition handleDragOver (z : DropZone) : DropZone := (true, snd z).

Definition handleDragLeave (z : DropZone) : DropZone := (false, snd z).

(** [handleInputChange(event)]: [files] are the names in [input.files]. *)
Definition handleInputChange (files : list string) (w : World) : World :=
  match files with
  | file :: _ => handleFile file w
  | [] => w
  end.

(** ** Reading strings *)

Definition starts_with_white_space (s : string) : bool :=
  bool_decide (is_Some (skip_white_space s)).

(** Some end of the string, not empty, is white space. *)
Fixpoint ends_with_white_space (s : string) : bool :=
  match s with
  | String _ rest => all_white_space s || ends_with_white_space rest
  | EmptyString => false
  end.

(** ** What the store and the logs hold in every reachable world *)

(** Two store states that differ at most in [isConnected]. *)
Definition same_but_connected (s s' : SessionState) : Prop :=
  sessionId s' = sessionId s
  /\ isUploading s' = isUploading s
  /\ isComplete s' = isComplete s
  /\ messages s' = messages s
  /\ error s' = error s.

(** Two worlds with the same timers, requests, pending uploads and clock. *)
Definition same_logs (w w' : World) : Prop :=
  timers w' = timers w
  /\ requests w' = requests w
  /\ uploads w' = uploads w
  /\ clock w' = clock w.

(** Every source of [w] is still there in [w'], with its URL and its owner,
    and closed if it was closed. *)
Definition sources_kept (w w' : World) : Prop :=
  forall h es,
    sources w !! h = Some es ->
    exists es',
      sources w' !! h = Some es'
      /\ url es' = url es /\ owner es' = owner es
      /\ (readyState es = CLOSED -> readyState es' = CLOSED).

(** A message the client would put in the transcript: an assistant message
    has truthy content, a user message is a non-empty trimmed string. *)
Definition proper_message (m : Message) : Prop :=
  match role m with
  | assistant => truthy (content m) = true
  | user => exists text, content m = JStr text
                         /\ text <> EmptyString /\ trim text = text
  end.

(** A request the client would issue. *)
Definition proper_request (r : Request) : Prop :=
  match r with
  | PostUpload fileName => endsWith fileName ".docx" = true
  | PostChat sid text =>
      truthy sid = true /\ text <> EmptyString /\ trim text = text
  end.

(** The pending timers are in the order in which they fall due, and none is
    due later than one delay from now. *)
Fixpoint timers_in_order (now : Z) (l : list Timer) : Prop :=
  match l with
  | [] => True
  | t :: rest =>
      (due t <= now + reconnect_delay)%Z
      /\ Forall (fun t' => (due t <= due t')%Z) rest
      /\ timers_in_order now rest
  end.

(** ** More worlds and events for the examples *)

(** [{"type":"message","content":"Hello!"}] and
    [{"type":"error","content":"Agent failed"}], parsed. *)
Definition hello_event : jsval :=
  JObj [("type", JStr "message"); ("content", JStr "Hello!")].

Definition agent_error_event : jsval :=
  JObj [("type", JStr "error"); ("content", JStr "Agent failed")].

(** [{"type":"done","is_complete":1}]: a number where a boolean is meant. *)
Definition done_with_number : jsval :=
  JObj [("type", JStr "done"); ("is_complete", JNum (S754_finite false 1 0))].

(** The backend refuses the upload. *)
Definition upload_refused : result Response :=
  Return {| ok := false;
            json := Return (JObj [("detail", JStr "Only .docx files are supported")]) |}.

(** The upload resolves with a body that has no [session_id]. *)
Definition upload_without_id : result Response :=
  Return {| ok := true; json := Return (JObj [("message", JStr "ok")]) |}.

(** A text of two no-break spaces (U+00A0), and one of a no-break space,
    a name and an ideographic space (U+3000). *)
Definition no_break_spaces : string :=
  String (Ascii.ascii_of_nat 194) (String (Ascii.ascii_of_nat 160)
    (String (Ascii.ascii_of_nat 194) (String (Ascii.ascii_of_nat 160)
       EmptyString))).

Definition padded_name : string :=
  String (Ascii.ascii_of_nat 194) (String (Ascii.ascii_of_nat 160)
    ("Jane"
     +:+ String (Ascii.ascii_of_nat 227) (String (Ascii.ascii_of_nat 128)
           (String (Ascii.ascii_of_nat 128) EmptyString)))).

(** The chat after the agent's greeting, after the user's answer has been
    submitted, and after the stream has reported an error event. *)
Definition greeted_chat : World :=
  Eval vm_compute in
    default chatting (step v8 chatting (StreamMessage 0 (Return hello_event) "0a1b")).

Definition sending : World :=
  Eval vm_compute in
    default chatting (step v8 chatting (Submitted "  Jane Doe " "2c3d")).

Definition agent_failed : World :=
  Eval vm_compute in
    default chatting
      (step v8 chatting (StreamMessage 0 (Return agent_error_event) "0a1b")).

(** * Properties *)

(** ** The store *)

Lemma addMessage_messages uuid now r c state :
  messages (session.addMessage uuid now r c state)
  = messages state ++ [mkMessage uuid r c now].
Proof. reflexivity. Qed.

Lemma addMessage_length uuid now r c state :
  length (messages (session.addMessage uuid now r c state))
  = S (length (messages state)).
Proof. rewrite addMessage_messages, length_app. simpl. lia. Qed.

Lemma addMessage_keeps uuid now r c state k m :
  messages state !! k = Some m ->
  messages (session.addMessage uuid now r c state) !! k = Some m.
Proof. intros H. rewrite addMessage_messages. by apply lookup_app_l_Some. Qed.

Lemma addMessages_messages calls : forall state,
  messages (addMessages calls state)
  = messages state ++ map message_of_call calls.
Proof.
  induction calls as [|c calls IH]; intros state; simpl.
  - by rewrite app_nil_r.
  - unfold addMessages in *. simpl. rewrite IH.
    unfold call. rewrite addMessage_messages, <- app_assoc. reflexivity.
Qed.

(** C5.  Any sequence of [addMessage] calls, from any store state, leaves the
    messages that were there in place and unchanged and appends one message
    per call, in call order, each carrying the id and the timestamp generated
    during its call: the length grows by one per call. *)
Theorem addMessage_appends_in_call_order (calls : list AddMessageCall) (state : SessionState) :
  messages (addMessages calls state) = messages state ++ map message_of_call calls
  /\ length (messages (addMessages calls state))
     = (length (messages state) + length calls)%nat
  /\ (forall k m, messages state !! k = Some m ->
        messages (addMessages calls state) !! k = Some m)
  /\ (forall k c, calls !! k = Some c ->
        messages (addMessages calls state) !! (length (messages state) + k)%nat
        = Some (message_of_call c))
  /\ (forall uuid now r c,
        messages (session.addMessage uuid now r c state)
        = messages state ++ [mkMessage uuid r c now]).
Proof.
  rewrite addMessages_messages. repeat split.
  - by rewrite length_app, length_map.
  - intros k m H. by apply lookup_app_l_Some.
  - intros k c H. rewrite lookup_app_r by lia.
    replace (length (messages state) + k - length (messages state))%nat with k by lia.
    rewrite list_lookup_fmap, H. reflexivity.
Qed.

(** C6.  Whatever the state was, [reset()] leaves the store holding exactly
    the initial value: every field is set, in the one [set] call. *)
Theorem reset_yields_initial_state (state : SessionState) :
  session.reset state
  = {| sessionId := JNull; isUploading := false; isComplete := false;
       messages := []; isConnected := false; error := JNull |}
  /\ session.reset state = session.initial.
Proof. split; reflexivity. Qed.

(** C10.  Each flag setter changes its own field and no other;
    [setSession] changes [sessionId] and [error] and no other; so a mutation
    that changes [messages] is an [addMessage] or a [reset]. *)
Theorem setters_change_only_their_fields (state : SessionState) :
  (forall b, session.setUploading b state
     = mkState (sessionId state) b (isComplete state) (messages state)
         (isConnected state) (error state))
  /\ (forall b, session.setConnected b state
     = mkState (sessionId state) (isUploading state) (isComplete state)
         (messages state) b (error state))
  /\ (forall b, session.setComplete b state
     = mkState (sessionId state) (isUploading state) b (messages state)
         (isConnected state) (error state))
  /\ (forall e, session.setError e state
     = mkState (sessionId state) (isUploading state) (isComplete state)
         (messages state) (isConnected state) e)
  /\ (forall sid, session.setSession sid state
     = mkState sid (isUploading state) (isComplete state) (messages state)
         (isConnected state) JNull)
  /\ (forall m, messages (mutate m state) <> messages state ->
        (exists uuid now r c, m = AddMessage uuid now r c) \/ m = Reset).
Proof.
  repeat split; try reflexivity.
  intros m H. destruct m; simpl in H; try congruence; eauto 10.
Qed.

(** ** The streaming event consumer *)

Section Consumer.

Variable engine : Engine.

Lemma strict_eq_str_true v s : strict_eq_str v s = true <-> v = JStr s.
Proof.
  destruct v; simpl; try (split; [discriminate | intros [=]]).
  rewrite String.eqb_eq. split; [congruence | by intros [= ->]].
Qed.

Lemma strict_eq_str_false v s : v <> JStr s -> strict_eq_str v s = false.
Proof.
  intros H. destruct (strict_eq_str v s) eqn:E; [|done].
  by apply strict_eq_str_true in E.
Qed.

Lemma prop_Some v k x : get_prop v k = Some x -> prop engine v k = Return x.
Proof. unfold prop. by intros ->. Qed.

Lemma get_prop_total v k : get_prop v "type" <> None -> is_Some (get_prop v k).
Proof. destruct v; simpl; try done; eauto. Qed.

(** C7.  A payload that fails to parse, or whose [type] is not "message",
    "done" or "error", leaves the world as the handler found it: no field
    of the store changes (and no stream is closed or opened). *)
Theorem unhandled_payload_changes_nothing
    (i : nat) (event_data : result jsval) (uuid : string) (w : World) :
  unhandled event_data ->
  onmessage engine i event_data uuid w = w
  /\ store (onmessage engine i event_data uuid w) = store w.
Proof.
  intros H. cut (onmessage engine i event_data uuid w = w).
  { intros ->. done. }
  unfold onmessage. destruct event_data as [data|e]; [|done].
  simpl in H. simpl.
  destruct (get_prop data "type") as [type|] eqn:Etype.
  - destruct (H type eq_refl) as (Hm & Hd & He).
    destruct (get_prop_total data "content") as [content Ec]; [congruence|].
    rewrite (prop_Some _ _ _ Etype). simpl.
    rewrite (prop_Some _ _ _ Ec). simpl.
    rewrite (strict_eq_str_false _ _ Hm), (strict_eq_str_false _ _ Hd),
      (strict_eq_str_false _ _ He). reflexivity.
  - unfold prop. rewrite Etype. reflexivity.
Qed.

(** *** Closing and opening streams *)

Lemma close_eventSource_store i w : store (close_eventSource i w) = store w.
Proof. unfold close_eventSource. by destruct (eventSource_of i w). Qed.

Lemma close_eventSource_chats i w : chats (close_eventSource i w) = chats w.
Proof. unfold close_eventSource. by destruct (eventSource_of i w). Qed.

Lemma close_eventSource_timers i w : timers (close_eventSource i w) = timers w.
Proof. unfold close_eventSource. by destruct (eventSource_of i w). Qed.

Lemma close_eventSource_length i w :
  length (sources (close_eventSource i w)) = length (sources w).
Proof.
  unfold close_eventSource. destruct (eventSource_of i w); [|done].
  simpl. apply length_alter.
Qed.

(** The handle in [eventSource] ends up CLOSED; every other one is as it
    was. *)
Lemma close_eventSource_lookup i w k :
  sources (close_eventSource i w) !! k
  = if bool_decide (eventSource_of i w = Some k)
    then set_readyState CLOSED <$> sources w !! k
    else sources w !! k.
Proof.
  unfold close_eventSource. destruct (eventSource_of i w) as [h|] eqn:E.
  - simpl. case_bool_decide as Hk.
    + injection Hk as ->. apply list_lookup_alter_eq.
    + apply list_lookup_alter_ne. congruence.
  - by rewrite bool_decide_eq_false_2.
Qed.

Lemma createEventSource_Return sid i es :
  createEventSource engine sid i = Return es <->
  exists address,
    stream_url engine sid = Return address
    /\ es = {| url := address; readyState := CONNECTING; owner := i |}.
Proof.
  unfold createEventSource. destruct (stream_url engine sid) as [address|e]; simpl.
  - split; [intros [= <-]; eauto|intros (x & [= <-] & ->); done].
  - split; [done|intros (x & [=] & _)].
Qed.

Lemma stream_url_string sid :
  stream_url engine (JStr sid)
  = Return ("http://localhost:8000/api/chat/stream/" +:+ sid).
Proof. reflexivity. Qed.

Lemma connectSSE_truthy i w es :
  truthy (sessionId (store w)) = true ->
  createEventSource engine (sessionId (store w)) i = Return es ->
  connectSSE engine i w
  = returns
      (update_store (session.setConnected true)
         (set_chats (alter (set_eventSource (Some (length (sources w)))) i (chats w))
            (set_sources (sources w ++ [es]) w))).
Proof. unfold connectSSE. by intros -> ->. Qed.

Lemma connectSSE_throws i w e :
  truthy (sessionId (store w)) = true ->
  createEventSource engine (sessionId (store w)) i = Throw e ->
  connectSSE engine i w = throws e w.
Proof. unfold connectSSE. by intros -> ->. Qed.

Lemma connectSSE_falsy i w :
  truthy (sessionId (store w)) = false -> connectSSE engine i w = returns w.
Proof. unfold connectSSE. by intros ->. Qed.

(** The ways [connectSSE] can end. *)
Lemma connectSSE_cases i w :
  (truthy (sessionId (store w)) = false /\ connectSSE engine i w = returns w)
  \/ (exists e,
        truthy (sessionId (store w)) = true
        /\ createEventSource engine (sessionId (store w)) i = Throw e
        /\ connectSSE engine i w = throws e w)
  \/ (exists es,
        truthy (sessionId (store w)) = true
        /\ createEventSource engine (sessionId (store w)) i = Return es
        /\ owner es = i /\ readyState es = CONNECTING
        /\ connectSSE engine i w
           = returns
               (update_store (session.setConnected true)
                  (set_chats
                     (alter (set_eventSource (Some (length (sources w)))) i (chats w))
                     (set_sources (sources w ++ [es]) w)))).
Proof.
  destruct (truthy (sessionId (store w))) eqn:Hsid.
  - destruct (createEventSource engine (sessionId (store w)) i) as [es|e] eqn:Hes.
    + right. right. exists es.
      pose proof Hes as (address & _ & ->)%createEventSource_Return.
      by rewrite (connectSSE_truthy i w _ Hsid Hes).
    + right. left. exists e. by rewrite (connectSSE_throws i w e Hsid Hes).
  - left. by rewrite connectSSE_falsy.
Qed.

(** A [connectSSE] that throws leaves the world as it found it. *)
Lemma connectSSE_raised i w :
  raised (connectSSE engine i w) <> None -> world (connectSSE engine i w) = w.
Proof.
  destruct (connectSSE_cases i w)
    as [[_ ->] | [(e & _ & _ & ->) | (es & _ & _ & _ & _ & ->)]]; done.
Qed.

Lemma reconnectSSE_truthy i w :
  truthy (sessionId (store w)) = true ->
  reconnectSSE engine i w = connectSSE engine i (close_eventSource i w).
Proof. unfold reconnectSSE. rewrite close_eventSource_store. by intros ->. Qed.

Lemma reconnectSSE_falsy i w :
  truthy (sessionId (store w)) = false ->
  reconnectSSE engine i w = returns (close_eventSource i w).
Proof. unfold reconnectSSE. rewrite close_eventSource_store. by intros ->. Qed.

(** What one reconnect does while a session id is set: the current handle
    is closed, one source is constructed for the session id in the store,
    and it becomes the current handle. *)
Lemma reconnectSSE_opens_one i w es :
  truthy (sessionId (store w)) = true ->
  createEventSource engine (sessionId (store w)) i = Return es ->
  raised (reconnectSSE engine i w) = None
  /\ sources (world (reconnectSSE engine i w))
     = sources (close_eventSource i w) ++ [es]
  /\ store (world (reconnectSSE engine i w)) = session.setConnected true (store w)
  /\ (i < length (chats w) ->
      eventSource_of i (world (reconnectSSE engine i w)) = Some (length (sources w))).
Proof.
  intros Hsid Hes. rewrite reconnectSSE_truthy by done.
  rewrite (connectSSE_truthy _ _ es)
    by (by rewrite close_eventSource_store).
  simpl. rewrite ?close_eventSource_store, ?close_eventSource_chats,
    ?close_eventSource_length.
  split; [done|]. split; [done|]. split; [done|].
  intros Hi. unfold eventSource_of. simpl.
  apply lookup_lt_is_Some_2 in Hi as [c Hc].
  rewrite list_lookup_alter_eq, Hc. reflexivity.
Qed.

(** A reconnect whose source cannot be constructed: the current handle is
    closed and that is all. *)
Lemma reconnectSSE_opens_none i w e :
  truthy (sessionId (store w)) = true ->
  createEventSource engine (sessionId (store w)) i = Throw e ->
  reconnectSSE engine i w = throws e (close_eventSource i w).
Proof.
  intros Hsid Hes. rewrite reconnectSSE_truthy by done.
  apply connectSSE_throws; by rewrite close_eventSource_store.
Qed.

(** The handler on [{"type":"done","is_complete":b}]: what it runs. *)
Lemma onmessage_done i b uuid w :
  onmessage engine i (done_event b) uuid w
  = world (reconnectSSE engine i
             (if b then update_store (session.setComplete true) w else w)).
Proof. unfold onmessage, done_event. by destruct b. Qed.

(** The handler on [{"type":"done","is_complete":b}] while a session id is
    set: within the callback the instance's current handle is closed and
    one source is constructed, which becomes the current handle. *)
Lemma onmessage_done_event
    (i : nat) (b : bool) (uuid : string) (w : World) (es : EventSourceObj) :
  truthy (sessionId (store w)) = true ->
  createEventSource engine (sessionId (store w)) i = Return es ->
  let w' := onmessage engine i (done_event b) uuid w in
  isComplete (store w') = (if b then true else isComplete (store w))
  /\ sessionId (store w') = sessionId (store w)
  /\ (forall h src, eventSource_of i w = Some h -> sources w !! h = Some src ->
        sources w' !! h = Some (set_readyState CLOSED src))
  /\ (forall k, eventSource_of i w <> Some k -> (k < length (sources w))%nat ->
        sources w' !! k = sources w !! k)
  /\ length (sources w') = S (length (sources w))
  /\ sources w' !! length (sources w) = Some es
  /\ (i < length (chats w) -> eventSource_of i w' = Some (length (sources w))).
Proof.
  intros Hsid Hnew w'.
  assert (Hw' : w' = world (reconnectSSE engine i
                       (if b then update_store (session.setComplete true) w else w)))
    by apply onmessage_done.
  set (w0 := if b then update_store (session.setComplete true) w else w) in *.
  assert (H0 : sessionId (store w0) = sessionId (store w)
               /\ sources w0 = sources w /\ chats w0 = chats w
               /\ isComplete (store w0) = (if b then true else isComplete (store w))).
  { subst w0. by destruct b. }
  destruct H0 as (Hs0 & Hsrc0 & Hch0 & Hc0).
  assert (Hev : forall j, eventSource_of j w0 = eventSource_of j w).
  { intros j. unfold eventSource_of. by rewrite Hch0. }
  destruct (reconnectSSE_opens_one i w0 es) as (_ & Hsrc & Hst & Hcur);
    [by rewrite Hs0|by rewrite Hs0|].
  rewrite Hw'. rewrite Hsrc, Hst, Hsrc0, Hch0 in *. simpl.
  repeat split; try done.
  - intros h src Hh Hes. rewrite lookup_app_l.
    + rewrite close_eventSource_lookup, Hev, Hsrc0, bool_decide_eq_true_2 by done.
      by rewrite Hes.
    + rewrite close_eventSource_length, Hsrc0. by eapply lookup_lt_Some.
  - intros k Hk Hlt. rewrite lookup_app_l.
    + by rewrite close_eventSource_lookup, Hev, Hsrc0, bool_decide_eq_false_2.
    + by rewrite close_eventSource_length, Hsrc0.
  - rewrite length_app, close_eventSource_length, Hsrc0. simpl. lia.
  - rewrite lookup_app_r; rewrite close_eventSource_length, Hsrc0; [|lia].
    by rewrite Nat.sub_diag.
Qed.

Lemma and_then_cases (o : Outcome) (k : World -> Outcome) :
  (raised o <> None /\ and_then o k = o)
  \/ (raised o = None /\ and_then o k = k (world o)).
Proof. unfold and_then. destruct (raised o); [left|right]; done. Qed.

(** What holds of the world each callback leaves holds of the world both
    leave. *)
Lemma and_then_world (P : World -> Prop) (o : Outcome) (k : World -> Outcome) :
  P (world o) -> (P (world o) -> P (world (k (world o)))) ->
  P (world (and_then o k)).
Proof.
  intros Ho Hk. destruct (and_then_cases o k) as [[_ ->] | [_ ->]]; auto.
Qed.

Lemma rendered_Some w w' :
  rendered engine w = Some w' <->
  raised (render engine w) = None /\ w' = world (render engine w).
Proof.
  unfold rendered. destruct (raised (render engine w)).
  - split; [done|by intros [? _]].
  - split; [by intros [= <-]|by intros [_ ->]].
Qed.

(** The ways [handleSubmit] can end: the submit is dropped; or the message
    is shown and sent; or the message is shown and [sendMessage] throws at
    once, being unable to build its URL. *)
Lemma handleSubmit_cases i inputValue uuid w :
  let shown :=
    update_store
      (session.addMessage uuid (clock w) user (JStr (trim inputValue)))
      (set_chats (alter (set_isSending true) i (chats w)) w) in
  ((trim inputValue = EmptyString \/ isSending_of i w = true
    \/ truthy (sessionId (store w)) = false)
   /\ handleSubmit engine i inputValue uuid w = w)
  \/ (trim inputValue <> EmptyString /\ isSending_of i w = false
      /\ truthy (sessionId (store w)) = true
      /\ ((exists address,
            chat_url engine (sessionId (store w)) = Return address
            /\ handleSubmit engine i inputValue uuid w
               = fetch (PostChat (sessionId (store w)) (trim inputValue)) shown)
          \/ (exists e,
            chat_url engine (sessionId (store w)) = Throw e
            /\ handleSubmit engine i inputValue uuid w
               = set_chats (alter (set_isSending false) i (chats shown))
                   (update_store (session.setError (JStr (message e))) shown)))).
Proof.
  intros shown. unfold handleSubmit.
  destruct (String.eqb (trim inputValue) EmptyString) eqn:Ht.
  { left. apply String.eqb_eq in Ht. auto. }
  apply String.eqb_neq in Ht.
  destruct (isSending_of i w) eqn:Hs; [left; auto|].
  destruct (truthy (sessionId (store w))) eqn:Hsid; [|left; auto].
  right. simpl. split; [done|]. split; [done|]. split; [done|].
  destruct (chat_url engine (sessionId (store w))) as [address|[n text]];
    [left|right]; eauto.
Qed.

End Consumer.

(** The three ways [connectSSE] can end, with its outcome rewritten. *)
Ltac connectSSE_outcomes engine i w :=
  let e := fresh "e" in
  let new := fresh "new" in
  let Howner := fresh "Howner" in
  destruct (connectSSE_cases engine i w)
    as [[_ ->] | [(e & _ & _ & ->) | (new & _ & _ & Howner & _ & ->)]].

(** ** The transport client and the upload zone *)

Section Transport.

Variable engine : Engine.

(** The conversion to a string at work: a plain object, an array with a
    [null] in it, an object with a member named [toString], and an array
    that holds one. *)
Example ToString_examples :
  ToString v8 (JObj [("loc", JStr "body")]) = Return "[object Object]"
  /\ ToString v8 (JArr [JStr "a"; JNull; JObj []; JArr [JBool true; JStr "b"]])
     = Return "a,,[object Object],true,b"
  /\ ToString v8 (JObj [("toString", JStr "x")])
     = Throw (mkExn TypeError "Cannot convert object to primitive value")
  /\ ToString v8 (JArr [JStr "a"; JObj [("toString", JNull)]])
     = Throw (mkExn TypeError "Cannot convert object to primitive value").
Proof. repeat split. Qed.

(** An object converts unless it has a member named [toString]. *)
Lemma ToString_object fields :
  ToString engine (JObj fields)
  = match lookup_field "toString" fields with
    | Some _ => Throw (mkExn TypeError (ToPrimitive_message engine))
    | None => Return "[object Object]"
    end.
Proof. reflexivity. Qed.

(** The three operations differ in their fallback text only, and in what
    they return on success.  On a non-success response whose body parses,
    each throws an [Error] made from [detail], or from its fallback text
    when [detail] is falsy; unless [detail] cannot be converted to a
    string, when the conversion's TypeError is what is thrown. *)
Lemma failed_response_throws (response : Response) (error detail : jsval) :
  ok response = false ->
  json response = Return error ->
  get_prop error "detail" = Some detail ->
  let thrown fallback : exn :=
    match ToString engine (if truthy detail then detail else JStr fallback) with
    | Return text => mkExn PlainError text
    | Throw e => e
    end in
  uploadDocument engine (Return response) = Throw (thrown "Upload failed")
  /\ sendMessage engine (Return response) = Throw (thrown "Failed to send message")
  /\ getStatus engine (Return response) = Throw (thrown "Failed to get status").
Proof.
  intros Hok Hjson Hdetail.
  unfold uploadDocument, sendMessage, getStatus, new_Error, prop. simpl.
  rewrite Hok, Hjson. simpl. rewrite Hdetail. simpl.
  destruct (truthy detail); [|done].
  by destruct (ToString engine detail).
Qed.

(** Where C8 does hold: an error body that is a JSON object whose [detail]
    is a non-empty string, as the backend sends them, gives an [Error] with
    that string for its message; and a success response raises no error. *)
Lemma detail_surfaces_verbatim (response : Response) fields detail :
  ok response = false ->
  json response = Return (JObj fields) ->
  lookup_field "detail" fields = Some (JStr detail) ->
  detail <> EmptyString ->
  uploadDocument engine (Return response) = Throw (mkExn PlainError detail)
  /\ sendMessage engine (Return response) = Throw (mkExn PlainError detail)
  /\ getStatus engine (Return response) = Throw (mkExn PlainError detail).
Proof.
  intros Hok Hjson Hdetail Hne.
  destruct (failed_response_throws response (JObj fields) (JStr detail))
    as (Hu & Hs & Hg); [done|done|by simpl; rewrite Hdetail|].
  simpl in Hu, Hs, Hg.
  assert (String.eqb detail EmptyString = false) as E
    by by apply String.eqb_neq.
  rewrite E in Hu, Hs, Hg. done.
Qed.

(** An error body whose [detail] has no string to it: the TypeError of the
    conversion is what the operation throws. *)
Example detail_without_a_string :
  uploadDocument v8
    (Return {| ok := false;
               json := Return (JObj [("detail", JObj [("toString", JStr "x")])]) |})
  = Throw (mkExn TypeError "Cannot convert object to primitive value").
Proof. reflexivity. Qed.

Lemma ok_response_returns (response : Response) :
  ok response = true ->
  uploadDocument engine (Return response) = json response
  /\ sendMessage engine (Return response) = Return tt
  /\ getStatus engine (Return response) = json response.
Proof.
  intros Hok. unfold uploadDocument, sendMessage, getStatus. simpl.
  by rewrite Hok.
Qed.

(** C8, on the code.  For a non-success response whose body is not JSON (a
    proxy's error page, an empty body), [response.json()] rejects and
    nothing guards it: each of the three operations fails with the
    parser's error, whatever it says, where the error body has no [detail]
    and the message should have been the operation's generic fallback. *)
Theorem unguarded_json_surfaces_parser_error (response : Response) (e : exn) :
  ok response = false ->
  json response = Throw e ->
  (uploadDocument engine (Return response) = Throw e
   /\ spec_error_message "Upload failed" response = "Upload failed")
  /\ (sendMessage engine (Return response) = Throw e
      /\ spec_error_message "Failed to send message" response
         = "Failed to send message")
  /\ (getStatus engine (Return response) = Throw e
      /\ spec_error_message "Failed to get status" response
         = "Failed to get status").
Proof.
  intros Hok Hjson.
  unfold uploadDocument, sendMessage, getStatus, spec_error_message. simpl.
  by rewrite Hok, Hjson.
Qed.

(** C9.  A file whose name does not end in ".docx" gets the error
    "Please upload a .docx file" and no request is issued; a file whose
    name does end in ".docx" is uploaded, and when the upload resolves
    with a body carrying [session_id], [setSession] is called with it. *)
Theorem handleFile_checks_extension (name : string) (w : World) :
  (endsWith name ".docx" = false ->
     handleFile name w
     = update_store (session.setError (JStr "Please upload a .docx file")) w
     /\ error (store (handleFile name w)) = JStr "Please upload a .docx file"
     /\ requests (handleFile name w) = requests w
     /\ uploads (handleFile name w) = uploads w
     /\ sources (handleFile name w) = sources w)
  /\ (endsWith name ".docx" = true ->
     requests (handleFile name w) = requests w ++ [PostUpload name]
     /\ uploads (handleFile name w) = S (uploads w)
     /\ forall fetched response session_id w1,
          uploadDocument engine fetched = Return response ->
          get_prop response "session_id" = Some session_id ->
          store (handleFile_settled engine fetched w1)
          = session.setUploading false
              (session.setSession session_id (store w1))).
Proof.
  unfold handleFile. split; intros ->; simpl; [done|].
  split; [done|]. split; [done|].
  intros fetched response session_id w1 Hup Hsid.
  unfold handleFile_settled, prop. rewrite Hup. simpl. by rewrite Hsid.
Qed.

End Transport.

(** ** Invariants of the event loop *)

Section Invariants.

Variable engine : Engine.

Lemma well_formed_frame w w' :
  page_chat w' = page_chat w -> sources w' = sources w ->
  chats w' = chats w -> timers w' = timers w ->
  well_formed w -> well_formed w'.
Proof.
  intros Hp Hs Hc Ht [H1 H2 H3 H4].
  split; unfold eventSource_of in *; rewrite ?Hp, ?Hs, ?Hc, ?Ht; done.
Qed.

Lemma well_formed_update_store f w :
  well_formed w -> well_formed (update_store f w).
Proof. by apply well_formed_frame. Qed.

Lemma eventSource_of_set_isSending b i j w :
  eventSource_of j (set_chats (alter (set_isSending b) i (chats w)) w)
  = eventSource_of j w.
Proof.
  unfold eventSource_of. simpl. rewrite list_lookup_alter.
  case_decide as E; [subst j|done]. by destruct (chats w !! i).
Qed.

Lemma well_formed_set_isSending b i w :
  well_formed w ->
  well_formed (set_chats (alter (set_isSending b) i (chats w)) w).
Proof.
  intros [H1 H2 H3 H4]. split; simpl; intros *;
    rewrite ?length_alter, ?eventSource_of_set_isSending; eauto.
Qed.

(** Changing the state of a source: fine when it is being closed, or when
    it was live before. *)
Lemma well_formed_set_readyState r h w :
  r = CLOSED \/ (exists es, sources w !! h = Some es /\ readyState es <> CLOSED) ->
  well_formed w ->
  well_formed (set_sources (alter (set_readyState r) h (sources w)) w).
Proof.
  intros Hr [H1 H2 H3 H4]. split; simpl; try done.
  - intros k es. rewrite list_lookup_alter. case_decide as E.
    + subst k. destruct (sources w !! h) as [es0|] eqn:E0; [|done].
      intros [= <-]. simpl. eauto.
    + eauto.
  - intros k es. unfold eventSource_of. simpl.
    rewrite list_lookup_alter. case_decide as E.
    + subst k. destruct (sources w !! h) as [es0|] eqn:E0; [|done].
      intros [= <-]. simpl. intros Hlive.
      destruct Hr as [-> | (es1 & Hes1 & Hlive1)]; [done|].
      assert (es1 = es0) as -> by congruence. by apply (H3 h es0).
    + apply H3.
Qed.

Lemma well_formed_close h w : well_formed w -> well_formed (close h w).
Proof. apply well_formed_set_readyState. by left. Qed.

Lemma well_formed_close_eventSource i w :
  well_formed w -> well_formed (close_eventSource i w).
Proof.
  unfold close_eventSource. destruct (eventSource_of i w); [|done].
  apply well_formed_close.
Qed.

Lemma eventSource_of_close_eventSource i j w :
  eventSource_of j (close_eventSource i w) = eventSource_of j w.
Proof. unfold eventSource_of. by rewrite close_eventSource_chats. Qed.

(** After [close_eventSource i] every source of instance [i] is closed. *)
Lemma close_eventSource_all_closed i w :
  well_formed w ->
  forall h es, sources (close_eventSource i w) !! h = Some es ->
    owner es = i -> readyState es = CLOSED.
Proof.
  intros Hwf h es. rewrite close_eventSource_lookup. case_bool_decide as E.
  - destruct (sources w !! h); [|done]. by intros [= <-].
  - intros Hes Ho. destruct (readyState es) eqn:Er; [| |done].
    + destruct E. rewrite <- Ho. apply (wf_current w Hwf h es); [done|].
      by rewrite Er.
    + destruct E. rewrite <- Ho. apply (wf_current w Hwf h es); [done|].
      by rewrite Er.
Qed.

Lemma eventSource_of_connectSSE i j w :
  truthy (sessionId (store w)) = true -> i < length (chats w) ->
  raised (connectSSE engine i w) = None ->
  eventSource_of j (world (connectSSE engine i w))
  = if decide (i = j) then Some (length (sources w)) else eventSource_of j w.
Proof.
  intros Hsid Hi.
  destruct (connectSSE_cases engine i w)
    as [[Hf _] | [(e & _ & _ & ->) | (es & _ & _ & _ & _ & ->)]];
    [congruence|done|]. intros _.
  unfold eventSource_of. simpl. rewrite list_lookup_alter.
  case_decide as E; [subst j|done].
  apply lookup_lt_is_Some_2 in Hi as [c ->]. done.
Qed.

(** Opening a stream for an instance all of whose sources are closed. *)
Lemma well_formed_connectSSE i w :
  i < length (chats w) ->
  (forall h es, sources w !! h = Some es -> owner es = i -> readyState es = CLOSED) ->
  well_formed w -> well_formed (world (connectSSE engine i w)).
Proof.
  intros Hi Hclosed Hwf.
  destruct (connectSSE_cases engine i w)
    as [[_ Hc] | [(e & _ & _ & Hc) | (new & Hsid & _ & Ho & Hr & Hc)]];
    [by rewrite Hc|by rewrite Hc|].
  assert (raised (connectSSE engine i w) = None) as Hreturned by by rewrite Hc.
  assert (sources (world (connectSSE engine i w)) = sources w ++ [new]) as Hsrc
    by by rewrite Hc.
  assert (length (chats (world (connectSSE engine i w))) = length (chats w)) as Hlen
    by (rewrite Hc; apply length_alter).
  assert (page_chat (world (connectSSE engine i w)) = page_chat w) as Hpage
    by by rewrite Hc.
  assert (timers (world (connectSSE engine i w)) = timers w) as Htim
    by by rewrite Hc.
  destruct Hwf as [H1 H2 H3 H4].
  split; rewrite ?Hsrc, ?Hlen, ?Hpage, ?Htim; try done.
  - intros h es Hes.
    apply lookup_app_Some in Hes as [Hes | [_ Hes]]; [eauto|].
    apply list_lookup_singleton_Some in Hes as [_ <-]. by rewrite Ho.
  - intros h es Hes Hlive. rewrite eventSource_of_connectSSE by done.
    apply lookup_app_Some in Hes as [Hes | [Hge Hes]].
    + case_decide as E.
      * subst i. by rewrite (Hclosed h es) in Hlive.
      * by apply H3.
    + apply list_lookup_singleton_Some in Hes as [Hh <-]. rewrite Ho.
      rewrite decide_True by done. f_equal. lia.
Qed.

Lemma well_formed_reconnectSSE i w :
  i < length (chats w) ->
  well_formed w -> well_formed (world (reconnectSSE engine i w)).
Proof.
  intros Hi Hwf. unfold reconnectSSE.
  destruct (truthy _); [|by apply well_formed_close_eventSource].
  apply well_formed_connectSSE.
  - by rewrite close_eventSource_chats.
  - by apply close_eventSource_all_closed.
  - by apply well_formed_close_eventSource.
Qed.

Lemma well_formed_connectSSE_no_handle i w :
  i < length (chats w) -> eventSource_of i w = None ->
  well_formed w -> well_formed (world (connectSSE engine i w)).
Proof.
  intros Hi Hnone Hwf. apply well_formed_connectSSE; try done.
  intros h es Hes Ho. destruct (readyState es) eqn:Er; [| |done].
  - pose proof (wf_current w Hwf h es Hes) as Hc.
    rewrite Ho, Hnone, Er in Hc. by discriminate Hc.
  - pose proof (wf_current w Hwf h es Hes) as Hc.
    rewrite Ho, Hnone, Er in Hc. by discriminate Hc.
Qed.

(** The ways [onmessage] can end. *)
Lemma onmessage_cases i event_data uuid w :
  let w' := onmessage engine i event_data uuid w in
  w' = w
  \/ (exists c, w' = update_store (session.addMessage uuid (clock w) assistant c) w)
  \/ (exists c, w' = update_store (session.setError c) w)
  \/ w' = world (reconnectSSE engine i w)
  \/ w' = world (reconnectSSE engine i (update_store (session.setComplete true) w)).
Proof.
  unfold onmessage. destruct event_data as [data|e]; simpl; [|by left].
  destruct (prop engine data "type") as [type|]; simpl; [|by left].
  destruct (prop engine data "content") as [content|]; simpl; [|by left].
  destruct (strict_eq_str type "message" && truthy content); [eauto|].
  destruct (strict_eq_str type "done").
  - destruct (prop engine data "is_complete") as [c|]; simpl; [|by left].
    destruct (truthy c); eauto 10.
  - destruct (strict_eq_str type "error"); eauto.
Qed.

Lemma well_formed_onmessage i event_data uuid w :
  i < length (chats w) ->
  well_formed w -> well_formed (onmessage engine i event_data uuid w).
Proof.
  intros Hi Hwf.
  destruct (onmessage_cases i event_data uuid w)
    as [-> | [[c ->] | [[c ->] | [-> | ->]]]];
    auto using well_formed_update_store, well_formed_reconnectSSE.
Qed.

Lemma well_formed_onerror i w :
  i < length (chats w) -> well_formed w -> well_formed (onerror i w).
Proof.
  intros Hi [H1 H2 H3 H4]. unfold onerror. split; simpl; try done.
  intros t [Ht | Ht]%elem_of_app; [eauto|].
  apply list_elem_of_singleton in Ht as ->. done.
Qed.

Lemma well_formed_handleSubmit i inputValue uuid w :
  well_formed w -> well_formed (handleSubmit engine i inputValue uuid w).
Proof.
  intros Hwf.
  assert (well_formed (set_chats (alter (set_isSending true) i (chats w)) w))
    as Hwf1 by by apply well_formed_set_isSending.
  destruct (handleSubmit_cases engine i inputValue uuid w)
    as [[_ ->] | (_ & _ & _ & [(address & _ & ->) | (e & _ & ->)])]; [done| |].
  - by apply (well_formed_frame
                (set_chats (alter (set_isSending true) i (chats w)) w)).
  - apply (well_formed_set_isSending false i
             (update_store (session.setError (JStr (message e)))
                (update_store
                   (session.addMessage uuid (clock w) user (JStr (trim inputValue)))
                   (set_chats (alter (set_isSending true) i (chats w)) w)))).
    by apply (well_formed_frame
                (set_chats (alter (set_isSending true) i (chats w)) w)).
Qed.

Lemma well_formed_handleSubmit_settled i fetched w :
  well_formed w -> well_formed (handleSubmit_settled engine i fetched w).
Proof.
  intros Hwf. unfold handleSubmit_settled.
  apply well_formed_set_isSending.
  destruct (sendMessage engine fetched); by try apply well_formed_update_store.
Qed.

Lemma well_formed_handleNewSession i w :
  well_formed w -> well_formed (handleNewSession i w).
Proof.
  intros Hwf. apply well_formed_update_store.
  by apply well_formed_close_eventSource.
Qed.

Lemma well_formed_handleFile name w :
  well_formed w -> well_formed (handleFile name w).
Proof.
  intros Hwf. unfold handleFile. destruct (negb _);
    by apply (well_formed_frame w).
Qed.

(** The ways [handleFile] can end once the upload has settled. *)
Lemma handleFile_settled_cases fetched w :
  (exists response sid,
     uploadDocument engine fetched = Return response
     /\ get_prop response "session_id" = Some sid
     /\ handleFile_settled engine fetched w
        = update_store (session.setUploading false)
            (update_store (session.setSession sid) w))
  \/ (exists e, handleFile_settled engine fetched w
     = update_store (session.setUploading false)
         (update_store (session.setError e) w)).
Proof.
  unfold handleFile_settled.
  destruct (uploadDocument engine fetched) as [response|e]; simpl; [|eauto].
  unfold prop. destruct (get_prop response "session_id") eqn:E; simpl; eauto 10.
Qed.

Lemma well_formed_handleFile_settled fetched w :
  well_formed w -> well_formed (handleFile_settled engine fetched w).
Proof.
  intros Hwf.
  destruct (handleFile_settled_cases fetched w) as [(r & x & _ & _ & ->) | [x ->]];
    by apply (well_formed_frame w).
Qed.

Lemma well_formed_effect i w :
  i < length (chats w) -> well_formed w -> well_formed (world (effect engine i w)).
Proof.
  intros Hi Hwf. unfold effect. destruct (truthy _); [|done]. simpl.
  case_bool_decide as E; [done|]. simpl.
  apply well_formed_connectSSE_no_handle; try done.
  destruct (eventSource_of i w); [|done]. destruct E. eauto.
Qed.

(** A new instance joins the list. *)
Lemma well_formed_mount w :
  well_formed w ->
  well_formed (set_page_chat (Some (length (chats w)))
                 (set_chats (chats w ++ [mkChat None false]) w)).
Proof.
  intros [H1 H2 H3 H4].
  assert (forall j, j < length (chats w) ->
            eventSource_of j (set_page_chat (Some (length (chats w)))
                                (set_chats (chats w ++ [mkChat None false]) w))
            = eventSource_of j w) as Hev.
  { intros j Hj. unfold eventSource_of. simpl. by rewrite lookup_app_l. }
  split; simpl; rewrite ?length_app; simpl.
  - intros j [= <-]. lia.
  - intros h es Hes. specialize (H2 h es Hes). lia.
  - intros h es Hes Hlive. rewrite Hev by eauto. eauto.
  - intros t Ht. specialize (H4 t Ht). lia.
Qed.

Lemma well_formed_render w : well_formed w -> well_formed (world (render engine w)).
Proof.
  intros Hwf. unfold render.
  destruct (hasSession (store w)), (page_chat w) as [j|] eqn:Hpage.
  - apply well_formed_effect; [by eapply wf_page|done].
  - pose proof (well_formed_mount w Hwf) as Hwf1.
    set (w1 := set_page_chat _ _) in *.
    assert (length (chats w) < length (chats w1)) as Hlt.
    { subst w1. simpl. rewrite length_app. simpl. lia. }
    assert (eventSource_of (length (chats w)) w1 = None) as Hnone.
    { subst w1. unfold eventSource_of. simpl.
      rewrite lookup_app_r by lia. by rewrite Nat.sub_diag. }
    assert (well_formed (world (onMount engine (length (chats w)) w1))) as Hwf2.
    { unfold onMount. destruct (truthy _); [|done].
      by apply well_formed_connectSSE_no_handle. }
    apply (and_then_world well_formed); [done|]. intros _.
    apply well_formed_effect; [|done].
    unfold onMount. destruct (truthy (sessionId (store w1))) eqn:Hsid; [|done].
    destruct (connectSSE_cases engine (length (chats w)) w1)
      as [[_ ->] | [(e & _ & _ & ->) | (es & _ & _ & _ & _ & ->)]]; try done.
    simpl. by rewrite length_alter.
  - destruct (well_formed_close_eventSource j w Hwf) as [H1 H2 H3 H4].
    unfold onDestroy. by split.
  - done.
Qed.

(** The oldest timer leaves the queue; its instance exists. *)
Lemma well_formed_pop_timer w t rest :
  timers w = t :: rest -> well_formed w ->
  timer_owner t < length (chats (set_timers rest w))
  /\ well_formed (set_timers rest w).
Proof.
  intros Ht [H1 H2 H3 H4]. split.
  - simpl. apply H4. rewrite Ht. by left.
  - split; simpl; try done. intros t' Ht'. apply H4. rewrite Ht. by right.
Qed.

(** Case analysis on a turn of the event loop: what ran, what made the
    event deliverable, and that the page's reaction returned. *)
Lemma step_cases_returned (P : World -> Event -> World -> Prop) :
  (forall w name,
     page_chat w = None ->
     raised (render engine (handleFile name w)) = None ->
     P w (FileChosen name) (world (render engine (handleFile name w)))) ->
  (forall w n fetched,
     uploads w = S n ->
     raised (render engine (handleFile_settled engine fetched (set_uploads n w)))
     = None ->
     P w (UploadSettled fetched)
       (world (render engine (handleFile_settled engine fetched (set_uploads n w))))) ->
  (forall w h es,
     sources w !! h = Some es -> readyState es = CONNECTING ->
     P w (StreamOpen h) (set_sources (alter (set_readyState OPEN) h (sources w)) w)) ->
  (forall w h es event_data uuid,
     sources w !! h = Some es -> readyState es = OPEN ->
     raised (render engine (onmessage engine (owner es) event_data uuid w)) = None ->
     P w (StreamMessage h event_data uuid)
       (world (render engine (onmessage engine (owner es) event_data uuid w)))) ->
  (forall w h es (fatal : bool),
     sources w !! h = Some es -> readyState es <> CLOSED ->
     raised
       (render engine
          (onerror (owner es)
             (set_sources
                (alter (set_readyState (if fatal then CLOSED else CONNECTING)) h
                   (sources w)) w))) = None ->
     P w (StreamError h fatal)
       (world (render engine
          (onerror (owner es)
             (set_sources
                (alter (set_readyState (if fatal then CLOSED else CONNECTING)) h
                   (sources w)) w))))) ->
  (forall w dt, (0 <= dt)%Z -> P w (Advance dt) (set_clock (clock w + dt) w)) ->
  (forall w t rest,
     timers w = t :: rest -> (due t <= clock w)%Z ->
     raised
       (render engine
          (world (reconnectSSE engine (timer_owner t) (set_timers rest w)))) = None ->
     P w TimerFires
       (world (render engine
          (world (reconnectSSE engine (timer_owner t) (set_timers rest w)))))) ->
  (forall w i,
     page_chat w = Some i ->
     raised (render engine (handleNewSession i w)) = None ->
     P w NewFormClicked (world (render engine (handleNewSession i w)))) ->
  (forall w i inputValue uuid,
     page_chat w = Some i ->
     raised (render engine (handleSubmit engine i inputValue uuid w)) = None ->
     P w (Submitted inputValue uuid)
       (world (render engine (handleSubmit engine i inputValue uuid w)))) ->
  (forall w i fetched,
     isSending_of i w = true ->
     raised (render engine (handleSubmit_settled engine i fetched w)) = None ->
     P w (SendSettled i fetched)
       (world (render engine (handleSubmit_settled engine i fetched w)))) ->
  (forall w i,
     page_chat w = Some i -> truthy (error (store w)) = true ->
     raised (render engine (update_store (session.setError JNull) w)) = None ->
     P w ErrorDismissed
       (world (render engine (update_store (session.setError JNull) w)))) ->
  forall w e w', step engine w e = Some w' -> P w e w'.
Proof.
  intros Hfile Hupload Hopen Hmessage Herror Hadvance Htimer Hnew Hsubmit Hsend
    Hdismiss w e w' Hstep.
  destruct e; simpl in Hstep.
  - destruct (page_chat w) eqn:Hp; [done|].
    apply rendered_Some in Hstep as [Hr ->]. auto.
  - destruct (uploads w) as [|n] eqn:Hn; [done|].
    apply rendered_Some in Hstep as [Hr ->]. auto.
  - unfold readyState_of in Hstep.
    destruct (sources w !! h) as [es|] eqn:Hes; [|done]. simpl in Hstep.
    destruct (readyState es) eqn:Er; try done. injection Hstep as <-. eauto.
  - destruct (sources w !! h) as [[u r i]|] eqn:Hes; [|done].
    destruct r; try done. apply rendered_Some in Hstep as [Hr ->].
    by apply (Hmessage w h _ event_data uuid Hes eq_refl).
  - destruct (sources w !! h) as [[u r i]|] eqn:Hes; [|done].
    destruct r; try done; apply rendered_Some in Hstep as [Hr ->];
      by apply (Herror w h _ fatal Hes).
  - case_bool_decide; [|done]. injection Hstep as <-. auto.
  - destruct (timers w) as [|t rest] eqn:Ht; [done|].
    case_bool_decide; [|done]. apply rendered_Some in Hstep as [Hr ->]. auto.
  - destruct (page_chat w) as [i|] eqn:Hp; [|done].
    apply rendered_Some in Hstep as [Hr ->]. auto.
  - destruct (page_chat w) as [i|] eqn:Hp; [|done].
    apply rendered_Some in Hstep as [Hr ->]. auto.
  - destruct (isSending_of i w) eqn:Hs; [|done].
    apply rendered_Some in Hstep as [Hr ->]. auto.
  - destruct (page_chat w) as [i|] eqn:Hp; [|done]. simpl in Hstep.
    destruct (truthy (error (store w))) eqn:He; [|done].
    apply rendered_Some in Hstep as [Hr ->]. eauto.
Qed.

(** The same, for what holds of the world the page's reaction leaves
    whether it returned or not. *)
Lemma step_cases (P : World -> Event -> World -> Prop) :
  (forall w name,
     page_chat w = None ->
     P w (FileChosen name) (world (render engine (handleFile name w)))) ->
  (forall w n fetched,
     uploads w = S n ->
     P w (UploadSettled fetched)
       (world (render engine (handleFile_settled engine fetched (set_uploads n w))))) ->
  (forall w h es,
     sources w !! h = Some es -> readyState es = CONNECTING ->
     P w (StreamOpen h) (set_sources (alter (set_readyState OPEN) h (sources w)) w)) ->
  (forall w h es event_data uuid,
     sources w !! h = Some es -> readyState es = OPEN ->
     P w (StreamMessage h event_data uuid)
       (world (render engine (onmessage engine (owner es) event_data uuid w)))) ->
  (forall w h es fatal,
     sources w !! h = Some es -> readyState es <> CLOSED ->
     P w (StreamError h fatal)
       (world (render engine
          (onerror (owner es)
             (set_sources
                (alter (set_readyState (if fatal then CLOSED else CONNECTING)) h
                   (sources w)) w))))) ->
  (forall w dt, (0 <= dt)%Z -> P w (Advance dt) (set_clock (clock w + dt) w)) ->
  (forall w t rest,
     timers w = t :: rest -> (due t <= clock w)%Z ->
     P w TimerFires
       (world (render engine
          (world (reconnectSSE engine (timer_owner t) (set_timers rest w)))))) ->
  (forall w i,
     page_chat w = Some i ->
     P w NewFormClicked (world (render engine (handleNewSession i w)))) ->
  (forall w i inputValue uuid,
     page_chat w = Some i ->
     P w (Submitted inputValue uuid)
       (world (render engine (handleSubmit engine i inputValue uuid w)))) ->
  (forall w i fetched,
     isSending_of i w = true ->
     P w (SendSettled i fetched)
       (world (render engine (handleSubmit_settled engine i fetched w)))) ->
  (forall w i,
     page_chat w = Some i -> truthy (error (store w)) = true ->
     P w ErrorDismissed
       (world (render engine (update_store (session.setError JNull) w)))) ->
  forall w e w', step engine w e = Some w' -> P w e w'.
Proof.
  intros Hfile Hupload Hopen Hmessage Herror Hadvance Htimer Hnew Hsubmit Hsend
    Hdismiss.
  apply step_cases_returned; eauto.
Qed.

Lemma well_formed_step w e w' :
  step engine w e = Some w' -> well_formed w -> well_formed w'.
Proof.
  intros Hstep. revert w e w' Hstep.
  apply (step_cases (fun w _ w' => well_formed w -> well_formed w')).
  - intros w name _ Hwf. by apply well_formed_render, well_formed_handleFile.
  - intros w n fetched _ Hwf.
    apply well_formed_render, well_formed_handleFile_settled.
    by apply (well_formed_frame w).
  - intros w h es Hes Hr Hwf. apply well_formed_set_readyState; [|done].
    right. exists es. by rewrite Hr.
  - intros w h es event_data uuid Hes _ Hwf.
    apply well_formed_render, well_formed_onmessage; [|done].
    apply (wf_owner w Hwf h es Hes).
  - intros w h es fatal Hes Hr Hwf.
    apply well_formed_render, well_formed_onerror.
    + simpl. apply (wf_owner w Hwf h es Hes).
    + apply well_formed_set_readyState; [|done]. right. eauto.
  - intros w dt _ Hwf. by apply (well_formed_frame w).
  - intros w t rest Ht _ Hwf.
    pose proof (well_formed_pop_timer w t rest Ht Hwf) as [Hi Hwf1].
    by apply well_formed_render, well_formed_reconnectSSE.
  - intros w i _ Hwf. by apply well_formed_render, well_formed_handleNewSession.
  - intros w i inputValue uuid _ Hwf.
    by apply well_formed_render, well_formed_handleSubmit.
  - intros w i fetched _ Hwf.
    by apply well_formed_render, well_formed_handleSubmit_settled.
  - intros w i _ _ Hwf. by apply well_formed_render, well_formed_update_store.
Qed.

(** *** The page has reacted after every event *)

Lemma connectSSE_sessionId i w :
  sessionId (store (world (connectSSE engine i w))) = sessionId (store w)
  /\ page_chat (world (connectSSE engine i w)) = page_chat w
  /\ length (chats (world (connectSSE engine i w))) = length (chats w).
Proof.
  destruct (connectSSE_cases engine i w)
    as [[_ ->] | [(e & _ & _ & ->) | (es & _ & _ & _ & _ & ->)]]; try done.
  simpl. by rewrite length_alter.
Qed.

Lemma effect_sessionId i w :
  sessionId (store (world (effect engine i w))) = sessionId (store w)
  /\ page_chat (world (effect engine i w)) = page_chat w.
Proof.
  unfold effect. destruct (_ && _); [|done].
  by destruct (connectSSE_sessionId i w) as (-> & -> & _).
Qed.

Lemma effect_has_stream i w :
  i < length (chats w) ->
  truthy (sessionId (store w)) = true ->
  raised (effect engine i w) = None ->
  is_Some (eventSource_of i (world (effect engine i w))).
Proof.
  intros Hi Hsid. unfold effect. rewrite Hsid. simpl.
  case_bool_decide as E; [done|]. simpl. intros Hreturned.
  rewrite eventSource_of_connectSSE by done.
  rewrite decide_True by done. eauto.
Qed.

Lemma hasSession_sessionId s s' :
  sessionId s' = sessionId s -> hasSession s' = hasSession s.
Proof. unfold hasSession. by intros ->. Qed.

(** When the page's reaction returns, the page has reacted. *)
Lemma render_settled w :
  well_formed w -> raised (render engine w) = None ->
  settled (world (render engine w)).
Proof.
  intros Hwf. unfold render, settled.
  destruct (hasSession (store w)) eqn:Hhas, (page_chat w) as [j|] eqn:Hpage.
  - intros Hreturned.
    destruct (effect_sessionId j w) as (Hs & ->). rewrite Hpage.
    rewrite (hasSession_sessionId _ _ Hs), Hs. split; [done|]. intros Hsid.
    apply effect_has_stream; [by eapply wf_page|done|done].
  - set (i := length (chats w)).
    set (w1 := set_page_chat _ _).
    destruct (and_then_cases (onMount engine i w1) (effect engine i))
      as [[Hr ->] | [Hr ->]]; [done|]. intros Hreturned.
    assert (sessionId (store (world (onMount engine i w1))) = sessionId (store w)
            /\ page_chat (world (onMount engine i w1)) = Some i
            /\ i < length (chats (world (onMount engine i w1)))) as (Hs1 & Hp1 & Hl1).
    { unfold onMount. destruct (truthy _).
      - destruct (connectSSE_sessionId i w1) as (-> & -> & ->).
        subst w1 i. simpl. rewrite length_app. simpl. split; [done|].
        split; [done|lia].
      - subst w1 i. simpl. rewrite length_app. simpl. split; [done|].
        split; [done|lia]. }
    destruct (effect_sessionId i (world (onMount engine i w1))) as (Hs & ->).
    rewrite Hp1, (hasSession_sessionId (store w)) by congruence.
    split; [done|]. rewrite Hs, Hs1. intros Hsid.
    apply effect_has_stream; [done|congruence|done].
  - simpl. unfold onDestroy. by rewrite close_eventSource_store.
  - simpl. by rewrite Hpage.
Qed.

(** Once the page has reacted it has nothing more to do. *)
Lemma settled_render_returns w : settled w -> render engine w = returns w.
Proof.
  unfold settled, render. destruct (page_chat w) as [j|].
  - intros [-> Hs]. unfold effect.
    destruct (truthy _); [|done]. simpl.
    rewrite bool_decide_eq_true_2 by auto. done.
  - by intros ->.
Qed.

Lemma settled_render w : settled w -> world (render engine w) = w.
Proof. intros H. by rewrite settled_render_returns. Qed.

Lemma settled_rendered w : settled w -> rendered engine w = Some w.
Proof. intros H. unfold rendered. by rewrite settled_render_returns. Qed.

Lemma settled_step w e w' :
  step engine w e = Some w' -> well_formed w -> settled w -> settled w'.
Proof.
  intros Hstep. revert w e w' Hstep.
  apply (step_cases_returned
           (fun w _ w' => well_formed w -> settled w -> settled w')).
  - intros w name _ Hr Hwf _.
    apply render_settled; [by apply well_formed_handleFile|done].
  - intros w n fetched _ Hr Hwf _.
    apply render_settled; [|done]. apply well_formed_handleFile_settled.
    by apply (well_formed_frame w).
  - by intros w h es _ _ _ Hset.
  - intros w h es event_data uuid Hes _ Hr Hwf _.
    apply render_settled; [|done]. apply well_formed_onmessage; [|done].
    apply (wf_owner w Hwf h es Hes).
  - intros w h es fatal Hes Hlive Hr Hwf _.
    apply render_settled; [|done]. apply well_formed_onerror.
    + simpl. apply (wf_owner w Hwf h es Hes).
    + apply well_formed_set_readyState; [|done]. right. eauto.
  - by intros w dt _ _ Hset.
  - intros w t rest Ht _ Hr Hwf _.
    pose proof (well_formed_pop_timer w t rest Ht Hwf) as [Hi Hwf1].
    apply render_settled; [|done]. by apply well_formed_reconnectSSE.
  - intros w i _ Hr Hwf _.
    apply render_settled; [by apply well_formed_handleNewSession|done].
  - intros w i inputValue uuid _ Hr Hwf _.
    apply render_settled; [by apply well_formed_handleSubmit|done].
  - intros w i fetched _ Hr Hwf _.
    apply render_settled; [by apply well_formed_handleSubmit_settled|done].
  - intros w i _ _ Hr Hwf _.
    apply render_settled; [by apply well_formed_update_store|done].
Qed.

Lemma run_invariants es : forall w w',
  run engine w es = Some w' ->
  well_formed w /\ settled w -> well_formed w' /\ settled w'.
Proof.
  induction es as [|e es IH]; intros w w' Hrun [Hwf Hset]; simpl in Hrun.
  - by injection Hrun as <-.
  - destruct (step engine w e) as [w1|] eqn:Hstep; [|done]. simpl in Hrun.
    apply (IH w1 w' Hrun). split.
    + by eapply well_formed_step.
    + by eapply settled_step.
Qed.

(** Every reachable world is well formed and settled. *)
Lemma reachable_invariants w :
  reachable engine w -> well_formed w /\ settled w.
Proof.
  intros [es Hrun]. apply (run_invariants es initial_world w Hrun).
  split; [|done]. split; simpl; try done.
  intros t Ht. by apply elem_of_nil in Ht.
Qed.

(** *** The consumer, one event at a time *)

Lemma settled_frame w w' :
  page_chat w' = page_chat w -> sessionId (store w') = sessionId (store w) ->
  chats w' = chats w -> settled w -> settled w'.
Proof.
  unfold settled, eventSource_of. intros -> Hs ->.
  by rewrite (hasSession_sessionId _ _ Hs), Hs.
Qed.

Lemma settled_reconnectSSE i w :
  i < length (chats w) -> settled w -> settled (world (reconnectSSE engine i w)).
Proof.
  intros Hi Hset. unfold reconnectSSE.
  assert (settled (close_eventSource i w)) as Hset1.
  { apply (settled_frame w); try done.
    - unfold close_eventSource. by destruct (eventSource_of i w).
    - by rewrite close_eventSource_store.
    - by rewrite close_eventSource_chats. }
  destruct (truthy (sessionId (store (close_eventSource i w)))) eqn:Hsid; [|done].
  assert (i < length (chats (close_eventSource i w))) as Hi1
    by by rewrite close_eventSource_chats.
  unfold settled in *.
  destruct (connectSSE_sessionId i (close_eventSource i w)) as (Hs & -> & _).
  rewrite (hasSession_sessionId _ _ Hs), Hs.
  destruct (page_chat (close_eventSource i w)) as [j|]; [|done].
  destruct Hset1 as [Hhas Hstream]. split; [done|]. intros _.
  destruct (raised (connectSSE engine i (close_eventSource i w))) eqn:Hr.
  - rewrite connectSSE_raised by congruence. auto.
  - rewrite eventSource_of_connectSSE by done. case_decide; eauto.
Qed.

(** C1, as the code has it.  When an open source delivers
    [{"type":"done","is_complete":b}] while a session id is set
    ([$session.sessionId] is truthy; [s] is the id as text): the event is
    handled, [isComplete] becomes true if [b] is true and is unchanged
    otherwise; in either case, within that one turn of the event loop, the
    source (the current handle of its instance) is closed, every other
    source is left as it was, and exactly one new source is constructed,
    which becomes the current handle.  The new source is for the session id
    the store holds at that moment: its URL is
    [http://localhost:8000/api/chat/stream/s], whatever the URL of the
    source that was closed. *)
Theorem done_event_closes_and_reopens
    (w : World) (h : nat) (src : EventSourceObj) (b : bool) (uuid s : string) :
  reachable engine w ->
  sources w !! h = Some src ->
  readyState src = OPEN ->
  truthy (sessionId (store w)) = true ->
  ToString engine (sessionId (store w)) = Return s ->
  exists w',
    step engine w (StreamMessage h (done_event b) uuid) = Some w'
    /\ isComplete (store w') = (if b then true else isComplete (store w))
    /\ sessionId (store w') = sessionId (store w)
    /\ eventSource_of (owner src) w = Some h
    /\ readyState_of h w' = Some CLOSED
    /\ sources w'
       = alter (set_readyState CLOSED) h (sources w)
         ++ [ {| url := "http://localhost:8000/api/chat/stream/" +:+ s;
                 readyState := CONNECTING;
                 owner := owner src |} ]
    /\ eventSource_of (owner src) w' = Some (length (sources w)).
Proof.
  intros [Hwf Hset]%reachable_invariants Hes Hopen Hsid Hs.
  pose proof (wf_owner w Hwf h _ Hes) as Hi.
  pose proof (wf_current w Hwf h _ Hes) as Hcur.
  rewrite Hopen in Hcur. specialize (Hcur ltac:(done)).
  set (i := owner src) in *.
  set (new := {| url := "http://localhost:8000/api/chat/stream/" +:+ s;
                 readyState := CONNECTING; owner := i |}).
  assert (createEventSource engine (sessionId (store w)) i = Return new) as Hnew.
  { unfold createEventSource, stream_url. by rewrite Hs. }
  set (w0 := if b then update_store (session.setComplete true) w else w).
  assert (sessionId (store w0) = sessionId (store w)
          /\ sources w0 = sources w /\ chats w0 = chats w
          /\ page_chat w0 = page_chat w
          /\ isComplete (store w0) = (if b then true else isComplete (store w)))
    as (Hs0 & Hsrc0 & Hch0 & Hp0 & Hc0).
  { subst w0. by destruct b. }
  assert (settled w0) as Hset0 by by apply (settled_frame w).
  destruct (reconnectSSE_opens_one engine i w0 new)
    as (Hr & Hsrc & Hst & Hcur'); [by rewrite Hs0|by rewrite Hs0|].
  assert (sources (close_eventSource i w0)
          = alter (set_readyState CLOSED) h (sources w)) as Hclosed.
  { unfold close_eventSource, eventSource_of. rewrite Hch0.
    fold (eventSource_of i w). rewrite Hcur. simpl. by rewrite Hsrc0. }
  exists (world (reconnectSSE engine i w0)). split.
  { simpl. rewrite Hes. destruct src as [u r j]. simpl in Hopen. subst r.
    rewrite onmessage_done. fold w0. apply settled_rendered.
    apply settled_reconnectSSE; [by rewrite Hch0|done]. }
  rewrite Hsrc, Hst, Hclosed. simpl. rewrite Hs0, Hc0.
  split; [done|]. split; [done|]. split; [done|]. split; [|split; [done|]].
  - unfold readyState_of. rewrite Hsrc, Hclosed, lookup_app_l.
    + by rewrite list_lookup_alter_eq, Hes.
    + rewrite length_alter. by eapply lookup_lt_Some.
  - rewrite <- Hsrc0. apply Hcur'. by rewrite Hch0.
Qed.

Lemma close_eventSource_set_timers i l w :
  sources (close_eventSource i (set_timers l w)) = sources (close_eventSource i w).
Proof.
  unfold close_eventSource.
  change (eventSource_of i (set_timers l w)) with (eventSource_of i w).
  by destruct (eventSource_of i w).
Qed.

(** Where C3 does hold.  When the transport reports an error on a source:
    [isConnected] becomes false, no stream is opened at once, and one timer
    is set for 2000 ms later.  That timer cannot run before its time; when
    it runs it is gone, and it has closed the current handle of its
    instance and then constructed exactly one source if a session id is set
    at that moment, for that id, and none if no session id is set. *)
Lemma transport_error_schedules_reconnect
    (w w1 : World) (h : nat) (fatal : bool) :
  reachable engine w ->
  step engine w (StreamError h fatal) = Some w1 ->
  exists i t,
    owner_of h w = Some i
    /\ t = mkTimer (clock w + 2000) i
    /\ isConnected (store w1) = false
    /\ timers w1 = timers w ++ [t]
    /\ length (sources w1) = length (sources w)
    /\ forall es w2 rest,
         run engine w1 es = Some w2 -> timers w2 = t :: rest ->
         ((clock w2 < due t)%Z -> step engine w2 TimerFires = None)
         /\ ((due t <= clock w2)%Z ->
             exists w3,
               step engine w2 TimerFires = Some w3
               /\ timers w3 = rest
               /\ (forall k src,
                     eventSource_of i w2 = Some k -> sources w2 !! k = Some src ->
                     sources w3 !! k = Some (set_readyState CLOSED src))
               /\ (forall s,
                     truthy (sessionId (store w2)) = true ->
                     ToString engine (sessionId (store w2)) = Return s ->
                     sources w3
                     = sources (close_eventSource i w2)
                       ++ [ {| url := "http://localhost:8000/api/chat/stream/" +:+ s;
                               readyState := CONNECTING;
                               owner := i |} ])
               /\ (truthy (sessionId (store w2)) = false ->
                     sources w3 = sources (close_eventSource i w2))).
Proof.
  intros Hreach Hstep.
  destruct (reachable_invariants w Hreach) as [Hwf Hset].
  pose proof (well_formed_step w _ w1 Hstep Hwf) as Hwf1.
  pose proof (settled_step w _ w1 Hstep Hwf Hset) as Hset1.
  simpl in Hstep.
  destruct (sources w !! h) as [[u r i]|] eqn:Hes; [|done].
  set (w0 := set_sources _ w) in Hstep.
  assert (rendered engine (onerror i w0) = Some w1) as Hw1
    by by destruct r.
  clear Hstep.
  rewrite settled_rendered in Hw1 by by apply (settled_frame w).
  injection Hw1 as <-.
  exists i, (mkTimer (clock w + 2000) i).
  split; [by unfold owner_of; rewrite Hes|].
  split; [done|]. split; [done|]. split; [done|].
  split; [by subst w0; simpl; rewrite length_alter|].
  intros es w2 rest Hrun Ht.
  destruct (run_invariants es _ w2 Hrun (conj Hwf1 Hset1)) as [Hwf2 Hset2].
  simpl. rewrite Ht. simpl. split.
  - intros Hearly. rewrite bool_decide_eq_false_2 by lia. done.
  - intros Hdue. rewrite bool_decide_eq_true_2 by done.
    assert (i < length (chats w2)) as Hi.
    { apply (wf_timers w2 Hwf2 (mkTimer (clock w + 2000) i)).
      rewrite Ht. by left. }
    set (w2' := set_timers rest w2).
    rewrite settled_rendered
      by (apply settled_reconnectSSE; [done|by apply (settled_frame w2)]).
    eexists. split; [done|].
    assert (timers (world (reconnectSSE engine i w2')) = rest) as Htimers.
    { unfold reconnectSSE.
      destruct (truthy (sessionId (store (close_eventSource i w2')))).
      - destruct (connectSSE_cases engine i (close_eventSource i w2'))
          as [[_ ->] | [(e & _ & _ & ->) | (new & _ & _ & _ & _ & ->)]];
          simpl; by rewrite close_eventSource_timers.
      - simpl. by rewrite close_eventSource_timers. }
    split; [done|].
    assert (forall s,
              truthy (sessionId (store w2)) = true ->
              ToString engine (sessionId (store w2)) = Return s ->
              sources (world (reconnectSSE engine i w2'))
              = sources (close_eventSource i w2)
                ++ [ {| url := "http://localhost:8000/api/chat/stream/" +:+ s;
                        readyState := CONNECTING;
                        owner := i |} ]) as Htruthy.
    { intros s Hsid Hs.
      destruct (reconnectSSE_opens_one engine i w2'
                  {| url := "http://localhost:8000/api/chat/stream/" +:+ s;
                     readyState := CONNECTING; owner := i |} Hsid)
        as (_ & -> & _).
      - unfold createEventSource, stream_url. simpl. by rewrite Hs.
      - subst w2'. by rewrite close_eventSource_set_timers. }
    assert (sources (close_eventSource i w2')
            = sources (close_eventSource i w2)) as Hsame
      by (subst w2'; by rewrite close_eventSource_set_timers).
    assert (truthy (sessionId (store w2)) = false ->
            sources (world (reconnectSSE engine i w2'))
            = sources (close_eventSource i w2)) as Hfalsy.
    { intros Hsid. by rewrite reconnectSSE_falsy. }
    split; [|split; done].
    intros k src Hk Hsrc.
    assert (sources (close_eventSource i w2) !! k
            = Some (set_readyState CLOSED src)) as Hclosed.
    { by rewrite close_eventSource_lookup, bool_decide_eq_true_2, Hsrc. }
    destruct (truthy (sessionId (store w2))) eqn:Hsid; [|by rewrite Hfalsy].
    destruct (ToString engine (sessionId (store w2))) as [s|e] eqn:Hs.
    + rewrite (Htruthy s) by done. by apply lookup_app_l_Some.
    + rewrite (reconnectSSE_opens_none engine i w2' e);
        [simpl; by rewrite Hsame|done|].
      unfold createEventSource, stream_url. simpl. by rewrite Hs.
Qed.

(** C3, on the code.  The stream of the first session fails, and within
    the two seconds before its timer runs the user clicks New Form, which
    resets the session, and uploads again.  When the timer runs, the chat
    instance it belongs to has been destroyed, yet it makes its reconnect
    attempt: it finds the new session's id and opens a stream for it,
    beside the stream of the instance on the page. *)
Theorem reset_does_not_cancel_reconnect :
  exists w_reset w w',
    run engine initial_world error_then_reset = Some w_reset
    /\ store w_reset = session.initial
    /\ page_chat w_reset = None
    /\ timers w_reset = [mkTimer 2000 0]
    /\ run engine w_reset upload_within_delay = Some w
    /\ clock w = 2000%Z
    /\ page_chat w = Some 1
    /\ step engine w TimerFires = Some w'
    /\ timers w' = []
    /\ sources w'
       = sources w
         ++ [ {| url := "http://localhost:8000/api/chat/stream/s2";
                 readyState := CONNECTING;
                 owner := 0 |} ].
Proof.
  eexists _, _, _. split; [vm_compute; reflexivity|].
  split; [reflexivity|]. split; [reflexivity|]. split; [reflexivity|].
  split; [vm_compute; reflexivity|].
  split; [reflexivity|]. split; [reflexivity|].
  split; [vm_compute; reflexivity|]. split; reflexivity.
Qed.

End Invariants.

(** ** The connectivity flag *)

Section Connectivity.

Variable engine : Engine.

Lemma opens_to_connect_refl w : opens_to_connect w w.
Proof. split; [done|congruence]. Qed.

Lemma opens_to_connect_trans w1 w2 w3 :
  opens_to_connect w1 w2 -> opens_to_connect w2 w3 -> opens_to_connect w1 w3.
Proof.
  intros [Hl1 Hc1] [Hl2 Hc2]. split; [lia|]. intros H1 H3.
  destruct (isConnected (store w2)) eqn:H2.
  - specialize (Hc1 H1 eq_refl). lia.
  - specialize (Hc2 eq_refl H3). lia.
Qed.

(** A callback that constructs no source and does not raise the flag. *)
Lemma opens_to_connect_quiet w w' :
  length (sources w') = length (sources w) ->
  (isConnected (store w') = true -> isConnected (store w) = true) ->
  opens_to_connect w w'.
Proof.
  intros Hl Hc. split; [lia|]. intros H0 H1. rewrite (Hc H1) in H0. done.
Qed.

Lemma opens_to_connect_close_eventSource i w :
  opens_to_connect w (close_eventSource i w).
Proof.
  apply opens_to_connect_quiet.
  - apply close_eventSource_length.
  - by rewrite close_eventSource_store.
Qed.

Lemma opens_to_connect_connectSSE i w :
  opens_to_connect w (world (connectSSE engine i w)).
Proof.
  destruct (connectSSE_cases engine i w)
    as [[_ ->] | [(e & _ & _ & ->) | (es & _ & _ & _ & _ & ->)]];
    try apply opens_to_connect_refl.
  split; simpl; rewrite length_app; simpl; lia.
Qed.

Lemma opens_to_connect_reconnectSSE i w :
  opens_to_connect w (world (reconnectSSE engine i w)).
Proof.
  unfold reconnectSSE. destruct (truthy _).
  - eapply opens_to_connect_trans;
      [apply opens_to_connect_close_eventSource|apply opens_to_connect_connectSSE].
  - apply opens_to_connect_close_eventSource.
Qed.

Lemma opens_to_connect_onmessage i event_data uuid w :
  opens_to_connect w (onmessage engine i event_data uuid w).
Proof.
  destruct (onmessage_cases engine i event_data uuid w)
    as [-> | [[c ->] | [[c ->] | [-> | ->]]]].
  - apply opens_to_connect_refl.
  - by apply opens_to_connect_quiet.
  - by apply opens_to_connect_quiet.
  - apply opens_to_connect_reconnectSSE.
  - eapply opens_to_connect_trans; [|apply opens_to_connect_reconnectSSE].
    by apply opens_to_connect_quiet.
Qed.

Lemma opens_to_connect_effect i w : opens_to_connect w (world (effect engine i w)).
Proof.
  unfold effect. destruct (_ && _);
    [apply opens_to_connect_connectSSE|apply opens_to_connect_refl].
Qed.

Lemma opens_to_connect_render w : opens_to_connect w (world (render engine w)).
Proof.
  unfold render. destruct (hasSession (store w)), (page_chat w) as [j|].
  - apply opens_to_connect_effect.
  - set (w1 := set_page_chat _ _).
    apply (and_then_world (opens_to_connect w)).
    + apply (opens_to_connect_trans w w1); [by apply opens_to_connect_quiet|].
      unfold onMount. destruct (truthy _);
        [apply opens_to_connect_connectSSE|apply opens_to_connect_refl].
    + intros H. eapply opens_to_connect_trans; [done|].
      apply opens_to_connect_effect.
  - eapply opens_to_connect_trans;
      [apply (opens_to_connect_close_eventSource j)|].
    by apply opens_to_connect_quiet.
  - apply opens_to_connect_refl.
Qed.

(** A callback that is quiet, followed by the page's reaction. *)
Lemma opens_to_connect_then_render w w1 :
  opens_to_connect w w1 -> opens_to_connect w (world (render engine w1)).
Proof.
  intros H. eapply opens_to_connect_trans; [done|apply opens_to_connect_render].
Qed.

Lemma opens_to_connect_step w e w' :
  step engine w e = Some w' -> opens_to_connect w w'.
Proof.
  revert w e w'. apply (step_cases engine (fun w _ w' => opens_to_connect w w')).
  - intros w name _. apply opens_to_connect_then_render. unfold handleFile.
    destruct (negb _); by apply opens_to_connect_quiet.
  - intros w n fetched _. apply opens_to_connect_then_render.
    destruct (handleFile_settled_cases engine fetched (set_uploads n w))
      as [(r & x & _ & _ & ->) | [x ->]]; by apply opens_to_connect_quiet.
  - intros w h es _ _. apply opens_to_connect_quiet; [apply length_alter|done].
  - intros w h es event_data uuid _ _.
    apply opens_to_connect_then_render, opens_to_connect_onmessage.
  - intros w h es fatal _ _.
    apply opens_to_connect_then_render, opens_to_connect_quiet; [|done].
    simpl. apply length_alter.
  - intros w dt _. by apply opens_to_connect_quiet.
  - intros w t rest _ _. apply opens_to_connect_then_render.
    eapply opens_to_connect_trans; [|apply opens_to_connect_reconnectSSE].
    by apply opens_to_connect_quiet.
  - intros w i _. apply opens_to_connect_then_render. unfold handleNewSession.
    eapply opens_to_connect_trans;
      [apply (opens_to_connect_close_eventSource i)|].
    by apply opens_to_connect_quiet.
  - intros w i inputValue uuid _. apply opens_to_connect_then_render.
    destruct (handleSubmit_cases engine i inputValue uuid w)
      as [[_ ->] | (_ & _ & _ & [(address & _ & ->) | (e & _ & ->)])];
      by apply opens_to_connect_quiet.
  - intros w i fetched _. apply opens_to_connect_then_render.
    unfold handleSubmit_settled.
    destruct (sendMessage engine fetched); by apply opens_to_connect_quiet.
  - intros w i _ _. apply opens_to_connect_then_render.
    by apply opens_to_connect_quiet.
Qed.

(** C4, as the code has it.  [connectSSE] sets [isConnected] to true as
    soon as the [EventSource] constructor has returned, while the new
    source is still CONNECTING; a turn of the event loop in which
    [isConnected] goes from false to true is one that constructs a source;
    and the transport's open signal changes no field of the store. *)
Theorem isConnected_set_on_construction :
  (forall i w es,
     truthy (sessionId (store w)) = true ->
     createEventSource engine (sessionId (store w)) i = Return es ->
     isConnected (store (world (connectSSE engine i w))) = true
     /\ sources (world (connectSSE engine i w)) = sources w ++ [es]
     /\ readyState es = CONNECTING)
  /\ (forall w e w',
     step engine w e = Some w' ->
     isConnected (store w) = false -> isConnected (store w') = true ->
     length (sources w) < length (sources w'))
  /\ (forall w h w',
     step engine w (StreamOpen h) = Some w' -> store w' = store w).
Proof.
  split; [|split].
  - intros i w es Hsid Hes. rewrite (connectSSE_truthy engine i w es) by done.
    by apply createEventSource_Return in Hes as (address & _ & ->).
  - intros w e w' Hstep.
    by destruct (opens_to_connect_step w e w' Hstep) as [_ H].
  - intros w h w' Hstep. simpl in Hstep.
    destruct (readyState_of h w) as [[]|]; try done. by injection Hstep as <-.
Qed.

End Connectivity.

(** ** Completion and the session *)

Section Completion.

Variable engine : Engine.

Lemma connectSSE_store i w :
  isComplete (store (world (connectSSE engine i w))) = isComplete (store w)
  /\ sessionId (store (world (connectSSE engine i w))) = sessionId (store w).
Proof.
  by destruct (connectSSE_cases engine i w)
    as [[_ ->] | [(e & _ & _ & ->) | (es & _ & _ & _ & _ & ->)]].
Qed.

Lemma reconnectSSE_store i w :
  isComplete (store (world (reconnectSSE engine i w))) = isComplete (store w)
  /\ sessionId (store (world (reconnectSSE engine i w))) = sessionId (store w).
Proof.
  unfold reconnectSSE. destruct (truthy _).
  - destruct (connectSSE_store i (close_eventSource i w)) as [-> ->].
    by rewrite close_eventSource_store.
  - simpl. by rewrite close_eventSource_store.
Qed.

Lemma effect_store i w :
  isComplete (store (world (effect engine i w))) = isComplete (store w)
  /\ sessionId (store (world (effect engine i w))) = sessionId (store w).
Proof. unfold effect. destruct (_ && _); [apply connectSSE_store|done]. Qed.

(** The page's reaction touches neither [isComplete] nor [sessionId]. *)
Lemma render_store w :
  isComplete (store (world (render engine w))) = isComplete (store w)
  /\ sessionId (store (world (render engine w))) = sessionId (store w).
Proof.
  unfold render. destruct (hasSession (store w)), (page_chat w) as [j|].
  - apply effect_store.
  - set (w1 := set_page_chat _ _). set (i := length (chats w)).
    assert (isComplete (store (world (onMount engine i w1))) = isComplete (store w)
            /\ sessionId (store (world (onMount engine i w1)))
               = sessionId (store w)) as Hmount.
    { unfold onMount. destruct (truthy _); [|done].
      by destruct (connectSSE_store i w1) as [-> ->]. }
    apply (and_then_world
             (fun w' => isComplete (store w') = isComplete (store w)
                        /\ sessionId (store w') = sessionId (store w)));
      [done|]. intros _.
    by destruct (effect_store i (world (onMount engine i w1))) as [-> ->].
  - simpl. unfold onDestroy. by rewrite close_eventSource_store.
  - done.
Qed.

Lemma owned_frame w w' :
  sources w' = sources w -> page_chat w' = page_chat w ->
  isComplete (store w') = isComplete (store w) ->
  sessionId (store w') = sessionId (store w) ->
  owned w -> owned w'.
Proof.
  unfold owned. intros -> -> -> Hs.
  by rewrite (hasSession_sessionId _ _ Hs).
Qed.

Lemma owned_close_eventSource i w : owned w -> owned (close_eventSource i w).
Proof.
  intros [Hlive Hc]. split; [|by rewrite close_eventSource_store].
  intros h es. rewrite close_eventSource_lookup.
  assert (page_chat (close_eventSource i w) = page_chat w) as ->.
  { unfold close_eventSource. by destruct (eventSource_of i w). }
  case_bool_decide; [|by apply Hlive].
  destruct (sources w !! h) as [es0|]; [|done]. by intros [= <-].
Qed.

Lemma owned_connectSSE i w :
  page_chat w = Some i -> owned w -> owned (world (connectSSE engine i w)).
Proof.
  intros Hp [Hlive Hc].
  destruct (connectSSE_store i w) as [Hcomplete Hsid].
  destruct (connectSSE_cases engine i w)
    as [[_ Hw] | [(e & _ & _ & Hw) | (new & _ & _ & Ho & _ & Hw)]];
    [by rewrite Hw|by rewrite Hw|].
  split; [|by rewrite Hcomplete, (hasSession_sessionId _ _ Hsid)].
  rewrite Hw. simpl. rewrite Hp.
  intros h es [Hes | [_ Hes]]%lookup_app_Some Hr.
  - rewrite <- Hp. by apply (Hlive h).
  - apply list_lookup_singleton_Some in Hes as [_ <-]. by rewrite Ho.
Qed.

Lemma owned_reconnectSSE i w :
  page_chat w = Some i \/ truthy (sessionId (store w)) = false ->
  owned w -> owned (world (reconnectSSE engine i w)).
Proof.
  intros Hi Hown. unfold reconnectSSE. rewrite close_eventSource_store.
  destruct (truthy (sessionId (store w))) eqn:Ht;
    [|by apply owned_close_eventSource].
  destruct Hi as [Hp|]; [|done].
  apply owned_connectSSE; [|by apply owned_close_eventSource].
  unfold close_eventSource. by destruct (eventSource_of i w).
Qed.

(** Closing the stream of the instance on the page leaves no live source. *)
Lemma owned_close_all j w :
  well_formed w -> owned w -> page_chat w = Some j ->
  forall h es, sources (close_eventSource j w) !! h = Some es ->
    readyState es = CLOSED.
Proof.
  intros Hwf Hown Hp h es Hes.
  destruct (owned_close_eventSource j w Hown) as [Hlive _].
  assert (page_chat (close_eventSource j w) = Some j) as Hp'.
  { unfold close_eventSource. by destruct (eventSource_of j w). }
  assert (readyState es <> CLOSED -> readyState es = CLOSED) as Hgo.
  { intros Hr. apply (close_eventSource_all_closed j w Hwf h es Hes).
    specialize (Hlive h es Hes Hr). congruence. }
  destruct (readyState es); try done; by apply Hgo.
Qed.

Lemma owned_render w : well_formed w -> owned w -> owned (world (render engine w)).
Proof.
  intros Hwf Hown.
  destruct (render_store w) as [Hcomplete Hsid].
  split; [|rewrite Hcomplete, (hasSession_sessionId _ _ Hsid); apply Hown].
  cut (owned (world (render engine w))); [by intros []|]. clear Hcomplete Hsid.
  unfold render.
  destruct (hasSession (store w)) eqn:Hhas, (page_chat w) as [j|] eqn:Hp.
  - unfold effect. destruct (_ && _); [by apply owned_connectSSE|done].
  - set (i := length (chats w)). set (w1 := set_page_chat _ _).
    assert (owned w1) as Hown1.
    { destruct Hown as [Hlive Hc]. split; [|done]. subst w1. simpl.
      intros h es Hes Hr. specialize (Hlive h es Hes Hr). congruence. }
    assert (owned (world (onMount engine i w1))) as Hown2.
    { unfold onMount. destruct (truthy _); [by apply owned_connectSSE|done]. }
    apply (and_then_world owned); [done|]. intros _.
    unfold effect. destruct (_ && _); [|done].
    apply owned_connectSSE; [|done].
    unfold onMount. destruct (truthy _); [|done].
    by destruct (connectSSE_sessionId engine i w1) as (_ & -> & _).
  - split; simpl; unfold onDestroy.
    + intros h es Hes Hr.
      by rewrite (owned_close_all j w Hwf Hown Hp h es Hes) in Hr.
    + rewrite close_eventSource_store. intros Hc.
      destruct Hown as [_ Hok]. rewrite (Hok Hc) in Hhas. done.
  - done.
Qed.

(** A turn of the event loop that is timely keeps every live source with the
    instance on the page. *)
Lemma owned_step w e w' :
  step engine w e = Some w' ->
  timely engine w e -> well_formed w -> settled w -> owned w -> owned w'.
Proof.
  revert w e w'.
  apply (step_cases engine (fun w e w' =>
    timely engine w e -> well_formed w -> settled w -> owned w -> owned w')).
  - intros w name _ _ Hwf _ Hown.
    apply owned_render; [by apply well_formed_handleFile|].
    unfold handleFile. destruct (negb _); by apply (owned_frame w).
  - intros w n fetched _ Htimely Hwf _ Hown.
    apply owned_render.
    { apply well_formed_handleFile_settled. by apply (well_formed_frame w). }
    destruct (handleFile_settled_cases engine fetched (set_uploads n w))
      as [(response & sid & Hup & Hsid & ->) | [x ->]];
      [|by apply (owned_frame w)].
    destruct Hown as [Hlive _]. split; [done|]. intros _.
    specialize (Htimely response Hup). unfold hasSession. simpl.
    by destruct sid.
  - intros w h es Hes Hr _ _ _ [Hlive Hc]. split; [|done]. simpl.
    intros k es'. rewrite list_lookup_alter. case_decide as E; [|by apply Hlive].
    subst k. rewrite Hes. intros [= <-] _. simpl.
    apply (Hlive h es Hes). by rewrite Hr.
  - intros w h es event_data uuid Hes Hr _ Hwf Hset Hown.
    pose proof (wf_owner w Hwf h es Hes) as Hi.
    apply owned_render; [by apply well_formed_onmessage|].
    assert (page_chat w = Some (owner es)) as Hp.
    { destruct Hown as [Hlive _]. apply (Hlive h es Hes). by rewrite Hr. }
    destruct (onmessage_cases engine (owner es) event_data uuid w)
      as [-> | [[c ->] | [[c ->] | [-> | ->]]]];
      [done|by apply (owned_frame w)|by apply (owned_frame w)| |].
    + apply owned_reconnectSSE; auto.
    + apply owned_reconnectSSE; [by left|].
      destruct Hown as [Hlive _]. split; [done|]. intros _. simpl.
      unfold settled in Hset. rewrite Hp in Hset. apply Hset.
  - intros w h es fatal Hes Hr _ Hwf _ [Hlive Hc].
    apply owned_render.
    { apply well_formed_onerror.
      - simpl. apply (wf_owner w Hwf h es Hes).
      - apply well_formed_set_readyState; [|done]. right. eauto. }
    split; [|done]. simpl.
    intros k es'. rewrite list_lookup_alter. case_decide as E; [|by apply Hlive].
    subst k. rewrite Hes. intros [= <-] _. simpl. by apply (Hlive h es Hes).
  - intros w dt _ _ _ _ Hown. by apply (owned_frame w).
  - intros w t rest Ht _ Htimely Hwf _ Hown.
    simpl in Htimely. rewrite Ht in Htimely.
    pose proof (well_formed_pop_timer w t rest Ht Hwf) as [Hi Hwf1].
    apply owned_render; [by apply well_formed_reconnectSSE|].
    apply owned_reconnectSSE; [done|]. by apply (owned_frame w).
  - intros w i Hp _ Hwf _ Hown.
    apply owned_render; [by apply well_formed_handleNewSession|].
    unfold handleNewSession. split; simpl; [|done].
    intros h es Hes Hr.
    by rewrite (owned_close_all i w Hwf Hown Hp h es Hes) in Hr.
  - intros w i inputValue uuid _ _ Hwf _ Hown.
    apply owned_render; [by apply well_formed_handleSubmit|].
    destruct (handleSubmit_cases engine i inputValue uuid w)
      as [[_ ->] | (_ & _ & _ & [(address & _ & ->) | (e & _ & ->)])];
      by apply (owned_frame w).
  - intros w i fetched _ _ Hwf _ Hown.
    apply owned_render; [by apply well_formed_handleSubmit_settled|].
    unfold handleSubmit_settled.
    destruct (sendMessage engine fetched); by apply (owned_frame w).
  - intros w i _ _ _ Hwf _ Hown.
    apply owned_render; [by apply well_formed_update_store|].
    by apply (owned_frame w).
Qed.

Lemma owned_run es : forall w w',
  run engine w es = Some w' -> all_timely engine w es ->
  well_formed w /\ settled w /\ owned w -> owned w'.
Proof.
  induction es as [|e es IH]; intros w w' Hrun Htimely (Hwf & Hset & Hown);
    simpl in Hrun.
  - by injection Hrun as <-.
  - destruct Htimely as [He Hes].
    destruct (step engine w e) as [w1|] eqn:Hstep; [|done]. simpl in Hrun.
    apply (IH w1 w' Hrun Hes). split; [|split].
    + by eapply well_formed_step.
    + by eapply settled_step.
    + by eapply owned_step.
Qed.

(** Where C2 does hold: in every run in which no reconnect timer outlives
    its session, [isComplete] is never true while [sessionId] is [null]. *)
Lemma complete_implies_session_when_timely es w :
  run engine initial_world es = Some w ->
  all_timely engine initial_world es ->
  isComplete (store w) = true -> sessionId (store w) <> JNull.
Proof.
  intros Hrun Htimely Hc.
  assert (owned w) as [_ Hok].
  { apply (owned_run es initial_world w Hrun Htimely).
    split; [|split; [done|by split]].
    split; simpl; try done. intros t Ht. by apply elem_of_nil in Ht. }
  specialize (Hok Hc). unfold hasSession in Hok. intros Hnull.
  by rewrite Hnull in Hok.
Qed.

(** An ordinary run is timely, and ends complete with its session. *)
Example timely_run_completes :
  all_timely engine initial_world
    (stream_opened ++ [StreamMessage 0 (done_event true) "6f1c"])
  /\ exists w,
       run engine initial_world
         (stream_opened ++ [StreamMessage 0 (done_event true) "6f1c"]) = Some w
       /\ isComplete (store w) = true
       /\ sessionId (store w) = JStr "abc123".
Proof.
  split.
  - vm_compute. repeat split. intros response [= <-]. discriminate.
  - eexists. split; [vm_compute; reflexivity|]. split; reflexivity.
Qed.

(** C2, on the code.  The events of [stale_timer_trace] can all be
  delivered, and they leave the store with [isComplete] true while
  [sessionId] is [null]. *)
Theorem stale_timer_completes_without_session :
exists w,
  run engine initial_world stale_timer_trace = Some w
  /\ isComplete (store w) = true
  /\ sessionId (store w) = JNull.
Proof. eexists. split; [vm_compute; reflexivity|]. split; reflexivity. Qed.


End Completion.

(** ** The statements at concrete inputs *)

Lemma addMessage_appends_in_call_order_witness :
  messages greeted !! 0%nat = Some (mkMessage "0a1b" assistant (JStr "Hello!") 1000)
  /\ messages (addMessages two_calls greeted) !! 0%nat
     = Some (mkMessage "0a1b" assistant (JStr "Hello!") 1000)
  /\ length (messages (addMessages two_calls greeted)) = 3%nat.
Proof.
  destruct (addMessage_appends_in_call_order two_calls greeted)
    as (_ & Hlen & Hkeep & _).
  split; [reflexivity|]. split; [by apply Hkeep|exact Hlen].
Defined.

Lemma setters_change_only_their_fields_witness :
  messages (mutate Reset greeted) <> messages greeted
  /\ ((exists uuid now r c, Reset = AddMessage uuid now r c) \/ Reset = Reset).
Proof.
  destruct (setters_change_only_their_fields greeted) as (_ & _ & _ & _ & _ & H).
  assert (messages (mutate Reset greeted) <> messages greeted) as Hne
    by discriminate.
  split; [exact Hne|exact (H Reset Hne)].
Defined.

Lemma unhandled_payload_changes_nothing_witness :
  unhandled heartbeat
  /\ onmessage v8 0 heartbeat "6f1c" chatting = chatting
  /\ store (onmessage v8 0 heartbeat "6f1c" chatting) = store chatting.
Proof.
  assert (unhandled heartbeat) as H.
  { intros type [= <-]. repeat split; discriminate. }
  split; [exact H|].
  exact (unhandled_payload_changes_nothing v8 0 heartbeat "6f1c" chatting H).
Defined.

Lemma done_event_closes_and_reopens_witness :
  reachable v8 chatting
  /\ sources chatting !! 0%nat
     = Some {| url := "http://localhost:8000/api/chat/stream/abc123";
               readyState := OPEN; owner := 0 |}
  /\ truthy (sessionId (store chatting)) = true
  /\ ToString v8 (sessionId (store chatting)) = Return "abc123"
  /\ step v8 chatting (StreamMessage 0 (done_event true) "6f1c") = Some after_done
  /\ isComplete (store after_done) = true
  /\ sources after_done
     = [ {| url := "http://localhost:8000/api/chat/stream/abc123";
            readyState := CLOSED; owner := 0 |};
         {| url := "http://localhost:8000/api/chat/stream/abc123";
            readyState := CONNECTING; owner := 0 |} ].
Proof.
  assert (reachable v8 chatting) as Hreach
    by (exists stream_opened; vm_compute; reflexivity).
  assert (step v8 chatting (StreamMessage 0 (done_event true) "6f1c")
          = Some after_done) as Hcomputed by (vm_compute; reflexivity).
  destruct (done_event_closes_and_reopens v8 chatting 0 _ true "6f1c" "abc123"
              Hreach eq_refl eq_refl eq_refl eq_refl)
    as (w' & Hstep & Hc & _ & _ & _ & Hsrc & _).
  rewrite Hcomputed in Hstep. injection Hstep as <-.
  split; [exact Hreach|]. split; [reflexivity|]. split; [reflexivity|].
  split; [reflexivity|]. split; [exact Hcomputed|]. split; [exact Hc|exact Hsrc].
Defined.

(** The timer of C3 in an ordinary run: it cannot run at once; two seconds
    later it reconnects; and it opens nothing when the session has been
    reset and no new one has begun. *)
Example transport_error_schedules_reconnect_example :
  step v8 chatting (StreamError 0 false) = Some after_error
  /\ isConnected (store after_error) = false
  /\ length (sources after_error) = 1%nat
  /\ timers after_error = [mkTimer 2000 0]
  /\ step v8 after_error TimerFires = None
  /\ (exists w3, step v8 after_delay TimerFires = Some w3
                 /\ readyState_of 0 w3 = Some CLOSED
                 /\ length (sources w3) = 2%nat)
  /\ (exists w3, step v8 after_reset_and_delay TimerFires = Some w3
                 /\ length (sources w3) = 1%nat).
Proof.
  assert (reachable v8 chatting) as Hreach
    by (exists stream_opened; vm_compute; reflexivity).
  assert (step v8 chatting (StreamError 0 false) = Some after_error) as Hstep
    by (vm_compute; reflexivity).
  destruct (transport_error_schedules_reconnect v8 chatting after_error 0 false
              Hreach Hstep) as (i & t & Ho & Ht & Hc & Htimers & Hlen & Hlater).
  assert (i = 0%nat) as -> by (vm_compute in Ho; congruence).
  assert (t = mkTimer 2000 0) as -> by exact Ht.
  split; [exact Hstep|]. split; [exact Hc|].
  split; [exact Hlen|]. split; [exact Htimers|]. split; [|split].
  - destruct (Hlater [] after_error [] eq_refl eq_refl) as [Hearly _].
    apply Hearly. reflexivity.
  - destruct (Hlater [Advance 2000] after_delay [] eq_refl eq_refl)
      as [_ Hdue].
    destruct Hdue as (w3 & Hfire & _ & Hclosed & Hopen & _); [discriminate|].
    exists w3. split; [exact Hfire|]. split.
    + unfold readyState_of.
      by rewrite (Hclosed 0%nat _ eq_refl eq_refl).
    + by rewrite (Hopen "abc123" eq_refl eq_refl).
  - destruct (Hlater [NewFormClicked; Advance 2000] after_reset_and_delay []
                eq_refl eq_refl) as [_ Hdue].
    destruct Hdue as (w3 & Hfire & _ & _ & _ & Hnone); [discriminate|].
    exists w3. split; [exact Hfire|]. by rewrite (Hnone eq_refl).
Qed.

Lemma isConnected_set_on_construction_witness :
  step v8 uploading (UploadSettled (upload_resolved "abc123")) = Some connecting
  /\ isConnected (store uploading) = false
  /\ isConnected (store connecting) = true
  /\ length (sources uploading) < length (sources connecting).
Proof.
  destruct (isConnected_set_on_construction v8) as (_ & H & _).
  assert (step v8 uploading (UploadSettled (upload_resolved "abc123"))
          = Some connecting) as Hstep by (vm_compute; reflexivity).
  split; [exact Hstep|]. split; [reflexivity|]. split; [reflexivity|].
  exact (H uploading _ connecting Hstep eq_refl eq_refl).
Defined.

Lemma unguarded_json_surfaces_parser_error_witness :
  ok bad_gateway = false
  /\ uploadDocument v8 (Return bad_gateway)
     = Throw (mkExn SyntaxError "Unexpected token < in JSON at position 0")
  /\ spec_error_message "Upload failed" bad_gateway = "Upload failed"
  /\ (forall name,
        uploadDocument v8 (Return bad_gateway)
        <> Throw (mkExn name (spec_error_message "Upload failed" bad_gateway)))
  /\ sendMessage v8 (Return bad_gateway)
     = Throw (mkExn SyntaxError "Unexpected token < in JSON at position 0")
  /\ getStatus v8 (Return bad_gateway)
     = Throw (mkExn SyntaxError "Unexpected token < in JSON at position 0").
Proof.
  destruct (unguarded_json_surfaces_parser_error v8 bad_gateway
              (mkExn SyntaxError "Unexpected token < in JSON at position 0")
              eq_refl eq_refl) as ((Hu & Hspec) & (Hs & _) & (Hg & _)).
  split; [reflexivity|]. split; [exact Hu|]. split; [exact Hspec|].
  split; [|split; [exact Hs|exact Hg]].
  intros name. rewrite Hu, Hspec. discriminate.
Defined.

Lemma handleFile_checks_extension_witness :
  endsWith "notes.txt" ".docx" = false
  /\ error (store (handleFile "notes.txt" initial_world))
     = JStr "Please upload a .docx file"
  /\ requests (handleFile "notes.txt" initial_world) = [].
Proof.
  destruct (handleFile_checks_extension v8 "notes.txt" initial_world) as [H _].
  destruct (H eq_refl) as (_ & Herr & Hreq & _).
  split; [reflexivity|]. split; [exact Herr|exact Hreq].
Defined.

(** C1, as stated, fails: when a second upload has resolved since the
    stream was opened, the handler of "done" closes a stream of one session
    and opens the new one for another. *)
Lemma done_event_reopens_for_another_session :
  exists w w',
    run v8 initial_world two_uploads = Some w
    /\ sources w
       = [ {| url := "http://localhost:8000/api/chat/stream/s1";
              readyState := OPEN; owner := 0 |} ]
    /\ sessionId (store w) = JStr "s2"
    /\ step v8 w (StreamMessage 0 (done_event true) "6f1c") = Some w'
    /\ sources w'
       = [ {| url := "http://localhost:8000/api/chat/stream/s1";
              readyState := CLOSED; owner := 0 |};
           {| url := "http://localhost:8000/api/chat/stream/s2";
              readyState := CONNECTING; owner := 0 |} ].
Proof.
  eexists _, _. split; [vm_compute; reflexivity|].
  split; [reflexivity|]. split; [reflexivity|].
  split; [vm_compute; reflexivity|reflexivity].
Qed.

(** C4, as stated, fails: after the upload has resolved and before the
    transport has reported anything, [isConnected] is already true while the
    only source is still CONNECTING. *)
Lemma connected_before_open :
  exists w,
    run v8 initial_world first_connection = Some w
    /\ (forall h, StreamOpen h ∉ first_connection)
    /\ isConnected (store w) = true
    /\ (forall h r, readyState_of h w = Some r -> r = CONNECTING).
Proof.
  eexists. split; [vm_compute; reflexivity|]. split; [|split; [reflexivity|]].
  - intros h Hin. unfold first_connection in Hin.
    apply elem_of_cons in Hin as [Hin|Hin]; [discriminate|].
    apply elem_of_cons in Hin as [Hin|Hin]; [discriminate|].
    by apply elem_of_nil in Hin.
  - intros [|[|h]] r; simpl; [by intros [= <-]|done|done].
Qed.

(** * More of the client *)

(** ** Strings: [trim] and [endsWith] *)

Lemma append_cons a p s : String a p +:+ s = String a (p +:+ s).
Proof. reflexivity. Qed.

Lemma trimStart_skip s :
  trimStart s
  = match skip_white_space s with Some rest => trimStart rest | None => s end.
Proof.
  destruct s as [|a [|b [|c s]]]; simpl; try done.
  - by destruct (is_white_space a).
  - destruct (is_white_space a); [done|]. by destruct (is_white_space2 a b).
  - destruct (is_white_space a); [done|].
    destruct (is_white_space2 a b); [done|]. by destruct (is_white_space3 a b c).
Qed.

Lemma all_white_space_skip s :
  all_white_space s
  = match s, skip_white_space s with
    | EmptyString, _ => true
    | _, Some rest => all_white_space rest
    | _, None => false
    end.
Proof.
  destruct s as [|a [|b [|c s]]]; simpl; try done.
  - by destruct (is_white_space a).
  - destruct (is_white_space a); [done|]. by destruct (is_white_space2 a b).
  - destruct (is_white_space a); [done|].
    destruct (is_white_space2 a b); [done|]. by destruct (is_white_space3 a b c).
Qed.

Lemma all_white_space_skipped s rest :
  skip_white_space s = Some rest -> all_white_space s = all_white_space rest.
Proof.
  intros H. rewrite all_white_space_skip. destruct s as [|a s]; [done|].
  by rewrite H.
Qed.

(** A white space character is one to three bytes at the head. *)
Lemma skip_white_space_Some s rest :
  skip_white_space s = Some rest ->
  exists p, s = p +:+ rest /\ (0 < String.length p)%nat
            /\ forall t, skip_white_space (p +:+ t) = Some t.
Proof.
  destruct s as [|a [|b [|c s]]]; simpl; try done.
  - destruct (is_white_space a) eqn:Ea; [|done]. intros [= <-].
    exists (String a EmptyString). split; [done|]. split; [simpl; lia|].
    intros t. simpl. by rewrite Ea.
  - destruct (is_white_space a) eqn:Ea.
    + intros [= <-]. exists (String a EmptyString). split; [done|].
      split; [simpl; lia|]. intros t. simpl. by rewrite Ea.
    + destruct (is_white_space2 a b) eqn:Eb; [|done]. intros [= <-].
      exists (String a (String b EmptyString)). split; [done|].
      split; [simpl; lia|]. intros t. simpl. by rewrite Ea, Eb.
  - destruct (is_white_space a) eqn:Ea.
    + intros [= <-]. exists (String a EmptyString). split; [done|].
      split; [simpl; lia|]. intros t. simpl. by rewrite Ea.
    + destruct (is_white_space2 a b) eqn:Eb.
      * intros [= <-]. exists (String a (String b EmptyString)). split; [done|].
        split; [simpl; lia|]. intros t. simpl. by rewrite Ea, Eb.
      * destruct (is_white_space3 a b c) eqn:Ec; [|done]. intros [= <-].
        exists (String a (String b (String c EmptyString))). split; [done|].
        split; [simpl; lia|]. intros t. simpl. by rewrite Ea, Eb, Ec.
Qed.

Lemma length_append p s :
  String.length (p +:+ s) = (String.length p + String.length s)%nat.
Proof.
  induction p as [|a p IH]; [done|]. rewrite append_cons. simpl. by rewrite IH.
Qed.

Lemma skip_white_space_shorter s rest :
  skip_white_space s = Some rest -> (String.length rest < String.length s)%nat.
Proof.
  intros (p & -> & Hp & _)%skip_white_space_Some. rewrite length_append. lia.
Qed.

Lemma append_assoc (p q r : string) : (p +:+ q) +:+ r = p +:+ (q +:+ r).
Proof. induction p as [|a p IH]; [done|]. rewrite !append_cons. by rewrite IH. Qed.

Lemma skip_white_space_app s rest t :
  skip_white_space s = Some rest -> skip_white_space (s +:+ t) = Some (rest +:+ t).
Proof.
  intros (p & -> & _ & Hp)%skip_white_space_Some.
  by rewrite append_assoc, Hp.
Qed.

(** Induction on strings, one white space character or one byte at a time. *)
Lemma string_length_ind (P : string -> Prop) :
  (forall s, (forall r, (String.length r < String.length s)%nat -> P r) -> P s) ->
  forall s, P s.
Proof.
  intros H s. remember (String.length s) as n eqn:Hn.
  revert s Hn. induction (lt_wf n) as [n _ IH]. intros s ->.
  apply H. intros r Hr. by apply (IH (String.length r)).
Qed.

Lemma trimStart_starts s : starts_with_white_space (trimStart s) = false.
Proof.
  unfold starts_with_white_space. apply bool_decide_eq_false_2.
  induction s as [s IH] using string_length_ind.
  rewrite trimStart_skip.
  destruct (skip_white_space s) as [rest|] eqn:E.
  - apply IH. by apply skip_white_space_shorter.
  - rewrite E. by intros [? ?].
Qed.

Lemma trimStart_fixed s : starts_with_white_space s = false -> trimStart s = s.
Proof.
  unfold starts_with_white_space. intros H%bool_decide_eq_false_1.
  rewrite trimStart_skip. destruct (skip_white_space s); [|done].
  destruct H. eauto.
Qed.

Lemma trimStart_empty s :
  trimStart s = EmptyString <-> all_white_space s = true.
Proof.
  induction s as [s IH] using string_length_ind.
  destruct s as [|a s]; [done|].
  rewrite trimStart_skip, all_white_space_skip.
  destruct (skip_white_space (String a s)) as [rest|] eqn:E; [|done].
  apply IH. by apply skip_white_space_shorter.
Qed.

Lemma all_white_space_trimStart s :
  all_white_space (trimStart s) = all_white_space s.
Proof.
  induction s as [s IH] using string_length_ind.
  destruct s as [|a s]; [done|].
  rewrite trimStart_skip, (all_white_space_skip (String a s)).
  destruct (skip_white_space (String a s)) as [rest|] eqn:E.
  - apply IH. by apply skip_white_space_shorter.
  - by rewrite all_white_space_skip, E.
Qed.

Lemma all_white_space_app s t :
  all_white_space s = true -> all_white_space t = true ->
  all_white_space (s +:+ t) = true.
Proof.
  induction s as [s IH] using string_length_ind. intros Hs Ht.
  destruct s as [|a s]; [done|].
  rewrite all_white_space_skip in Hs.
  destruct (skip_white_space (String a s)) as [rest|] eqn:E; [|done].
  pose proof (skip_white_space_app _ rest t E) as Eapp.
  rewrite append_cons in *. rewrite all_white_space_skip, Eapp.
  apply IH; [by apply skip_white_space_shorter|done|done].
Qed.

Lemma trimEnd_empty s :
  trimEnd s = EmptyString <-> all_white_space s = true.
Proof.
  destruct s as [|a s]; [done|]. cbn [trimEnd].
  by destruct (all_white_space (String a s)).
Qed.

(** What [trimEnd] cuts off is white space. *)
Lemma trimEnd_cut s :
  exists rest, s = trimEnd s +:+ rest /\ all_white_space rest = true.
Proof.
  induction s as [|a s (rest & IH & Hrest)]; [by exists EmptyString|].
  cbn [trimEnd]. destruct (all_white_space (String a s)) eqn:E.
  - by exists (String a s).
  - exists rest. split; [|done]. rewrite append_cons. by rewrite <- IH.
Qed.

Lemma all_white_space_trimEnd a s :
  all_white_space (String a s) = false ->
  all_white_space (String a (trimEnd s)) = false.
Proof.
  intros H. destruct (all_white_space (String a (trimEnd s))) eqn:E; [|done].
  destruct (trimEnd_cut s) as (rest & Hs & Hrest).
  rewrite Hs, <- append_cons, all_white_space_app in H; done.
Qed.

Lemma trimEnd_idempotent s : trimEnd (trimEnd s) = trimEnd s.
Proof.
  induction s as [|a s IH]; [done|]. cbn [trimEnd].
  destruct (all_white_space (String a s)) eqn:E; [done|].
  cbn [trimEnd]. by rewrite (all_white_space_trimEnd a s E), IH.
Qed.

Lemma trimEnd_starts s :
  starts_with_white_space s = false ->
  starts_with_white_space (trimEnd s) = false.
Proof.
  unfold starts_with_white_space.
  intros H%bool_decide_eq_false_1. apply bool_decide_eq_false_2.
  intros [q Hq]. destruct H.
  destruct (trimEnd_cut s) as (rest & Hs & _).
  rewrite Hs. rewrite (skip_white_space_app _ q rest Hq). eauto.
Qed.

Lemma trimEnd_ends s : ends_with_white_space (trimEnd s) = false.
Proof.
  induction s as [|a s IH]; [done|]. cbn [trimEnd].
  destruct (all_white_space (String a s)) eqn:E; [done|].
  cbn [ends_with_white_space]. by rewrite (all_white_space_trimEnd a s E), IH.
Qed.

Lemma trimEnd_fixed s : ends_with_white_space s = false -> trimEnd s = s.
Proof.
  induction s as [|a s IH]; [done|]. cbn [trimEnd ends_with_white_space].
  intros [-> H]%orb_false_elim. by rewrite IH.
Qed.

Lemma trim_idempotent s : trim (trim s) = trim s.
Proof.
  unfold trim.
  rewrite (trimStart_fixed (trimEnd (trimStart s))).
  - apply trimEnd_idempotent.
  - apply trimEnd_starts, trimStart_starts.
Qed.

Lemma trim_empty s : trim s = EmptyString <-> all_white_space s = true.
Proof.
  unfold trim. rewrite trimEnd_empty. by rewrite all_white_space_trimStart.
Qed.

(** The strings [trim] leaves as they are: those that neither start nor end
    with white space. *)
Lemma trim_fixed s :
  trim s = s
  <-> starts_with_white_space s = false /\ ends_with_white_space s = false.
Proof.
  unfold trim. split.
  - intros H. split; rewrite <- H.
    + apply trimEnd_starts, trimStart_starts.
    + apply trimEnd_ends.
  - intros [Hs He]. rewrite (trimStart_fixed s Hs). by apply trimEnd_fixed.
Qed.

(** [trim] takes white space off both ends and nothing else. *)
Lemma trim_cut s :
  exists before after,
    s = before +:+ trim s +:+ after
    /\ all_white_space before = true /\ all_white_space after = true.
Proof.
  assert (exists before, s = before +:+ trimStart s
                         /\ all_white_space before = true) as (before & Hs & Hb).
  { induction s as [s IH] using string_length_ind.
    rewrite trimStart_skip.
    destruct (skip_white_space s) as [rest|] eqn:E; [|by exists EmptyString].
    destruct (IH rest) as (before & Hrest & Hb);
      [by apply skip_white_space_shorter|].
    pose proof E as (p & -> & Hp & Hskip)%skip_white_space_Some.
    exists (p +:+ before). split.
    - rewrite append_assoc. by rewrite <- Hrest.
    - by rewrite (all_white_space_skipped _ before (Hskip before)). }
  destruct (trimEnd_cut (trimStart s)) as (after & Ht & Ha).
  exists before, after. unfold trim. by rewrite <- Ht.
Qed.

Example trim_examples :
  trim "  Jane Doe " = "Jane Doe"
  /\ trim padded_name = "Jane"
  /\ trim no_break_spaces = EmptyString
  /\ trim ("a" +:+ no_break_spaces +:+ "b") = "a" +:+ no_break_spaces +:+ "b".
Proof. repeat split. Qed.

Lemma substring_all s : String.substring 0 (String.length s) s = s.
Proof. induction s as [|a s IH]; simpl; [done|]. by rewrite IH. Qed.

Lemma substring_after_prefix p s :
  String.substring (String.length p) (String.length s) (p +:+ s) = s.
Proof.
  induction p as [|a p IH]; [apply substring_all|].
  rewrite append_cons. simpl. exact IH.
Qed.

Lemma substring_split k : forall s,
  (k <= String.length s)%nat ->
  String.substring 0 k s +:+ String.substring k (String.length s - k) s = s.
Proof.
  induction k as [|k IH]; intros s Hk.
  - rewrite Nat.sub_0_r, substring_all. by destruct s.
  - destruct s as [|a s]; simpl in *; [lia|].
    rewrite append_cons. f_equal. apply IH. lia.
Qed.

(** [s.endsWith(suffix)] holds exactly of the strings that are something
    followed by [suffix]. *)
Lemma endsWith_spec s suffix :
  endsWith s suffix = true <-> exists p, s = p +:+ suffix.
Proof.
  unfold endsWith. split.
  - intros [Hle Heq]%andb_prop. apply Nat.leb_le in Hle.
    apply String.eqb_eq in Heq.
    exists (String.substring 0 (String.length s - String.length suffix) s).
    pose proof (substring_split (String.length s - String.length suffix) s
                  ltac:(lia)) as Hsplit.
    replace (String.length s - (String.length s - String.length suffix))%nat
      with (String.length suffix) in Hsplit by lia.
    by rewrite Heq in Hsplit.
  - intros [p ->]. rewrite length_append. apply andb_true_intro. split.
    + apply Nat.leb_le. lia.
    + apply String.eqb_eq.
      replace (String.length p + String.length suffix - String.length suffix)%nat
        with (String.length p) by lia.
      apply substring_after_prefix.
Qed.

(** ** What opening and closing streams leaves alone *)

Section Frames.

Variable engine : Engine.

Lemma same_but_connected_refl s : same_but_connected s s.
Proof. by repeat split. Qed.

Lemma same_but_connected_trans s1 s2 s3 :
  same_but_connected s1 s2 -> same_but_connected s2 s3 ->
  same_but_connected s1 s3.
Proof.
  intros (H1 & H2 & H3 & H4 & H5) (K1 & K2 & K3 & K4 & K5).
  repeat split; congruence.
Qed.

Lemma same_logs_refl w : same_logs w w.
Proof. by repeat split. Qed.

Lemma same_logs_trans w1 w2 w3 :
  same_logs w1 w2 -> same_logs w2 w3 -> same_logs w1 w3.
Proof.
  intros (H1 & H2 & H3 & H4) (K1 & K2 & K3 & K4). repeat split; congruence.
Qed.

Lemma close_eventSource_same i w :
  same_but_connected (store w) (store (close_eventSource i w))
  /\ same_logs w (close_eventSource i w).
Proof. unfold close_eventSource. by destruct (eventSource_of i w). Qed.

Lemma connectSSE_same i w :
  same_but_connected (store w) (store (world (connectSSE engine i w)))
  /\ same_logs w (world (connectSSE engine i w)).
Proof. by connectSSE_outcomes engine i w. Qed.

Lemma reconnectSSE_same i w :
  same_but_connected (store w) (store (world (reconnectSSE engine i w)))
  /\ same_logs w (world (reconnectSSE engine i w)).
Proof.
  unfold reconnectSSE.
  destruct (close_eventSource_same i w) as [Hs Hl].
  destruct (truthy _); [|done].
  destruct (connectSSE_same i (close_eventSource i w)) as [Hs' Hl'].
  split; [by eapply same_but_connected_trans|by eapply same_logs_trans].
Qed.

Lemma effect_same i w :
  same_but_connected (store w) (store (world (effect engine i w)))
  /\ same_logs w (world (effect engine i w)).
Proof.
  unfold effect. destruct (_ && _); [apply connectSSE_same|done].
Qed.

(** The page's reaction changes no field of the store but [isConnected],
    and neither the timers, the requests, the pending uploads nor the
    clock. *)
Lemma render_same w :
  same_but_connected (store w) (store (world (render engine w)))
  /\ same_logs w (world (render engine w)).
Proof.
  unfold render. destruct (hasSession (store w)), (page_chat w) as [j|].
  - apply effect_same.
  - set (i := length (chats w)). set (w1 := set_page_chat _ _).
    assert (same_but_connected (store w) (store (world (onMount engine i w1)))
            /\ same_logs w (world (onMount engine i w1))) as [Hs Hl].
    { unfold onMount. destruct (truthy _); [|done]. apply (connectSSE_same i w1). }
    apply (and_then_world
             (fun w' => same_but_connected (store w) (store w') /\ same_logs w w'));
      [done|]. intros _.
    destruct (effect_same i (world (onMount engine i w1))) as [Hs' Hl'].
    split; [by eapply same_but_connected_trans|by eapply same_logs_trans].
  - unfold onDestroy. destruct (close_eventSource_same j w) as [Hs Hl].
    done.
  - done.
Qed.

(** Induction over the runs from the initial world, with the invariants of
    the event loop at hand. *)
Lemma reachable_ind (P : World -> Prop) :
  P initial_world ->
  (forall w e w',
     well_formed w -> settled w -> P w ->
     step engine w e = Some w' -> P w') ->
  forall w, reachable engine w -> P w.
Proof.
  intros Hinit Hstep w [es Hrun].
  assert (forall es w0 w1,
            run engine w0 es = Some w1 ->
            well_formed w0 /\ settled w0 /\ P w0 -> P w1) as Hgen.
  { clear es Hrun. induction es as [|e es IH]; intros w0 w1 Hrun (Hwf & Hset & HP);
      simpl in Hrun.
    - by injection Hrun as <-.
    - destruct (step engine w0 e) as [w0'|] eqn:He; [|done]. simpl in Hrun.
      apply (IH w0' w1 Hrun). split; [|split].
      + by eapply well_formed_step.
      + by eapply settled_step.
      + by eapply Hstep. }
  apply (Hgen es initial_world w Hrun). split; [|split; [done|done]].
  split; simpl; try done. intros t Ht. by apply elem_of_nil in Ht.
Qed.

(** In a settled world, a callback that leaves the session id, the page and
    the instances alone needs no reaction from the page. *)
Lemma render_nothing_to_do w w1 :
  settled w ->
  page_chat w1 = page_chat w -> sessionId (store w1) = sessionId (store w) ->
  chats w1 = chats w -> world (render engine w1) = w1.
Proof. intros Hset Hp Hs Hc. apply settled_render. by apply (settled_frame w). Qed.

End Frames.

(** ** Which events change which field of the store *)

Section Attribution.

Variable engine : Engine.

(** What the store holds after [onmessage], up to [isConnected]. *)
Lemma onmessage_store i event_data uuid w :
  let s' := store (onmessage engine i event_data uuid w) in
  same_but_connected (store w) s'
  \/ (exists c, s' = session.addMessage uuid (clock w) assistant c (store w)
                /\ truthy c = true)
  \/ (exists c, s' = session.setError c (store w))
  \/ same_but_connected (session.setComplete true (store w)) s'.
Proof.
  unfold onmessage. destruct event_data as [data|e]; simpl; [|by left].
  destruct (prop engine data "type") as [type|]; simpl; [|by left].
  destruct (prop engine data "content") as [content|]; simpl; [|by left].
  destruct (strict_eq_str type "message" && truthy content) eqn:Em.
  { apply andb_prop in Em as [_ Ht]. right. left. by exists content. }
  destruct (strict_eq_str type "done").
  - destruct (prop engine data "is_complete") as [c|]; simpl; [|by left].
    destruct (truthy c).
    + right. right. right.
      apply (reconnectSSE_same engine i (update_store (session.setComplete true) w)).
    + left. apply (reconnectSSE_same engine i w).
  - destruct (strict_eq_str type "error"); [|by left].
    right. right. left. by exists content.
Qed.

Ltac through_render :=
  match goal with
  | |- context [store (world (render engine ?W))] =>
      let H := fresh "Hrender" in
      destruct (render_same engine W) as [(? & ? & ? & ? & ?) _]
  end.

(** X1.  [isComplete] is monotonic within a session: the only event that
    raises it is a stream message, and the only event that lowers it is a
    click on New Form. *)
Theorem isComplete_changes_only_by_stream_or_reset (w w' : World) (e : Event) :
  step engine w e = Some w' ->
  isComplete (store w') = isComplete (store w)
  \/ (isComplete (store w') = true
      /\ exists h event_data uuid, e = StreamMessage h event_data uuid)
  \/ (isComplete (store w') = false /\ e = NewFormClicked).
Proof.
  revert w e w'. apply (step_cases engine (fun w e w' =>
    isComplete (store w') = isComplete (store w)
    \/ (isComplete (store w') = true
        /\ exists h event_data uuid, e = StreamMessage h event_data uuid)
    \/ (isComplete (store w') = false /\ e = NewFormClicked))).
  - intros w name _. left. through_render. rewrite H1.
    unfold handleFile. by destruct (negb _).
  - intros w n fetched _. left. through_render. rewrite H1.
    by destruct (handleFile_settled_cases engine fetched (set_uploads n w))
      as [(r & x & _ & _ & ->) | [x ->]].
  - intros w h es _ _. by left.
  - intros w h es event_data uuid _ _. through_render. rewrite H1.
    destruct (onmessage_store (owner es) event_data uuid w)
      as [(_ & _ & -> & _) | [(c & -> & _) | [(c & ->) | (_ & _ & -> & _)]]];
      [by left|by left|by left|].
    right. left. split; [done|eauto].
  - intros w h es fatal _ _. left. by through_render.
  - intros w dt _. by left.
  - intros w t rest _ _. left. through_render. rewrite H1.
    by destruct (reconnectSSE_same engine (timer_owner t) (set_timers rest w))
      as [(_ & _ & -> & _) _].
  - intros w i _. right. right. split; [|done]. through_render. by rewrite H1.
  - intros w i inputValue uuid _. left. through_render. rewrite H1.
    by destruct (handleSubmit_cases engine i inputValue uuid w)
      as [[_ ->] | (_ & _ & _ & [(address & _ & ->) | (e0 & _ & ->)])].
  - intros w i fetched _. left. through_render. rewrite H1.
    unfold handleSubmit_settled. by destruct (sendMessage engine fetched).
  - intros w i _ _. left. by through_render.
Qed.

(** X2.  The transcript is append-only within a session: a turn of the
    event loop leaves [messages] as it was, or appends exactly one message
    (an assistant message on a stream message, a user message on a submit),
    or, on New Form, empties it. *)
Theorem messages_append_only (w w' : World) (e : Event) :
  step engine w e = Some w' ->
  messages (store w') = messages (store w)
  \/ (exists m, messages (store w') = messages (store w) ++ [m]
        /\ ((role m = assistant
             /\ exists h event_data uuid, e = StreamMessage h event_data uuid)
            \/ (role m = user
                /\ exists inputValue uuid, e = Submitted inputValue uuid)))
  \/ (messages (store w') = [] /\ e = NewFormClicked).
Proof.
  revert w e w'. apply (step_cases engine (fun w e w' =>
    messages (store w') = messages (store w)
    \/ (exists m, messages (store w') = messages (store w) ++ [m]
          /\ ((role m = assistant
               /\ exists h event_data uuid, e = StreamMessage h event_data uuid)
              \/ (role m = user
                  /\ exists inputValue uuid, e = Submitted inputValue uuid)))
    \/ (messages (store w') = [] /\ e = NewFormClicked))).
  - intros w name _. left. through_render. rewrite H2.
    unfold handleFile. by destruct (negb _).
  - intros w n fetched _. left. through_render. rewrite H2.
    by destruct (handleFile_settled_cases engine fetched (set_uploads n w))
      as [(r & x & _ & _ & ->) | [x ->]].
  - intros w h es _ _. by left.
  - intros w h es event_data uuid _ _. through_render. rewrite H2.
    destruct (onmessage_store (owner es) event_data uuid w)
      as [(_ & _ & _ & -> & _) | [(c & -> & _) | [(c & ->) | (_ & _ & _ & -> & _)]]];
      [by left| |by left|by left].
    right. left. eexists. split; [reflexivity|]. left. split; [done|eauto].
  - intros w h es fatal _ _. left. by through_render.
  - intros w dt _. by left.
  - intros w t rest _ _. left. through_render. rewrite H2.
    by destruct (reconnectSSE_same engine (timer_owner t) (set_timers rest w))
      as [(_ & _ & _ & -> & _) _].
  - intros w i _. right. right. split; [|done]. through_render. by rewrite H2.
  - intros w i inputValue uuid _. through_render. rewrite H2.
    destruct (handleSubmit_cases engine i inputValue uuid w)
      as [[_ ->] | (_ & _ & _ & [(address & _ & ->) | (e0 & _ & ->)])];
      [by left| |];
      (right; left; eexists; split; [reflexivity|]; right; split; [done|eauto]).
  - intros w i fetched _. left. through_render. rewrite H2.
    unfold handleSubmit_settled. by destruct (sendMessage engine fetched).
  - intros w i _ _. left. by through_render.
Qed.

(** X3.  The session id changes only when an upload settles or New Form is
    clicked, and New Form leaves it [null]. *)
Theorem sessionId_changes_only_by_upload_or_reset (w w' : World) (e : Event) :
  step engine w e = Some w' ->
  sessionId (store w') = sessionId (store w)
  \/ (exists fetched, e = UploadSettled fetched)
  \/ (sessionId (store w') = JNull /\ e = NewFormClicked).
Proof.
  revert w e w'. apply (step_cases engine (fun w e w' =>
    sessionId (store w') = sessionId (store w)
    \/ (exists fetched, e = UploadSettled fetched)
    \/ (sessionId (store w') = JNull /\ e = NewFormClicked))).
  - intros w name _. left. through_render. rewrite H.
    unfold handleFile. by destruct (negb _).
  - intros w n fetched _. right. left. eauto.
  - intros w h es _ _. by left.
  - intros w h es event_data uuid _ _. left. through_render. rewrite H.
    by destruct (onmessage_store (owner es) event_data uuid w)
      as [(-> & _) | [(c & -> & _) | [(c & ->) | (-> & _)]]].
  - intros w h es fatal _ _. left. by through_render.
  - intros w dt _. by left.
  - intros w t rest _ _. left. through_render. rewrite H.
    by destruct (reconnectSSE_same engine (timer_owner t) (set_timers rest w))
      as [(-> & _) _].
  - intros w i _. right. right. split; [|done]. through_render. by rewrite H.
  - intros w i inputValue uuid _. left. through_render. rewrite H.
    by destruct (handleSubmit_cases engine i inputValue uuid w)
      as [[_ ->] | (_ & _ & _ & [(address & _ & ->) | (e0 & _ & ->)])].
  - intros w i fetched _. left. through_render. rewrite H.
    unfold handleSubmit_settled. by destruct (sendMessage engine fetched).
  - intros w i _ _. left. by through_render.
Qed.

End Attribution.

(** ** Sources and timers over time *)

Section Persistence.

Variable engine : Engine.

Lemma sources_kept_refl w : sources_kept w w.
Proof. intros h es Hes. exists es. done. Qed.

Lemma sources_kept_trans w1 w2 w3 :
  sources_kept w1 w2 -> sources_kept w2 w3 -> sources_kept w1 w3.
Proof.
  intros H12 H23 h es Hes.
  destruct (H12 h es Hes) as (es2 & Hes2 & Hu2 & Ho2 & Hc2).
  destruct (H23 h es2 Hes2) as (es3 & Hes3 & Hu3 & Ho3 & Hc3).
  exists es3. repeat split; [done|congruence|congruence|auto].
Qed.

Lemma sources_kept_same w w' : sources w' = sources w -> sources_kept w w'.
Proof. intros Hs h es Hes. exists es. by rewrite Hs. Qed.

(** Setting the state of a source keeps the sources, unless a closed source
    is set to something else. *)
Lemma sources_kept_set_readyState r h w :
  r = CLOSED \/ (exists es, sources w !! h = Some es /\ readyState es <> CLOSED) ->
  sources_kept w (set_sources (alter (set_readyState r) h (sources w)) w).
Proof.
  intros Hr k es Hes. simpl. rewrite list_lookup_alter.
  case_decide as E; [|exists es; done].
  subst k. rewrite Hes. simpl. eexists. split; [done|]. simpl.
  split; [done|]. split; [done|]. intros Hclosed.
  destruct Hr as [-> | (es0 & Hes0 & Hlive)]; [done|]. congruence.
Qed.

Lemma sources_kept_close_eventSource i w :
  sources_kept w (close_eventSource i w).
Proof.
  unfold close_eventSource. destruct (eventSource_of i w);
    [|apply sources_kept_refl].
  apply sources_kept_set_readyState. by left.
Qed.

Lemma sources_kept_connectSSE i w : sources_kept w (world (connectSSE engine i w)).
Proof.
  connectSSE_outcomes engine i w; try apply sources_kept_refl.
  intros h es Hes. exists es. simpl. split; [|done].
  by apply lookup_app_l_Some.
Qed.

Lemma sources_kept_reconnectSSE i w : sources_kept w (world (reconnectSSE engine i w)).
Proof.
  unfold reconnectSSE. destruct (truthy _).
  - eapply sources_kept_trans;
      [apply sources_kept_close_eventSource|apply sources_kept_connectSSE].
  - apply sources_kept_close_eventSource.
Qed.

Lemma sources_kept_effect i w : sources_kept w (world (effect engine i w)).
Proof.
  unfold effect. destruct (_ && _);
    [apply sources_kept_connectSSE|apply sources_kept_refl].
Qed.

Lemma sources_kept_render w : sources_kept w (world (render engine w)).
Proof.
  unfold render. destruct (hasSession (store w)), (page_chat w) as [j|].
  - apply sources_kept_effect.
  - set (w1 := set_page_chat _ _).
    apply (and_then_world (sources_kept w)).
    + apply (sources_kept_trans w w1); [by apply sources_kept_same|].
      unfold onMount. destruct (truthy _);
        [apply sources_kept_connectSSE|apply sources_kept_refl].
    + intros H. eapply sources_kept_trans; [done|apply sources_kept_effect].
  - eapply sources_kept_trans;
      [apply (sources_kept_close_eventSource j)|by apply sources_kept_same].
  - apply sources_kept_refl.
Qed.

Lemma sources_kept_then_render w w1 :
  sources_kept w w1 -> sources_kept w (world (render engine w1)).
Proof.
  intros H. eapply sources_kept_trans; [done|apply sources_kept_render].
Qed.

Lemma sources_kept_onmessage i event_data uuid w :
  sources_kept w (onmessage engine i event_data uuid w).
Proof.
  destruct (onmessage_cases engine i event_data uuid w)
    as [-> | [[c ->] | [[c ->] | [-> | ->]]]].
  - apply sources_kept_refl.
  - by apply sources_kept_same.
  - by apply sources_kept_same.
  - apply sources_kept_reconnectSSE.
  - eapply sources_kept_trans; [|apply sources_kept_reconnectSSE].
    by apply sources_kept_same.
Qed.

Lemma sources_kept_step w e w' :
  step engine w e = Some w' -> sources_kept w w'.
Proof.
  revert w e w'. apply (step_cases engine (fun w _ w' => sources_kept w w')).
  - intros w name _. apply sources_kept_then_render, sources_kept_same.
    unfold handleFile. by destruct (negb _).
  - intros w n fetched _. apply sources_kept_then_render, sources_kept_same.
    by destruct (handleFile_settled_cases engine fetched (set_uploads n w))
      as [(r & x & _ & _ & ->) | [x ->]].
  - intros w h es Hes Hr. apply sources_kept_set_readyState.
    right. exists es. by rewrite Hr.
  - intros w h es event_data uuid _ _.
    apply sources_kept_then_render, sources_kept_onmessage.
  - intros w h es fatal Hes Hr. apply sources_kept_then_render.
    eapply sources_kept_trans; [|by apply sources_kept_same].
    apply sources_kept_set_readyState. right. eauto.
  - intros w dt _. by apply sources_kept_same.
  - intros w t rest _ _. apply sources_kept_then_render.
    eapply sources_kept_trans; [|apply sources_kept_reconnectSSE].
    by apply sources_kept_same.
  - intros w i _. apply sources_kept_then_render. unfold handleNewSession.
    eapply sources_kept_trans;
      [apply (sources_kept_close_eventSource i)|by apply sources_kept_same].
  - intros w i inputValue uuid _. apply sources_kept_then_render, sources_kept_same.
    by destruct (handleSubmit_cases engine i inputValue uuid w)
      as [[_ ->] | (_ & _ & _ & [(address & _ & ->) | (e0 & _ & ->)])].
  - intros w i fetched _. apply sources_kept_then_render, sources_kept_same.
    unfold handleSubmit_settled. by destruct (sendMessage engine fetched).
  - intros w i _ _. by apply sources_kept_then_render, sources_kept_same.
Qed.

Lemma sources_kept_run es : forall w w',
  run engine w es = Some w' -> sources_kept w w'.
Proof.
  induction es as [|e es IH]; intros w w' Hrun; simpl in Hrun.
  - injection Hrun as <-. apply sources_kept_refl.
  - destruct (step engine w e) as [w1|] eqn:He; [|done]. simpl in Hrun.
    eapply sources_kept_trans; [by eapply sources_kept_step|by apply IH].
Qed.

(** X4.  A source, once constructed, is never dropped or reused: whatever
    happens later it keeps its URL and its owner, and once closed it stays
    closed and the environment can deliver neither an open signal, a
    message nor an error on it. *)
Theorem closed_source_stays_closed
    (w w' : World) (es : list Event) (h : nat) (src : EventSourceObj) :
  run engine w es = Some w' ->
  sources w !! h = Some src ->
  exists src',
    sources w' !! h = Some src'
    /\ url src' = url src /\ owner src' = owner src
    /\ (readyState src = CLOSED ->
        readyState src' = CLOSED
        /\ step engine w' (StreamOpen h) = None
        /\ (forall event_data uuid,
              step engine w' (StreamMessage h event_data uuid) = None)
        /\ (forall fatal, step engine w' (StreamError h fatal) = None)).
Proof.
  intros Hrun Hsrc.
  destruct (sources_kept_run es w w' Hrun h src Hsrc)
    as (src' & Hsrc' & Hu & Ho & Hc).
  exists src'. split; [done|]. split; [done|]. split; [done|].
  intros Hclosed. specialize (Hc Hclosed). split; [done|].
  destruct src' as [u r o]. simpl in Hc. subst r.
  unfold step, readyState_of. rewrite Hsrc'. done.
Qed.

Lemma onmessage_same_logs i event_data uuid w :
  same_logs w (onmessage engine i event_data uuid w).
Proof.
  destruct (onmessage_cases engine i event_data uuid w)
    as [-> | [[c ->] | [[c ->] | [-> | ->]]]]; try done.
  - apply reconnectSSE_same.
  - apply (reconnectSSE_same engine i (update_store (session.setComplete true) w)).
Qed.

Ltac logs_through_render :=
  match goal with
  | |- context [timers (world (render engine ?W))] =>
      destruct (render_same engine W) as [_ (? & ? & ? & ?)]
  end.

(** The timers and the clock after a turn of the event loop, event by
    event. *)
Lemma step_timers_clock (w w' : World) (e : Event) :
  step engine w e = Some w' ->
  match e with
  | StreamError h fatal =>
      clock w' = clock w
      /\ exists i, owner_of h w = Some i
                   /\ timers w' = timers w ++ [mkTimer (clock w + 2000) i]
  | TimerFires =>
      clock w' = clock w
      /\ exists t, timers w = t :: timers w' /\ (due t <= clock w)%Z
  | Advance dt =>
      timers w' = timers w /\ clock w' = (clock w + dt)%Z /\ (0 <= dt)%Z
  | _ => timers w' = timers w /\ clock w' = clock w
  end.
Proof.
  revert w e w'. apply (step_cases engine (fun w e w' =>
    match e with
    | StreamError h fatal =>
        clock w' = clock w
        /\ exists i, owner_of h w = Some i
                     /\ timers w' = timers w ++ [mkTimer (clock w + 2000) i]
    | TimerFires =>
        clock w' = clock w
        /\ exists t, timers w = t :: timers w' /\ (due t <= clock w)%Z
    | Advance dt =>
        timers w' = timers w /\ clock w' = (clock w + dt)%Z /\ (0 <= dt)%Z
    | _ => timers w' = timers w /\ clock w' = clock w
    end)).
  - intros w name _. logs_through_render. rewrite H, H2.
    unfold handleFile. by destruct (negb _).
  - intros w n fetched _. logs_through_render. rewrite H, H2.
    by destruct (handleFile_settled_cases engine fetched (set_uploads n w))
      as [(r & x & _ & _ & ->) | [x ->]].
  - by intros w h es _ _.
  - intros w h es event_data uuid _ _. logs_through_render. rewrite H, H2.
    by destruct (onmessage_same_logs (owner es) event_data uuid w)
      as (-> & _ & _ & ->).
  - intros w h es fatal Hes _. logs_through_render. rewrite H, H2.
    split; [done|]. exists (owner es). unfold owner_of. by rewrite Hes.
  - by intros w dt Hdt.
  - intros w t rest Ht Hdue. logs_through_render. rewrite H, H2.
    destruct (reconnectSSE_same engine (timer_owner t) (set_timers rest w))
      as [_ (-> & _ & _ & ->)].
    split; [done|]. exists t. by rewrite Ht.
  - intros w i _. logs_through_render. rewrite H, H2. unfold handleNewSession.
    simpl. by destruct (close_eventSource_same i w) as [_ (-> & _ & _ & ->)].
  - intros w i inputValue uuid _. logs_through_render. rewrite H, H2.
    by destruct (handleSubmit_cases engine i inputValue uuid w)
      as [[_ ->] | (_ & _ & _ & [(address & _ & ->) | (e0 & _ & ->)])].
  - intros w i fetched _. logs_through_render. rewrite H, H2.
    unfold handleSubmit_settled. by destruct (sendMessage engine fetched).
  - intros w i _ _. by logs_through_render.
Qed.

(** X5.  Only a transport error sets a reconnect timer: exactly one per
    error, due 2000 ms after it, however many errors came before.  A timer
    leaves the queue only by running, which it does only once due; and only
    the passing of time moves the clock. *)
Theorem timers_change_only_by_error_or_firing (w w' : World) (e : Event) :
  step engine w e = Some w' ->
  (timers w' = timers w
   /\ (clock w' = clock w
       \/ exists dt, e = Advance dt /\ (0 <= dt)%Z
                     /\ clock w' = (clock w + dt)%Z))
  \/ (clock w' = clock w
      /\ exists h fatal i,
           e = StreamError h fatal /\ owner_of h w = Some i
           /\ timers w' = timers w ++ [mkTimer (clock w + 2000) i])
  \/ (clock w' = clock w
      /\ e = TimerFires
      /\ exists t, timers w = t :: timers w' /\ (due t <= clock w)%Z).
Proof.
  intros Hstep. pose proof (step_timers_clock w w' e Hstep) as H.
  destruct e; try (left; destruct H as [-> ->]; split; [done|by left]).
  - right. left. destruct H as (-> & i & Ho & ->). split; [done|]. eauto 10.
  - left. destruct H as (-> & -> & Hdt). split; [done|]. right. eauto.
  - right. right. destruct H as (-> & t & Ht & Hdue). eauto 10.
Qed.

Lemma timers_in_order_later now now' l :
  (now <= now')%Z -> timers_in_order now l -> timers_in_order now' l.
Proof.
  intros Hle. induction l as [|t l IH]; simpl; [done|].
  intros (Hdue & Hall & Hrest). split; [lia|]. split; [done|by apply IH].
Qed.

Lemma timers_in_order_snoc now l i :
  timers_in_order now l ->
  timers_in_order now (l ++ [mkTimer (now + reconnect_delay) i]).
Proof.
  induction l as [|t l IH]; simpl.
  - intros _. split; [lia|]. by split.
  - intros (Hdue & Hall & Hrest). split; [done|]. split; [|by apply IH].
    apply Forall_app. split; [done|]. by apply Forall_singleton.
Qed.

(** X6.  In every reachable world the pending reconnect timers are queued in
    the order in which they fall due, and none is due more than 2000 ms from
    now: running the oldest is running the earliest. *)
Theorem timers_queue_in_due_order (w : World) :
  reachable engine w -> timers_in_order (clock w) (timers w).
Proof.
  revert w. apply (reachable_ind engine (fun w => timers_in_order (clock w) (timers w)));
    [done|].
  intros w e w' _ _ Hord Hstep.
  pose proof (step_timers_clock w w' e Hstep) as H.
  destruct e;
    try (destruct H as [-> ->]; exact Hord).
  - destruct H as (-> & i & _ & ->). by apply timers_in_order_snoc.
  - destruct H as (-> & -> & Hdt).
    apply (timers_in_order_later (clock w)); [lia|done].
  - destruct H as (-> & t & Ht & _). rewrite Ht in Hord. apply Hord.
Qed.

End Persistence.

(** ** What the client never sends and never shows *)

Section Logs.

Variable engine : Engine.

Ltac requests_through_render :=
  match goal with
  | |- context [requests (world (render engine ?W))] =>
      destruct (render_same engine W) as [_ (_ & -> & _ & _)]
  end.

Ltac messages_through_render :=
  match goal with
  | |- context [store (world (render engine ?W))] =>
      destruct (render_same engine W) as [(_ & _ & _ & -> & _) _]
  end.

Ltac uploads_through_render :=
  match goal with
  | |- context [store (world (render engine ?W))] =>
      destruct (render_same engine W) as [(_ & -> & _) (_ & _ & -> & _)]
  end.

Lemma proper_requests_step w e w' :
  step engine w e = Some w' ->
  Forall proper_request (requests w) -> Forall proper_request (requests w').
Proof.
  revert w e w'. apply (step_cases engine (fun w _ w' =>
    Forall proper_request (requests w) -> Forall proper_request (requests w'))).
  - intros w name _. requests_through_render.
    unfold handleFile. destruct (negb (endsWith name ".docx")) eqn:E; [done|].
    simpl. intros Hall. apply Forall_app. split; [done|].
    apply Forall_singleton. simpl. by destruct (endsWith name ".docx").
  - intros w n fetched _. requests_through_render.
    by destruct (handleFile_settled_cases engine fetched (set_uploads n w))
      as [(r & x & _ & _ & ->) | [x ->]].
  - by intros w h es _ _.
  - intros w h es event_data uuid _ _. requests_through_render.
    by destruct (onmessage_same_logs engine (owner es) event_data uuid w)
      as (_ & -> & _).
  - intros w h es fatal _ _. by requests_through_render.
  - by intros w dt _.
  - intros w t rest _ _. requests_through_render.
    by destruct (reconnectSSE_same engine (timer_owner t) (set_timers rest w))
      as [_ (_ & -> & _)].
  - intros w i _. requests_through_render. unfold handleNewSession. simpl.
    by destruct (close_eventSource_same i w) as [_ (_ & -> & _)].
  - intros w i inputValue uuid _. requests_through_render.
    destruct (handleSubmit_cases engine i inputValue uuid w)
      as [[_ ->] | (Htext & _ & Hsid & [(address & _ & ->) | (e0 & _ & ->)])];
      [done| |done].
    simpl. intros Hall. apply Forall_app. split; [done|].
    apply Forall_singleton. simpl. split; [done|]. split; [done|].
    apply trim_idempotent.
  - intros w i fetched _. requests_through_render.
    unfold handleSubmit_settled. by destruct (sendMessage engine fetched).
  - intros w i _ _. by requests_through_render.
Qed.

(** X7.  Whatever the user and the network do, the client only ever uploads
    files whose name ends in ".docx", and only ever posts a chat message
    that is non-empty and trimmed, for a session id that is set. *)
Theorem only_proper_requests (w : World) :
  reachable engine w -> Forall proper_request (requests w).
Proof.
  revert w. apply (reachable_ind engine (fun w => Forall proper_request (requests w))).
  - apply Forall_nil_2.
  - intros w e w' _ _ Hall Hstep. by eapply proper_requests_step.
Qed.

Lemma proper_messages_step w e w' :
  step engine w e = Some w' ->
  Forall proper_message (messages (store w)) ->
  Forall proper_message (messages (store w')).
Proof.
  revert w e w'. apply (step_cases engine (fun w _ w' =>
    Forall proper_message (messages (store w)) ->
    Forall proper_message (messages (store w')))).
  - intros w name _. messages_through_render.
    unfold handleFile. by destruct (negb _).
  - intros w n fetched _. messages_through_render.
    by destruct (handleFile_settled_cases engine fetched (set_uploads n w))
      as [(r & x & _ & _ & ->) | [x ->]].
  - by intros w h es _ _.
  - intros w h es event_data uuid _ _. messages_through_render.
    destruct (onmessage_store engine (owner es) event_data uuid w)
      as [(_ & _ & _ & -> & _) | [(c & -> & Hc) | [(c & ->) | (_ & _ & _ & -> & _)]]];
      try done.
    simpl. intros Hall. apply Forall_app. split; [done|].
    by apply Forall_singleton.
  - intros w h es fatal _ _. by messages_through_render.
  - by intros w dt _.
  - intros w t rest _ _. messages_through_render.
    by destruct (reconnectSSE_same engine (timer_owner t) (set_timers rest w))
      as [(_ & _ & _ & -> & _) _].
  - intros w i _. messages_through_render. intros _. apply Forall_nil_2.
  - intros w i inputValue uuid _. messages_through_render.
    destruct (handleSubmit_cases engine i inputValue uuid w)
      as [[_ ->] | (Htext & _ & _ & [(address & _ & ->) | (e0 & _ & ->)])];
      [done| |];
      (simpl; intros Hall; apply Forall_app; split; [done|];
       apply Forall_singleton; exists (trim inputValue);
       split; [done|]; split; [done|]; apply trim_idempotent).
  - intros w i fetched _. messages_through_render.
    unfold handleSubmit_settled. by destruct (sendMessage engine fetched).
  - intros w i _ _. by messages_through_render.
Qed.

(** X8.  The transcript never holds an empty message: every assistant
    message has truthy content and every user message is a non-empty,
    trimmed string. *)
Theorem only_proper_messages (w : World) :
  reachable engine w -> Forall proper_message (messages (store w)).
Proof.
  revert w.
  apply (reachable_ind engine (fun w => Forall proper_message (messages (store w)))).
  - apply Forall_nil_2.
  - intros w e w' _ _ Hall Hstep. by eapply proper_messages_step.
Qed.

Lemma uploading_step w e w' :
  step engine w e = Some w' ->
  (isUploading (store w) = true -> (0 < uploads w)%nat) ->
  isUploading (store w') = true -> (0 < uploads w')%nat.
Proof.
  revert w e w'. apply (step_cases engine (fun w _ w' =>
    (isUploading (store w) = true -> (0 < uploads w)%nat) ->
    isUploading (store w') = true -> (0 < uploads w')%nat)).
  - intros w name _. uploads_through_render.
    unfold handleFile. destruct (negb _); simpl; [done|]. intros _ _. lia.
  - intros w n fetched _. uploads_through_render.
    by destruct (handleFile_settled_cases engine fetched (set_uploads n w))
      as [(r & x & _ & _ & ->) | [x ->]].
  - by intros w h es _ _.
  - intros w h es event_data uuid _ _. uploads_through_render.
    destruct (onmessage_same_logs engine (owner es) event_data uuid w)
      as (_ & _ & -> & _).
    by destruct (onmessage_store engine (owner es) event_data uuid w)
      as [(_ & -> & _) | [(c & -> & _) | [(c & ->) | (_ & -> & _)]]].
  - intros w h es fatal _ _. by uploads_through_render.
  - by intros w dt _.
  - intros w t rest _ _. uploads_through_render.
    by destruct (reconnectSSE_same engine (timer_owner t) (set_timers rest w))
      as [(_ & -> & _) (_ & _ & -> & _)].
  - intros w i _. by uploads_through_render.
  - intros w i inputValue uuid _. uploads_through_render.
    by destruct (handleSubmit_cases engine i inputValue uuid w)
      as [[_ ->] | (_ & _ & _ & [(address & _ & ->) | (e0 & _ & ->)])].
  - intros w i fetched _. uploads_through_render.
    unfold handleSubmit_settled. by destruct (sendMessage engine fetched).
  - intros w i _ _. by uploads_through_render.
Qed.

(** X9.  [isUploading] is true only while at least one upload is awaiting
    its response. *)
Theorem uploading_only_while_pending (w : World) :
  reachable engine w -> isUploading (store w) = true -> (0 < uploads w)%nat.
Proof.
  revert w. apply (reachable_ind engine (fun w =>
    isUploading (store w) = true -> (0 < uploads w)%nat)); [done|].
  intros w e w' _ _ Hinv Hstep. by eapply uploading_step.
Qed.

End Logs.

(** ** One event at a time *)

Section Scenarios.

Variable engine : Engine.

(** X10.  A stream event of type "message" with truthy content appends one
    assistant message carrying that content and the time of arrival, and
    changes nothing else: no flag, no stream, no timer.  With falsy content
    (missing, empty) it changes nothing at all. *)
Theorem message_event_appends_reply
    (w w' : World) (h : nat) (data content : jsval) (uuid : string) :
  reachable engine w ->
  get_prop data "type" = Some (JStr "message") ->
  get_prop data "content" = Some content ->
  step engine w (StreamMessage h (Return data) uuid) = Some w' ->
  w' = if truthy content
       then update_store (session.addMessage uuid (clock w) assistant content) w
       else w.
Proof.
  intros [Hwf Hset]%(reachable_invariants engine) Htype Hcontent Hstep.
  simpl in Hstep.
  destruct (sources w !! h) as [[u r i]|]; [|done].
  destruct r; try done. apply (rendered_Some engine) in Hstep as [_ ->].
  assert (onmessage engine i (Return data) uuid w
          = if truthy content
            then update_store (session.addMessage uuid (clock w) assistant content) w
            else w) as ->.
  { unfold onmessage. simpl.
    rewrite (prop_Some engine _ _ _ Htype). simpl.
    rewrite (prop_Some engine _ _ _ Hcontent). simpl.
    by destruct (truthy content). }
  apply (render_nothing_to_do engine w); [done|..]; by destruct (truthy content).
Qed.

(** X11.  A stream event of type "error" puts its content in [error],
    whatever it is ([undefined] when the event has none), and changes
    nothing else: the stream stays as it is and no reconnect is
    scheduled. *)
Theorem error_event_sets_error
    (w w' : World) (h : nat) (data content : jsval) (uuid : string) :
  reachable engine w ->
  get_prop data "type" = Some (JStr "error") ->
  get_prop data "content" = Some content ->
  step engine w (StreamMessage h (Return data) uuid) = Some w' ->
  w' = update_store (session.setError content) w.
Proof.
  intros [Hwf Hset]%(reachable_invariants engine) Htype Hcontent Hstep.
  simpl in Hstep.
  destruct (sources w !! h) as [[u r i]|]; [|done].
  destruct r; try done. apply (rendered_Some engine) in Hstep as [_ ->].
  assert (onmessage engine i (Return data) uuid w
          = update_store (session.setError content) w) as ->.
  { unfold onmessage. simpl.
    rewrite (prop_Some engine _ _ _ Htype). simpl.
    rewrite (prop_Some engine _ _ _ Hcontent). done. }
  by apply (render_nothing_to_do engine w).
Qed.

(** X12.  When an upload resolves with a non-empty string [session_id]
    while the upload zone is shown: the store holds that id, [error] is
    [null], [isUploading] is false; the page creates a chat instance, which
    at once opens exactly one stream, to [/chat/stream/<id>], and
    [isConnected] is true. *)
Theorem upload_success_opens_chat
    (w w' : World) (fetched : result Response) (response : jsval) (sid : string) :
  page_chat w = None ->
  uploadDocument engine fetched = Return response ->
  get_prop response "session_id" = Some (JStr sid) ->
  sid <> EmptyString ->
  step engine w (UploadSettled fetched) = Some w' ->
  store w'
  = {| sessionId := JStr sid; isUploading := false;
       isComplete := isComplete (store w); messages := messages (store w);
       isConnected := true; error := JNull |}
  /\ page_chat w' = Some (length (chats w))
  /\ chats w' = chats w ++ [mkChat (Some (length (sources w))) false]
  /\ sources w'
     = sources w
       ++ [ {| url := "http://localhost:8000/api/chat/stream/" +:+ sid;
               readyState := CONNECTING;
               owner := length (chats w) |} ]
  /\ timers w' = timers w.
Proof.
  intros Hpage Hup Hsid Hne Hstep. simpl in Hstep.
  destruct (uploads w) as [|n]; [done|].
  apply (rendered_Some engine) in Hstep as [_ ->].
  assert (truthy (JStr sid) = true) as Htruthy.
  { simpl. apply negb_true_iff. by apply String.eqb_neq. }
  assert (handleFile_settled engine fetched (set_uploads n w)
          = update_store (session.setUploading false)
              (update_store (session.setSession (JStr sid)) (set_uploads n w)))
    as ->.
  { unfold handleFile_settled. rewrite Hup. simpl.
    by rewrite (prop_Some engine _ _ _ Hsid). }
  set (w0 := update_store _ _).
  set (i := length (chats w)).
  set (w1 := set_page_chat (Some i)
               (set_chats (chats w ++ [mkChat None false]) w0)).
  assert (render engine w0 = and_then (onMount engine i w1) (effect engine i))
    as ->.
  { unfold render. subst w0. simpl. by rewrite Hpage. }
  set (new := {| url := "http://localhost:8000/api/chat/stream/" +:+ sid;
                 readyState := CONNECTING; owner := i |}).
  assert (onMount engine i w1
          = returns
              (update_store (session.setConnected true)
                 (set_chats (chats w ++ [mkChat (Some (length (sources w))) false])
                    (set_sources (sources w ++ [new]) w1))))
    as ->.
  { unfold onMount. change (sessionId (store w1)) with (JStr sid).
    rewrite Htruthy. rewrite (connectSSE_truthy engine i w1 new) by done.
    subst w1 w0 i. simpl. do 3 f_equal.
    rewrite alter_app_r_alt by lia. by rewrite Nat.sub_diag. }
  unfold and_then. simpl.
  set (w2 := update_store _ _).
  assert (effect engine i w2 = returns w2) as ->.
  { unfold effect. change (sessionId (store w2)) with (JStr sid).
    rewrite Htruthy. simpl. rewrite bool_decide_eq_true_2; [done|].
    unfold eventSource_of. subst w2 i. simpl.
    rewrite lookup_app_r by lia. rewrite Nat.sub_diag. simpl. eauto. }
  done.
Qed.

(** X13.  When an upload fails (the network call rejects, the response is
    not a success, or its body does not parse), [error] becomes the message
    of what was thrown and [isUploading] becomes false; the session id, the
    transcript, the page and the streams are untouched, so the upload zone
    stays and the user can try again. *)
Theorem upload_failure_surfaces_message
    (w w' : World) (fetched : result Response) (e : exn) :
  reachable engine w ->
  uploadDocument engine fetched = Throw e ->
  step engine w (UploadSettled fetched) = Some w' ->
  exists n,
    uploads w = S n
    /\ w' = update_store (session.setUploading false)
              (update_store (session.setError (JStr (message e)))
                 (set_uploads n w)).
Proof.
  intros [Hwf Hset]%(reachable_invariants engine) Hup Hstep. simpl in Hstep.
  destruct (uploads w) as [|n]; [done|].
  apply (rendered_Some engine) in Hstep as [_ ->].
  exists n. split; [done|].
  unfold handleFile_settled. rewrite Hup. simpl.
  by apply (render_nothing_to_do engine w).
Qed.

Lemma close_twice i w f :
  sources (close_eventSource i (update_store f (close_eventSource i w)))
  = sources (close_eventSource i w).
Proof.
  unfold close_eventSource.
  destruct (eventSource_of i w) as [h|] eqn:E.
  - change (eventSource_of i (update_store f (close h w)))
      with (eventSource_of i w).
    rewrite E. simpl. rewrite list_alter_alter_eq.
    by apply list_alter_ext.
  - change (eventSource_of i (update_store f w)) with (eventSource_of i w).
    by rewrite E.
Qed.

(** X14.  A click on New Form closes the current stream of the chat shown
    and resets the store to its initial value; the page then destroys the
    chat.  No stream is opened, and the pending reconnect timers are left
    in place. *)
Theorem new_form_closes_and_resets (w w' : World) :
  reachable engine w ->
  step engine w NewFormClicked = Some w' ->
  exists i,
    page_chat w = Some i
    /\ store w' = session.initial
    /\ page_chat w' = None
    /\ sources w' = sources (close_eventSource i w)
    /\ (forall h src, sources w' !! h = Some src -> owner src = i ->
          readyState src = CLOSED)
    /\ chats w' = chats w
    /\ timers w' = timers w.
Proof.
  intros [Hwf Hset]%(reachable_invariants engine) Hstep. simpl in Hstep.
  destruct (page_chat w) as [i|] eqn:Hpage; [|done].
  apply (rendered_Some engine) in Hstep as [_ ->].
  exists i. split; [done|].
  assert (page_chat (close_eventSource i w) = Some i) as Hpage'.
  { unfold close_eventSource. by destruct (eventSource_of i w). }
  unfold render, handleNewSession. simpl. rewrite Hpage'. simpl.
  unfold onDestroy.
  rewrite !close_eventSource_store, !close_eventSource_chats,
    !close_eventSource_timers, close_twice. simpl.
  rewrite close_eventSource_chats, close_eventSource_timers.
  repeat split; try done.
  intros h src. by apply close_eventSource_all_closed.
Qed.

Lemma settled_set_isSending b i w :
  settled w -> settled (set_chats (alter (set_isSending b) i (chats w)) w).
Proof.
  unfold settled. simpl. destruct (page_chat w) as [j|]; [|done].
  by rewrite eventSource_of_set_isSending.
Qed.

(** What a submit does to a reachable world: the page has nothing to do
    after it. *)
Lemma step_Submitted (w : World) (i : nat) (inputValue uuid : string) :
  reachable engine w ->
  page_chat w = Some i ->
  step engine w (Submitted inputValue uuid)
  = Some (handleSubmit engine i inputValue uuid w).
Proof.
  intros [Hwf Hset]%(reachable_invariants engine) Hpage. simpl.
  rewrite Hpage. simpl. apply settled_rendered.
  assert (settled (set_chats (alter (set_isSending true) i (chats w)) w))
    as Hset1 by by apply settled_set_isSending.
  destruct (handleSubmit_cases engine i inputValue uuid w)
    as [[_ ->] | (_ & _ & _ & [(address & _ & ->) | (e & _ & ->)])]; [done| |].
  - by apply (settled_frame
                (set_chats (alter (set_isSending true) i (chats w)) w)).
  - apply (settled_set_isSending false i
             (update_store (session.setError (JStr (message e)))
                (update_store
                   (session.addMessage uuid (clock w) user (JStr (trim inputValue)))
                   (set_chats (alter (set_isSending true) i (chats w)) w)))).
    by apply (settled_frame
                (set_chats (alter (set_isSending true) i (chats w)) w)).
Qed.

(** X15.  A submit is dropped, leaving the world as it was, when the text is
    only white space, when the previous message of this chat is still being
    sent, or when no session id is set.  Otherwise the trimmed text is
    appended to the transcript as a user message before anything is sent.
    Then, when the URL of the request can be built, one request is issued
    for the session id in the store and the chat is marked as sending; when
    it cannot, nothing is issued, [error] becomes the message of what was
    thrown and the chat is not sending. *)
Theorem submit_appends_then_sends
    (w w' : World) (i : nat) (inputValue uuid : string) :
  reachable engine w ->
  page_chat w = Some i ->
  step engine w (Submitted inputValue uuid) = Some w' ->
  (all_white_space inputValue = true \/ isSending_of i w = true
   \/ truthy (sessionId (store w)) = false ->
   w' = w)
  /\ (all_white_space inputValue = false -> isSending_of i w = false ->
      truthy (sessionId (store w)) = true ->
      messages (store w')
      = messages (store w)
        ++ [mkMessage uuid user (JStr (trim inputValue)) (clock w)]
      /\ trim inputValue <> EmptyString
      /\ sources w' = sources w
      /\ match chat_url engine (sessionId (store w)) with
         | Return _ =>
             requests w'
             = requests w ++ [PostChat (sessionId (store w)) (trim inputValue)]
             /\ isSending_of i w' = true
             /\ error (store w') = error (store w)
         | Throw e =>
             requests w' = requests w
             /\ isSending_of i w' = false
             /\ error (store w') = JStr (message e)
         end).
Proof.
  intros Hreach Hpage Hstep.
  rewrite (step_Submitted w i inputValue uuid Hreach Hpage) in Hstep.
  injection Hstep as <-.
  destruct (reachable_invariants engine w Hreach) as [Hwf _].
  pose proof (wf_page w Hwf i Hpage) as Hi.
  apply lookup_lt_is_Some_2 in Hi as [c Hc].
  destruct (handleSubmit_cases engine i inputValue uuid w)
    as [[Hdrop ->] | (Htext & Hsending & Hsid & Hsent)].
  - split; [done|]. intros Hws Hs Hsid.
    destruct Hdrop as [Hblank%trim_empty | [? | ?]]; congruence.
  - split.
    { intros [Hws%trim_empty | [? | ?]]; congruence. }
    intros _ _ _.
    destruct Hsent as [(address & -> & ->) | (e & -> & ->)]; simpl.
    + split; [done|]. split; [done|]. split; [done|]. split; [done|].
      split; [|done]. unfold isSending_of. simpl.
      by rewrite list_lookup_alter_eq, Hc.
    + split; [done|]. split; [done|]. split; [done|]. split; [done|].
      split; [|done]. unfold isSending_of. simpl.
      by rewrite !list_lookup_alter_eq, Hc.
Qed.

(** X16.  When the send settles, the transcript is left as it is, whatever
    the outcome: a message that could not be sent stays.  On failure [error]
    becomes the message of what was thrown; on success the store is
    untouched.  In both cases the chat stops sending, so the next submit is
    accepted. *)
Theorem send_settled_keeps_transcript
    (w w' : World) (i : nat) (fetched : result Response) :
  reachable engine w ->
  step engine w (SendSettled i fetched) = Some w' ->
  messages (store w') = messages (store w)
  /\ store w'
     = match sendMessage engine fetched with
       | Return _ => store w
       | Throw e => session.setError (JStr (message e)) (store w)
       end
  /\ isSending_of i w = true
  /\ isSending_of i w' = false
  /\ sources w' = sources w
  /\ requests w' = requests w.
Proof.
  intros [Hwf Hset]%(reachable_invariants engine) Hstep. simpl in Hstep.
  destruct (isSending_of i w) eqn:Hsending; [|done].
  apply (rendered_Some engine) in Hstep as [_ ->].
  assert (world (render engine (handleSubmit_settled engine i fetched w))
          = handleSubmit_settled engine i fetched w) as ->.
  { apply settled_render. unfold handleSubmit_settled.
    apply settled_set_isSending.
    destruct (sendMessage engine fetched); [done|]. by apply (settled_frame w). }
  unfold handleSubmit_settled, isSending_of in *.
  destruct (chats w !! i) as [c|] eqn:Hc; [|done].
  destruct (sendMessage engine fetched); simpl;
    rewrite list_lookup_alter_eq, Hc; done.
Qed.

End Scenarios.

(** ** The transport client, from the caller's side *)

Section Callers.

Variable engine : Engine.

(** X17.  An operation returns only on a success response: a rejected
    network call and a non-success response, whatever its body, always end
    in a throw.  What [uploadDocument] and [getStatus] return is the parsed
    body of that success response. *)
Theorem operations_return_only_on_success (fetched : result Response) :
  (forall v, uploadDocument engine fetched = Return v ->
     exists response,
       fetched = Return response /\ ok response = true
       /\ json response = Return v)
  /\ (forall u, sendMessage engine fetched = Return u ->
     exists response, fetched = Return response /\ ok response = true)
  /\ (forall v, getStatus engine fetched = Return v ->
     exists response,
       fetched = Return response /\ ok response = true
       /\ json response = Return v)
  /\ (forall e, fetched = Throw e ->
     uploadDocument engine fetched = Throw e
     /\ sendMessage engine fetched = Throw e
     /\ getStatus engine fetched = Throw e).
Proof.
  assert (forall (A : Type) fallback response (v : A),
            (error ← json response;
             detail ← prop engine error "detail";
             failure ← new_Error engine
                         (if truthy detail then detail else JStr fallback);
             Throw failure)
            <> Return v) as Hthrows.
  { intros A fallback response v. destruct (json response) as [error|e]; [|done].
    simpl. destruct (prop engine error "detail") as [detail|]; [|done]. simpl.
    by destruct (new_Error engine _). }
  unfold uploadDocument, sendMessage, getStatus.
  destruct fetched as [response|e0]; simpl.
  - destruct (ok response) eqn:Hok; simpl.
    + repeat split; try done; intros v Hv; exists response; done.
    + repeat split; try done; intros v Hv; by apply Hthrows in Hv.
  - split; [done|]. split; [done|]. split; [done|]. by intros e1 [= ->].
Qed.

(** X18.  [handleFile] starts an upload exactly for the names that are
    something followed by ".docx" (the bare name ".docx" included); it then
    sets [isUploading] and clears [error].  For every other name it issues
    nothing and only sets the error text. *)
Theorem handleFile_uploads_docx_names (name : string) (w : World) :
  ((exists p, name = p +:+ ".docx") ->
     handleFile name w
     = set_uploads (S (uploads w))
         (fetch (PostUpload name)
            (update_store (session.setError JNull)
               (update_store (session.setUploading true) w))))
  /\ (~ (exists p, name = p +:+ ".docx") ->
     handleFile name w
     = update_store (session.setError (JStr "Please upload a .docx file")) w).
Proof.
  unfold handleFile. split.
  - intros H%endsWith_spec. by rewrite H.
  - intros H. destruct (endsWith name ".docx") eqn:E; [|done].
    destruct H. by apply endsWith_spec.
Qed.

(** X19.  A drop, or a pick in the file dialog, handles the first file only:
    the others are ignored, so a first file that is not a ".docx" issues no
    request even when a later one is.  A drop always ends the dragging
    state, an empty drop or pick changes nothing else, and dragging over or
    away touches nothing but that state. *)
Theorem first_file_only (files : list string) (z : DropZone) :
  fst (handleDrop files z) = false
  /\ handleDragOver z = (true, snd z)
  /\ handleDragLeave z = (false, snd z)
  /\ snd (handleDrop files z) = handleInputChange files (snd z)
  /\ (files = [] -> handleInputChange files (snd z) = snd z)
  /\ (forall file rest,
        files = file :: rest ->
        handleInputChange files (snd z) = handleFile file (snd z)
        /\ (endsWith file ".docx" = false ->
            requests (handleInputChange files (snd z)) = requests (snd z)
            /\ uploads (handleInputChange files (snd z)) = uploads (snd z))).
Proof.
  split; [done|]. split; [done|]. split; [done|]. split; [done|].
  split; [by intros ->|].
  intros file rest ->. simpl. split; [done|].
  intros H. unfold handleFile. by rewrite H.
Qed.

Lemma append_cancel p a b : p +:+ a = p +:+ b -> a = b.
Proof.
  induction p as [|c p IH]; [done|]. rewrite !append_cons. intros [= H]. auto.
Qed.

(** X20.  For string session ids, the download URL and the stream URL are
    the API base followed by the path and the id as it is, so two sessions
    never share a URL. *)
Theorem urls_identify_the_session (a b : string) :
  getDownloadUrl engine (JStr a)
  = Return ("http://localhost:8000/api/download/" +:+ a)
  /\ createEventSource engine (JStr a) 0
     = Return {| url := "http://localhost:8000/api/chat/stream/" +:+ a;
                 readyState := CONNECTING; owner := 0 |}
  /\ (getDownloadUrl engine (JStr a) = getDownloadUrl engine (JStr b) -> a = b)
  /\ (stream_url engine (JStr a) = stream_url engine (JStr b) -> a = b).
Proof.
  split; [done|]. split; [done|]. split.
  - intros H.
    apply (append_cancel "http://localhost:8000/api/download/").
    exact (f_equal (fun r => match r with
                             | Return address => address
                             | Throw _ => EmptyString
                             end) H).
  - intros H.
    apply (append_cancel "http://localhost:8000/api/chat/stream/").
    exact (f_equal (fun r => match r with
                             | Return address => address
                             | Throw _ => EmptyString
                             end) H).
Qed.

End Callers.

(** ** One stream at a time *)

Section Streams.

Variable engine : Engine.

(** X21.  In every reachable world a chat instance has at most one stream
    that is not closed, and that stream is the one its [eventSource]
    variable holds. *)
Theorem one_live_stream_per_instance
    (w : World) (h1 h2 : nat) (src1 src2 : EventSourceObj) :
  reachable engine w ->
  sources w !! h1 = Some src1 -> readyState src1 <> CLOSED ->
  sources w !! h2 = Some src2 -> readyState src2 <> CLOSED ->
  owner src1 = owner src2 ->
  h1 = h2 /\ eventSource_of (owner src1) w = Some h1.
Proof.
  intros [Hwf _]%(reachable_invariants engine) H1 Hlive1 H2 Hlive2 Ho.
  pose proof (wf_current w Hwf h1 src1 H1 Hlive1) as Hc1.
  pose proof (wf_current w Hwf h2 src2 H2 Hlive2) as Hc2.
  rewrite <- Ho in Hc2. split; [congruence|done].
Qed.

(** X22.  In every reachable world the page shows a chat exactly when the
    store has a session ([sessionId] is not [null]), and the chat shown
    holds a stream handle whenever the session id is truthy. *)
Theorem page_follows_session (w : World) :
  reachable engine w ->
  (hasSession (store w) = true <-> is_Some (page_chat w))
  /\ (forall j, page_chat w = Some j ->
        j < length (chats w)
        /\ (truthy (sessionId (store w)) = true ->
            exists h, eventSource_of j w = Some h)).
Proof.
  intros [Hwf Hset]%(reachable_invariants engine). unfold settled in Hset.
  destruct (page_chat w) as [j|] eqn:Hpage.
  - destruct Hset as [Hhas Hstream]. split; [by split; eauto|].
    intros j' [= <-]. split; [by apply (wf_page w Hwf)|].
    intros Hsid. by destruct (Hstream Hsid) as [h Hh]; eauto.
  - split; [|done]. rewrite Hset. split; [done|]. by intros [? ?].
Qed.

(** X23.  In every run in which no reconnect timer outlives its session:
    there is at most one stream that is not closed, it belongs to the chat
    on the page, and there is none while there is no session; and the
    download button's condition [canDownload] implies [hasSession]. *)
Theorem one_live_stream_when_timely (es : list Event) (w : World) :
  run engine initial_world es = Some w ->
  all_timely engine initial_world es ->
  (forall h src, sources w !! h = Some src -> readyState src <> CLOSED ->
     page_chat w = Some (owner src)
     /\ eventSource_of (owner src) w = Some h
     /\ hasSession (store w) = true)
  /\ (forall h1 h2 src1 src2,
        sources w !! h1 = Some src1 -> readyState src1 <> CLOSED ->
        sources w !! h2 = Some src2 -> readyState src2 <> CLOSED ->
        h1 = h2)
  /\ (canDownload (store w) = true -> hasSession (store w) = true).
Proof.
  intros Hrun Htimely.
  destruct (reachable_invariants engine w) as [Hwf Hset]; [by exists es|].
  assert (owned w) as [Hlive Hcomplete].
  { apply (owned_run engine es initial_world w Hrun Htimely).
    split; [|split; [done|by split]].
    split; simpl; try done. intros t Ht. by apply elem_of_nil in Ht. }
  assert (forall h src, sources w !! h = Some src -> readyState src <> CLOSED ->
            page_chat w = Some (owner src)
            /\ eventSource_of (owner src) w = Some h
            /\ hasSession (store w) = true) as Hone.
  { intros h src Hsrc Hr. pose proof (Hlive h src Hsrc Hr) as Hp.
    split; [done|]. split; [by apply (wf_current w Hwf)|].
    unfold settled in Hset. rewrite Hp in Hset. apply Hset. }
  split; [done|]. split; [|done].
  intros h1 h2 src1 src2 H1 Hr1 H2 Hr2.
  destruct (Hone h1 src1 H1 Hr1) as (Hp1 & Hc1 & _).
  destruct (Hone h2 src2 H2 Hr2) as (Hp2 & Hc2 & _).
  congruence.
Qed.

End Streams.

(** ** Edges *)

Section Edges.

Variable engine : Engine.

Lemma run_snoc es e : forall w,
  run engine w (es ++ [e]) = w' ← run engine w es; step engine w' e.
Proof.
  induction es as [|e0 es IH]; intros w.
  - simpl. by destruct (step engine w e).
  - simpl. destruct (step engine w e0) as [w0|]; [|done]. simpl. apply IH.
Qed.

Lemma reachable_step w e w' :
  reachable engine w -> step engine w e = Some w' -> reachable engine w'.
Proof.
  intros [es Hrun] Hstep. exists (es ++ [e]). rewrite run_snoc, Hrun. done.
Qed.

(** X24.  While a message of a chat is being sent, a second submit is
    dropped: it neither shows in the transcript nor reaches the network.
    The first message is being sent once its submit has changed the world,
    unless the URL of the request could not be built: nothing is sent then,
    and the chat is not sending. *)
Theorem second_submit_is_dropped
    (w w1 : World) (inputValue uuid inputValue' uuid' : string) :
  reachable engine w ->
  step engine w (Submitted inputValue uuid) = Some w1 ->
  w1 <> w ->
  match chat_url engine (sessionId (store w)) with
  | Return _ => step engine w1 (Submitted inputValue' uuid') = Some w1
  | Throw _ =>
      requests w1 = requests w
      /\ forall i, page_chat w = Some i -> isSending_of i w1 = false
  end.
Proof.
  intros Hreach Hstep Hchanged.
  destruct (reachable_invariants engine w Hreach) as [Hwf Hset].
  pose proof (reachable_step w _ w1 Hreach Hstep) as Hreach1.
  destruct (page_chat w) as [i|] eqn:Hpage; [|by simpl in Hstep; rewrite Hpage in Hstep].
  pose proof (step_Submitted engine w i inputValue uuid Hreach Hpage)
    as Hfirst.
  rewrite Hstep in Hfirst. injection Hfirst as Hw1.
  pose proof (wf_page w Hwf i Hpage) as Hi.
  apply lookup_lt_is_Some_2 in Hi as [c Hc].
  destruct (handleSubmit_cases engine i inputValue uuid w)
    as [[_ Hw] | (_ & _ & _ & [(address & Hurl & Hw) | (e & Hurl & Hw)])];
    rewrite Hw in Hw1; [done| |]; rewrite Hurl.
  - assert (page_chat w1 = Some i) as Hpage1 by by rewrite Hw1.
    assert (isSending_of i w1 = true) as Hsending.
    { rewrite Hw1. unfold isSending_of. simpl.
      by rewrite list_lookup_alter_eq, Hc. }
    rewrite (step_Submitted engine w1 i inputValue' uuid' Hreach1 Hpage1).
    f_equal. unfold handleSubmit. by rewrite Hsending, orb_true_r.
  - split; [by rewrite Hw1|]. intros j [= <-]. rewrite Hw1.
    unfold isSending_of. simpl. by rewrite !list_lookup_alter_eq, Hc.
Qed.

(** X25.  A stream event of type "done" goes by truthiness: [isComplete]
    becomes true when [is_complete] is truthy, whatever its type, and is
    left alone when it is falsy or missing.  The current stream is closed in
    either case, and a new one is opened only if a session id is set: with
    none, the stream is closed for good.  (Nor is one opened when the
    session id is a value whose URL cannot be built: the handler drops what
    was thrown.) *)
Theorem done_event_goes_by_truthiness
    (i : nat) (data is_complete : jsval) (uuid : string) (w : World) :
  get_prop data "type" = Some (JStr "done") ->
  get_prop data "is_complete" = Some is_complete ->
  let w' := onmessage engine i (Return data) uuid w in
  isComplete (store w') = (truthy is_complete || isComplete (store w))
  /\ sessionId (store w') = sessionId (store w)
  /\ messages (store w') = messages (store w)
  /\ (truthy (sessionId (store w)) = false ->
      sources w' = sources (close_eventSource i w)
      /\ isConnected (store w') = isConnected (store w))
  /\ (truthy (sessionId (store w)) = true ->
      match createEventSource engine (sessionId (store w)) i with
      | Return es => sources w' = sources (close_eventSource i w) ++ [es]
      | Throw _ => sources w' = sources (close_eventSource i w)
      end).
Proof.
  intros Htype Hdone w'.
  assert (exists content, get_prop data "content" = Some content) as [content Hc].
  { apply (get_prop_total data "content"). congruence. }
  assert (w' = world (reconnectSSE engine i
                 (if truthy is_complete
                  then update_store (session.setComplete true) w else w))) as Hw'.
  { subst w'. unfold onmessage. simpl.
    rewrite (prop_Some engine _ _ _ Htype). simpl.
    rewrite (prop_Some engine _ _ _ Hc). simpl.
    by rewrite (prop_Some engine _ _ _ Hdone). }
  set (w0 := if truthy is_complete
             then update_store (session.setComplete true) w else w) in *.
  assert (sessionId (store w0) = sessionId (store w)
          /\ messages (store w0) = messages (store w)
          /\ isConnected (store w0) = isConnected (store w)
          /\ isComplete (store w0) = (truthy is_complete || isComplete (store w))
          /\ sources (close_eventSource i w0) = sources (close_eventSource i w))
    as (Hs0 & Hm0 & Hconn0 & Hcomp0 & Hclose0).
  { subst w0. destruct (truthy is_complete); simpl; repeat split.
    unfold close_eventSource.
    change (eventSource_of i (update_store (session.setComplete true) w))
      with (eventSource_of i w).
    by destruct (eventSource_of i w). }
  destruct (reconnectSSE_same engine i w0) as [(Hs & _ & Hcomp & Hm & _) _].
  rewrite Hw', Hs, Hcomp, Hm, Hs0, Hm0, Hcomp0.
  split; [done|]. split; [done|]. split; [done|]. split.
  - intros Hsid. rewrite reconnectSSE_falsy by by rewrite Hs0.
    simpl. by rewrite Hclose0, close_eventSource_store.
  - intros Hsid.
    destruct (createEventSource engine (sessionId (store w)) i) as [es|e] eqn:Hes.
    + destruct (reconnectSSE_opens_one engine i w0 es) as (_ & -> & _);
        [by rewrite Hs0|by rewrite Hs0|].
      by rewrite Hclose0.
    + rewrite (reconnectSSE_opens_none engine i w0 e);
        [by simpl|by rewrite Hs0|by rewrite Hs0].
Qed.

(** X26.  The page goes by [sessionId !== null] and the stream by
    truthiness.  So an upload that resolves with a [session_id] that is
    falsy but not [null] (empty, or missing from the body) still replaces
    the upload zone by a chat, and that chat opens no stream; with [null]
    the upload zone stays. *)
Theorem unusable_session_id_opens_no_stream
    (w w' : World) (fetched : result Response) (response sid : jsval) :
  page_chat w = None ->
  uploadDocument engine fetched = Return response ->
  get_prop response "session_id" = Some sid ->
  truthy sid = false ->
  step engine w (UploadSettled fetched) = Some w' ->
  store w' = session.setUploading false (session.setSession sid (store w))
  /\ sources w' = sources w
  /\ (sid <> JNull ->
      page_chat w' = Some (length (chats w))
      /\ chats w' = chats w ++ [mkChat None false])
  /\ (sid = JNull -> page_chat w' = None /\ chats w' = chats w).
Proof.
  intros Hpage Hup Hsid Hfalsy Hstep. simpl in Hstep.
  destruct (uploads w) as [|n]; [done|].
  apply (rendered_Some engine) in Hstep as [_ ->].
  assert (handleFile_settled engine fetched (set_uploads n w)
          = update_store (session.setUploading false)
              (update_store (session.setSession sid) (set_uploads n w)))
    as ->.
  { unfold handleFile_settled. rewrite Hup. simpl.
    by rewrite (prop_Some engine _ _ _ Hsid). }
  set (w0 := update_store _ _).
  assert (forall j w1, sessionId (store w1) = sid ->
            and_then (onMount engine j w1) (effect engine j) = returns w1)
    as Hnothing.
  { intros j w1 Hs. unfold onMount. rewrite Hs, Hfalsy.
    unfold and_then, effect. simpl. by rewrite Hs, Hfalsy. }
  assert (hasSession (store w0) = false <-> sid = JNull) as Hnull.
  { subst w0. unfold hasSession. simpl. by destruct sid. }
  unfold render. change (page_chat w0) with (page_chat w). rewrite Hpage.
  destruct (hasSession (store w0)) eqn:Hhas.
  - cbv zeta. rewrite Hnothing by done. subst w0. simpl.
    split; [done|]. split; [done|]. split; [done|].
    intros Hsidnull. apply Hnull in Hsidnull. done.
  - subst w0. simpl. split; [done|]. split; [done|]. split; [|done].
    intros Hne. destruct Hne. by apply Hnull.
Qed.

(** X27.  Dismissing the error banner, which is there only while [error] is
    truthy, clears [error] and changes nothing else. *)
Theorem dismiss_clears_error_only (w w' : World) :
  reachable engine w ->
  step engine w ErrorDismissed = Some w' ->
  truthy (error (store w)) = true
  /\ w' = update_store (session.setError JNull) w.
Proof.
  intros [Hwf Hset]%(reachable_invariants engine) Hstep. simpl in Hstep.
  destruct (page_chat w) as [i|]; [|done]. simpl in Hstep.
  destruct (truthy (error (store w))); [|done].
  apply (rendered_Some engine) in Hstep as [_ ->].
  split; [done|]. by apply (render_nothing_to_do engine w).
Qed.

End Edges.

(** A session id with no string to it, set by a second upload while the
    chat of the first is shown.  A submit shows the message, sends nothing
    and puts the TypeError in [error]; and the handler of "done" closes the
    stream and opens none. *)
Example session_id_without_a_string :
  exists w w1 w2,
    run v8 initial_world two_uploads_no_string = Some w
    /\ sessionId (store w) = no_string
    /\ step v8 w (Submitted "Jane Doe" "2c3d") = Some w1
    /\ messages (store w1) = [mkMessage "2c3d" user (JStr "Jane Doe") 0]
    /\ requests w1 = requests w
    /\ isSending_of 0 w1 = false
    /\ error (store w1) = JStr "Cannot convert object to primitive value"
    /\ step v8 w (StreamMessage 0 (done_event true) "6f1c") = Some w2
    /\ isComplete (store w2) = true
    /\ sources w2
       = [ {| url := "http://localhost:8000/api/chat/stream/s1";
              readyState := CLOSED; owner := 0 |} ].
Proof.
  eexists _, _, _. split; [vm_compute; reflexivity|].
  split; [reflexivity|]. split; [vm_compute; reflexivity|].
  split; [reflexivity|]. split; [reflexivity|]. split; [reflexivity|].
  split; [reflexivity|]. split; [vm_compute; reflexivity|].
  split; reflexivity.
Qed.

(** When the first upload itself resolves with such an id, [onMount] of the
    new chat throws: the page's reaction does not return. *)
Example mount_throws :
  raised (render v8
            (handleFile_settled v8 (upload_resolved_with no_string)
               (set_uploads 0 uploading)))
  = Some (mkExn TypeError "Cannot convert object to primitive value")
  /\ step v8 uploading (UploadSettled (upload_resolved_with no_string)) = None.
Proof. split; reflexivity. Qed.

(** ** These statements at concrete inputs *)

Lemma isComplete_changes_only_by_stream_or_reset_witness :
  step v8 chatting (StreamMessage 0 (done_event true) "6f1c") = Some after_done
  /\ (isComplete (store after_done) = isComplete (store chatting)
      \/ (isComplete (store after_done) = true
          /\ exists h event_data uuid,
               StreamMessage 0 (done_event true) "6f1c"
               = StreamMessage h event_data uuid)
      \/ (isComplete (store after_done) = false
          /\ StreamMessage 0 (done_event true) "6f1c" = NewFormClicked)).
Proof.
  assert (step v8 chatting (StreamMessage 0 (done_event true) "6f1c")
          = Some after_done) as Hstep by (vm_compute; reflexivity).
  split; [exact Hstep|].
  exact (isComplete_changes_only_by_stream_or_reset v8 chatting after_done _ Hstep).
Defined.

Lemma messages_append_only_witness :
  step v8 chatting (Submitted "  Jane Doe " "2c3d") = Some sending
  /\ messages (store sending)
     = messages (store chatting) ++ [mkMessage "2c3d" user (JStr "Jane Doe") 0].
Proof.
  assert (step v8 chatting (Submitted "  Jane Doe " "2c3d") = Some sending)
    as Hstep by (vm_compute; reflexivity).
  split; [exact Hstep|].
  destruct (messages_append_only v8 chatting sending _ Hstep)
    as [H | [(m & H & _) | [H _]]]; reflexivity.
Defined.

Lemma sessionId_changes_only_by_upload_or_reset_witness :
  step v8 chatting (StreamError 0 false) = Some after_error
  /\ sessionId (store after_error) = sessionId (store chatting).
Proof.
  assert (step v8 chatting (StreamError 0 false) = Some after_error) as Hstep
    by (vm_compute; reflexivity).
  split; [exact Hstep|].
  destruct (sessionId_changes_only_by_upload_or_reset v8 chatting after_error _ Hstep)
    as [H | [[f H] | [_ H]]]; [exact H|discriminate H|discriminate H].
Defined.

Lemma closed_source_stays_closed_witness :
  run v8 after_done [StreamOpen 1; Advance 5000] <> None
  /\ readyState_of 0 after_done = Some CLOSED
  /\ forall w', run v8 after_done [StreamOpen 1; Advance 5000] = Some w' ->
       readyState_of 0 w' = Some CLOSED
       /\ step v8 w' (StreamMessage 0 (Return hello_event) "0a1b") = None.
Proof.
  split; [discriminate|]. split; [reflexivity|].
  intros w' Hrun.
  destruct (closed_source_stays_closed v8 after_done w' _ 0
              (mkEventSource "http://localhost:8000/api/chat/stream/abc123" CLOSED 0)
              Hrun eq_refl) as (src' & Hsrc' & _ & _ & Hclosed).
  destruct (Hclosed eq_refl) as (Hr & _ & Hmessage & _).
  split; [|apply Hmessage].
  unfold readyState_of. rewrite Hsrc'. simpl. by rewrite Hr.
Defined.

Lemma timers_change_only_by_error_or_firing_witness :
  step v8 chatting (StreamError 0 false) = Some after_error
  /\ timers after_error = timers chatting ++ [mkTimer (clock chatting + 2000) 0].
Proof.
  assert (step v8 chatting (StreamError 0 false) = Some after_error) as Hstep
    by (vm_compute; reflexivity).
  split; [exact Hstep|].
  destruct (timers_change_only_by_error_or_firing v8 chatting after_error _ Hstep)
    as [[H _] | [(_ & h & fatal & i & He & Ho & H) | (_ & He & _)]].
  - discriminate H.
  - injection He as <- <-. vm_compute in Ho. injection Ho as <-. exact H.
  - discriminate He.
Defined.

Lemma timers_queue_in_due_order_witness :
  reachable v8 after_delay
  /\ timers_in_order (clock after_delay) (timers after_delay).
Proof.
  assert (reachable v8 after_delay) as Hreach
    by (exists (stream_opened ++ [StreamError 0 false; Advance 2000]);
        vm_compute; reflexivity).
  split; [exact Hreach|]. exact (timers_queue_in_due_order v8 after_delay Hreach).
Defined.

Lemma only_proper_requests_witness :
  reachable v8 sending /\ Forall proper_request (requests sending).
Proof.
  assert (reachable v8 sending) as Hreach
    by (exists (stream_opened ++ [Submitted "  Jane Doe " "2c3d"]);
        vm_compute; reflexivity).
  split; [exact Hreach|]. exact (only_proper_requests v8 sending Hreach).
Defined.

Lemma only_proper_messages_witness :
  reachable v8 sending /\ Forall proper_message (messages (store sending)).
Proof.
  assert (reachable v8 sending) as Hreach
    by (exists (stream_opened ++ [Submitted "  Jane Doe " "2c3d"]);
        vm_compute; reflexivity).
  split; [exact Hreach|]. exact (only_proper_messages v8 sending Hreach).
Defined.

Lemma uploading_only_while_pending_witness :
  reachable v8 uploading
  /\ isUploading (store uploading) = true
  /\ (0 < uploads uploading)%nat.
Proof.
  assert (reachable v8 uploading) as Hreach
    by (exists [FileChosen "OrderForm.docx"]; vm_compute; reflexivity).
  split; [exact Hreach|]. split; [reflexivity|].
  exact (uploading_only_while_pending v8 uploading Hreach eq_refl).
Defined.

Lemma message_event_appends_reply_witness :
  reachable v8 chatting
  /\ get_prop hello_event "type" = Some (JStr "message")
  /\ get_prop hello_event "content" = Some (JStr "Hello!")
  /\ step v8 chatting (StreamMessage 0 (Return hello_event) "0a1b") = Some greeted_chat
  /\ greeted_chat
     = update_store (session.addMessage "0a1b" (clock chatting) assistant (JStr "Hello!"))
         chatting.
Proof.
  assert (reachable v8 chatting) as Hreach
    by (exists stream_opened; vm_compute; reflexivity).
  assert (step v8 chatting (StreamMessage 0 (Return hello_event) "0a1b")
          = Some greeted_chat) as Hstep by (vm_compute; reflexivity).
  split; [exact Hreach|]. split; [reflexivity|]. split; [reflexivity|].
  split; [exact Hstep|].
  exact (message_event_appends_reply v8 chatting greeted_chat 0 hello_event
           (JStr "Hello!") "0a1b" Hreach eq_refl eq_refl Hstep).
Defined.

Lemma error_event_sets_error_witness :
  reachable v8 chatting
  /\ get_prop agent_error_event "type" = Some (JStr "error")
  /\ get_prop agent_error_event "content" = Some (JStr "Agent failed")
  /\ step v8 chatting (StreamMessage 0 (Return agent_error_event) "0a1b")
     = Some agent_failed
  /\ agent_failed = update_store (session.setError (JStr "Agent failed")) chatting.
Proof.
  assert (reachable v8 chatting) as Hreach
    by (exists stream_opened; vm_compute; reflexivity).
  assert (step v8 chatting (StreamMessage 0 (Return agent_error_event) "0a1b")
          = Some agent_failed) as Hstep by (vm_compute; reflexivity).
  split; [exact Hreach|]. split; [reflexivity|]. split; [reflexivity|].
  split; [exact Hstep|].
  exact (error_event_sets_error v8 chatting agent_failed 0 agent_error_event
           (JStr "Agent failed") "0a1b" Hreach eq_refl eq_refl Hstep).
Defined.

Lemma upload_success_opens_chat_witness :
  page_chat uploading = None
  /\ uploadDocument v8 (upload_resolved "abc123")
     = Return (JObj [("session_id", JStr "abc123"); ("message", JStr "ok")])
  /\ step v8 uploading (UploadSettled (upload_resolved "abc123")) = Some connecting
  /\ sessionId (store connecting) = JStr "abc123"
  /\ error (store connecting) = JNull
  /\ sources connecting
     = [mkEventSource "http://localhost:8000/api/chat/stream/abc123" CONNECTING 0].
Proof.
  assert (step v8 uploading (UploadSettled (upload_resolved "abc123"))
          = Some connecting) as Hstep by (vm_compute; reflexivity).
  split; [reflexivity|]. split; [reflexivity|]. split; [exact Hstep|].
  destruct (upload_success_opens_chat v8 uploading connecting
              (upload_resolved "abc123") _ "abc123" eq_refl eq_refl eq_refl
              ltac:(discriminate) Hstep) as (Hstore & _ & _ & Hsources & _).
  rewrite Hstore, Hsources. repeat split.
Defined.

Lemma upload_failure_surfaces_message_witness :
  reachable v8 uploading
  /\ uploadDocument v8 upload_refused
     = Throw (mkExn PlainError "Only .docx files are supported")
  /\ exists w',
       step v8 uploading (UploadSettled upload_refused) = Some w'
       /\ error (store w') = JStr "Only .docx files are supported"
       /\ isUploading (store w') = false
       /\ sessionId (store w') = JNull.
Proof.
  assert (reachable v8 uploading) as Hreach
    by (exists [FileChosen "OrderForm.docx"]; vm_compute; reflexivity).
  split; [exact Hreach|]. split; [reflexivity|].
  eexists. split; [vm_compute; reflexivity|].
  destruct (upload_failure_surfaces_message v8 uploading _ upload_refused _
              Hreach eq_refl eq_refl) as (n & _ & Hw').
  repeat split.
Defined.

Lemma new_form_closes_and_resets_witness :
  reachable v8 chatting
  /\ exists w',
       step v8 chatting NewFormClicked = Some w'
       /\ store w' = session.initial
       /\ page_chat w' = None
       /\ readyState_of 0 w' = Some CLOSED.
Proof.
  assert (reachable v8 chatting) as Hreach
    by (exists stream_opened; vm_compute; reflexivity).
  split; [exact Hreach|].
  eexists. split; [vm_compute; reflexivity|].
  destruct (new_form_closes_and_resets v8 chatting _ Hreach eq_refl)
    as (i & _ & Hstore & Hpage & _).
  split; [exact Hstore|]. split; [exact Hpage|reflexivity].
Defined.

Lemma submit_appends_then_sends_witness :
  reachable v8 chatting
  /\ page_chat chatting = Some 0%nat
  /\ step v8 chatting (Submitted "  Jane Doe " "2c3d") = Some sending
  /\ messages (store sending)
     = messages (store chatting) ++ [mkMessage "2c3d" user (JStr "Jane Doe") 0]
  /\ requests sending = requests chatting ++ [PostChat (JStr "abc123") "Jane Doe"]
  /\ all_white_space no_break_spaces = true
  /\ step v8 chatting (Submitted no_break_spaces "2c3d") = Some chatting.
Proof.
  assert (reachable v8 chatting) as Hreach
    by (exists stream_opened; vm_compute; reflexivity).
  assert (step v8 chatting (Submitted "  Jane Doe " "2c3d") = Some sending)
    as Hstep by (vm_compute; reflexivity).
  split; [exact Hreach|]. split; [reflexivity|]. split; [exact Hstep|].
  destruct (submit_appends_then_sends v8 chatting sending 0 "  Jane Doe " "2c3d"
              Hreach eq_refl Hstep) as [_ Haccepted].
  destruct (Haccepted eq_refl eq_refl eq_refl) as (Hm & _ & _ & Hsent).
  destruct Hsent as (Hr & _).
  split; [exact Hm|]. split; [exact Hr|]. split; [reflexivity|].
  destruct (step v8 chatting (Submitted no_break_spaces "2c3d")) as [w'|] eqn:Hblank;
    [|discriminate Hblank].
  destruct (submit_appends_then_sends v8 chatting w' 0 no_break_spaces "2c3d"
              Hreach eq_refl Hblank) as [Hdropped _].
  by rewrite (Hdropped (or_introl eq_refl)).
Defined.

Lemma send_settled_keeps_transcript_witness :
  reachable v8 sending
  /\ exists w',
       step v8 sending (SendSettled 0 (Return session_not_found)) = Some w'
       /\ messages (store w') = messages (store sending)
       /\ error (store w') = JStr "Session not found"
       /\ isSending_of 0 w' = false.
Proof.
  assert (reachable v8 sending) as Hreach
    by (exists (stream_opened ++ [Submitted "  Jane Doe " "2c3d"]);
        vm_compute; reflexivity).
  split; [exact Hreach|].
  eexists. split; [vm_compute; reflexivity|].
  destruct (send_settled_keeps_transcript v8 sending _ 0 (Return session_not_found)
              Hreach eq_refl) as (Hm & Hstore & _ & Hsending & _).
  split; [exact Hm|]. split; [exact (f_equal error Hstore)|exact Hsending].
Defined.

Lemma operations_return_only_on_success_witness :
  uploadDocument v8 (upload_resolved "abc123")
    = Return (JObj [("session_id", JStr "abc123"); ("message", JStr "ok")])
  /\ exists response,
       upload_resolved "abc123" = Return response /\ ok response = true
       /\ json response
          = Return (JObj [("session_id", JStr "abc123"); ("message", JStr "ok")]).
Proof.
  split; [reflexivity|].
  destruct (operations_return_only_on_success v8 (upload_resolved "abc123"))
    as (H & _).
  exact (H _ eq_refl).
Defined.

Lemma handleFile_uploads_docx_names_witness :
  (exists p, "OrderForm.docx" = p +:+ ".docx")
  /\ requests (handleFile "OrderForm.docx" initial_world)
     = [PostUpload "OrderForm.docx"]
  /\ isUploading (store (handleFile "OrderForm.docx" initial_world)) = true.
Proof.
  assert (exists p, "OrderForm.docx" = p +:+ ".docx") as H
    by (exists "OrderForm"; reflexivity).
  split; [exact H|].
  destruct (handleFile_uploads_docx_names "OrderForm.docx" initial_world)
    as [Hyes _].
  rewrite (Hyes H). split; reflexivity.
Defined.

Lemma first_file_only_witness :
  endsWith "notes.txt" ".docx" = false
  /\ requests (snd (handleDrop ["notes.txt"; "OrderForm.docx"] (true, initial_world)))
     = requests initial_world
  /\ fst (handleDrop ["notes.txt"; "OrderForm.docx"] (true, initial_world)) = false.
Proof.
  destruct (first_file_only ["notes.txt"; "OrderForm.docx"] (true, initial_world))
    as (Hdrag & _ & _ & Hsnd & _ & Hfirst).
  destruct (Hfirst "notes.txt" ["OrderForm.docx"] eq_refl) as [_ Hnone].
  destruct (Hnone eq_refl) as [Hreq _].
  split; [reflexivity|]. split; [|exact Hdrag].
  rewrite Hsnd. exact Hreq.
Defined.

Lemma urls_identify_the_session_witness :
  getDownloadUrl v8 (JStr "abc123") = getDownloadUrl v8 (JStr "abc123")
  /\ "abc123" = "abc123"
  /\ getDownloadUrl v8 (JStr "abc123")
     = Return "http://localhost:8000/api/download/abc123".
Proof.
  destruct (urls_identify_the_session v8 "abc123" "abc123")
    as (Hurl & _ & Hinj & _).
  split; [reflexivity|]. split; [exact (Hinj eq_refl)|exact Hurl].
Defined.

Lemma one_live_stream_per_instance_witness :
  reachable v8 chatting
  /\ sources chatting !! 0%nat
     = Some (mkEventSource "http://localhost:8000/api/chat/stream/abc123" OPEN 0)
  /\ eventSource_of 0 chatting = Some 0%nat.
Proof.
  assert (reachable v8 chatting) as Hreach
    by (exists stream_opened; vm_compute; reflexivity).
  split; [exact Hreach|]. split; [reflexivity|].
  destruct (one_live_stream_per_instance v8 chatting 0 0 _ _ Hreach
              eq_refl ltac:(discriminate) eq_refl ltac:(discriminate) eq_refl)
    as [_ H].
  exact H.
Defined.

Lemma page_follows_session_witness :
  reachable v8 chatting
  /\ (hasSession (store chatting) = true <-> is_Some (page_chat chatting)).
Proof.
  assert (reachable v8 chatting) as Hreach
    by (exists stream_opened; vm_compute; reflexivity).
  split; [exact Hreach|].
  exact (proj1 (page_follows_session v8 chatting Hreach)).
Defined.

Lemma second_submit_is_dropped_witness :
  reachable v8 chatting
  /\ step v8 chatting (Submitted "  Jane Doe " "2c3d") = Some sending
  /\ sending <> chatting
  /\ step v8 sending (Submitted "12 Main Street" "4e5f") = Some sending.
Proof.
  assert (reachable v8 chatting) as Hreach
    by (exists stream_opened; vm_compute; reflexivity).
  assert (step v8 chatting (Submitted "  Jane Doe " "2c3d") = Some sending)
    as Hstep by (vm_compute; reflexivity).
  assert (sending <> chatting) as Hne by discriminate.
  split; [exact Hreach|]. split; [exact Hstep|]. split; [exact Hne|].
  exact (second_submit_is_dropped v8 chatting sending _ _ _ _ Hreach Hstep Hne).
Defined.

Lemma done_event_goes_by_truthiness_witness :
  get_prop done_with_number "type" = Some (JStr "done")
  /\ get_prop done_with_number "is_complete" = Some (JNum (S754_finite false 1 0))
  /\ isComplete (store (onmessage v8 0 (Return done_with_number) "6f1c" chatting))
     = true.
Proof.
  split; [reflexivity|]. split; [reflexivity|].
  destruct (done_event_goes_by_truthiness v8 0 done_with_number _ "6f1c" chatting
              eq_refl eq_refl) as (H & _).
  exact H.
Defined.

Lemma unusable_session_id_opens_no_stream_witness :
  page_chat uploading = None
  /\ uploadDocument v8 upload_without_id = Return (JObj [("message", JStr "ok")])
  /\ get_prop (JObj [("message", JStr "ok")]) "session_id" = Some JUndefined
  /\ exists w',
       step v8 uploading (UploadSettled upload_without_id) = Some w'
       /\ sources w' = sources uploading
       /\ page_chat w' = Some 0%nat.
Proof.
  split; [reflexivity|]. split; [reflexivity|]. split; [reflexivity|].
  eexists. split; [vm_compute; reflexivity|].
  destruct (unusable_session_id_opens_no_stream v8 uploading _ upload_without_id
              _ JUndefined eq_refl eq_refl eq_refl eq_refl eq_refl)
    as (_ & Hsources & Hshown & _).
  split; [exact Hsources|]. exact (proj1 (Hshown ltac:(discriminate))).
Defined.

Lemma dismiss_clears_error_only_witness :
  reachable v8 agent_failed
  /\ exists w',
       step v8 agent_failed ErrorDismissed = Some w'
       /\ w' = update_store (session.setError JNull) agent_failed.
Proof.
  assert (reachable v8 agent_failed) as Hreach
    by (exists (stream_opened
                ++ [StreamMessage 0 (Return agent_error_event) "0a1b"]);
        vm_compute; reflexivity).
  split; [exact Hreach|].
  eexists. split; [vm_compute; reflexivity|].
  exact (proj2 (dismiss_clears_error_only v8 agent_failed _ Hreach eq_refl)).
Defined.

Lemma one_live_stream_when_timely_witness :
  run v8 initial_world stream_opened = Some chatting
  /\ all_timely v8 initial_world stream_opened
  /\ (canDownload (store chatting) = true -> hasSession (store chatting) = true).
Proof.
  assert (run v8 initial_world stream_opened = Some chatting) as Hrun
    by (vm_compute; reflexivity).
  assert (all_timely v8 initial_world stream_opened) as Htimely.
  { vm_compute. repeat split. intros response [= <-]. discriminate. }
  split; [exact Hrun|]. split; [exact Htimely|].
  exact (proj2 (proj2 (one_live_stream_when_timely v8 stream_opened chatting
                         Hrun Htimely))).
Defined.
